(** * Lighthouse: the command-line runner and the colour-contrast audit

    A shallow embedding of two source files of the repository:

    - [lighthouse-core/audits/color-contrast.js], the accessibility audit
      that looks for a [color-contrast] violation among the collected
      artifacts (module [ColorContrast] below);
    - the command-line entry point (TypeScript), which resolves a debugging
      port, launches Chrome, runs Lighthouse over a list of URLs one at a
      time, and maps failures and SIGINT to process exit codes (module
      [Cli] below).

    The audit is a pure function.  The command-line runner is asynchronous
    JavaScript: it is embedded in a small monad of tasks that threads the
    mutable store, a logical clock and a log of time-stamped events, with
    the behaviour of every external collaborator supplied by an
    environment record. *)

From Stdlib Require Import String List ZArith Lia Bool Arith PeanoNat.
From Stdlib Require DecimalString.
Import ListNotations.

Local Open Scope string_scope.
Local Open Scope list_scope.

(** Decimal rendering of a JavaScript integer inside a template literal. *)
Definition string_of_nat (n : nat) : string :=
  DecimalString.NilEmpty.string_of_uint (Nat.to_uint n).

Definition string_of_Z (z : Z) : string :=
  DecimalString.NilZero.string_of_int (Z.to_int z).

Arguments string_of_nat : simpl never.
Arguments string_of_Z : simpl never.

(* ================================================================== *)
(** * The colour-contrast audit *)
(* ================================================================== *)

Module ColorContrast.

(** One entry of [artifacts.Accessibility.violations].  The audit reads
    [id], [help] and the length of [nodes]; a node is kept as the
    string that describes the failing element. *)
Record Violation : Type := mkViolation {
  id : string;
  help : string;
  nodes : list string
}.

(** [artifacts.Accessibility]; [violations] may be absent, in which
    case the audit substitutes the empty array. *)
Record AccessibilityArtifact : Type := mkAccessibility {
  violations : option (list Violation)
}.

Record Artifacts : Type := mkArtifacts {
  Accessibility : AccessibilityArtifact
}.

(** The [extendedInfo] field of the object handed to
    [generateAuditResult]. *)
Record ExtendedInfo (Format : Type) : Type := mkExtendedInfo {
  formatter : Format;
  value : option Violation
}.

(** The object literal the audit builds; [rule] being [undefined] is
    [None]. *)
Record AuditInit (Format : Type) : Type := mkAuditInit {
  rawValue : bool;
  debugString : string;
  extendedInfo : ExtendedInfo Format
}.

Arguments mkExtendedInfo {Format} _ _.
Arguments formatter {Format} _.
Arguments value {Format} _.
Arguments mkAuditInit {Format} _ _ _.
Arguments rawValue {Format} _.
Arguments debugString {Format} _.
Arguments extendedInfo {Format} _.

(** [result => result.id === 'color-contrast'] *)
Definition is_color_contrast (result : Violation) : bool :=
  String.eqb (id result) "color-contrast".

(** [static createDebugString(rule)] *)
Definition createDebugString (rule : option Violation) : string :=
  match rule with
  | None => ""
  | Some rule =>
      let elementsStr :=
        if Nat.eqb (length (nodes rule)) 1 then "element" else "elements" in
      (help rule ++ " (Failed on " ++ string_of_nat (length (nodes rule))
         ++ " " ++ elementsStr ++ ")")%string
  end.

(** [artifacts.Accessibility.violations || []]: every array is truthy,
    so only an absent value is replaced. *)
Definition violations_or_empty (artifacts : Artifacts) : list Violation :=
  match violations (Accessibility artifacts) with
  | Some vs => vs
  | None => []
  end.

Section Audit.

(** [Audit.generateAuditResult] and the formatter constant
    [Formatter.SUPPORTED_FORMATS.ACCESSIBILITY] live in files that are
    not part of this development; the audit is parametric in both. *)
Variable Format : Type.
Variable ACCESSIBILITY : Format.
Variable AuditResult : Type.
Variable generateAuditResult : AuditInit Format -> AuditResult.

(** The object literal of [static audit(artifacts)]. *)
Definition audit_init (artifacts : Artifacts) : AuditInit Format :=
  let violations := violations_or_empty artifacts in
  let rule := find is_color_contrast violations in
  mkAuditInit
    (match rule with None => true | Some _ => false end)
    (createDebugString rule)
    (mkExtendedInfo ACCESSIBILITY rule).

(** [static audit(artifacts)] *)
Definition audit (artifacts : Artifacts) : AuditResult :=
  generateAuditResult (audit_init artifacts).

End Audit.

(** *** Sample artifacts *)

Definition other_violation : Violation :=
  mkViolation "image-alt" "Images must have alternate text" ["img"].

Definition contrast_violation (failing : list string) : Violation :=
  mkViolation "color-contrast"
              "Elements must have sufficient color contrast" failing.

Definition failing_artifacts : Artifacts :=
  mkArtifacts
    (mkAccessibility
       (Some [other_violation; contrast_violation ["a"; "p"]])).

Definition failing_once_artifacts : Artifacts :=
  mkArtifacts
    (mkAccessibility
       (Some [contrast_violation ["a"]; other_violation])).

End ColorContrast.

(* ================================================================== *)
(** * The command-line runner *)
(* ================================================================== *)

Module Cli.

(** ** Constants of the module *)

Definition _SIGINT : string := "SIGINT".
Definition _ERROR_EXIT_CODE : Z := 130.
Definition _RUNTIME_ERROR_CODE : Z := 1.
Definition _PROTOCOL_TIMEOUT_EXIT_CODE : Z := 67.

(** ** Values *)

(** [interface LightHouseError extends Error { code?: string }] *)
Record LightHouseError : Type := mkError {
  message : string;
  code : option string;
  stack : option string
}.

(** What a promise can be rejected with, or a callback can throw: an
    error object, or a bare string such as the ['SIGINT'] the interrupt
    listener rejects with. *)
Inductive JsValue : Type :=
| VStr (s : string)
| VError (e : LightHouseError).

Definition Address := string.

(** The result document of one Lighthouse run; its structure is never
    inspected by the runner. *)
Definition Results := string.

(** The logical clock: the number of event-loop turns since [run] was
    called.  Everything a callback does happens at the instant the
    callback starts. *)
Definition Time := nat.

(** ** Promises of the environment *)

(** How a promise made outside this program behaves: it settles [d]
    turns after the call that made it, or never. *)
Inductive Beh (A : Type) : Type :=
| Fulfil (d : nat) (a : A)
| Reject (d : nat) (r : JsValue)
| Hang.

Arguments Fulfil {A} d a.
Arguments Reject {A} d r.
Arguments Hang {A}.

(** ** The mutable store *)

(** What calling a function of no arguments does: it returns a promise
    (a plain value counts as [Fulfil 0]), or it throws. *)
Inductive ActionBeh : Type :=
| Returns (b : Beh unit)
| Throws (r : JsValue).

(** A function registered with [cleanup].  The only one the module
    itself registers is [() => launcher.kill()]; any other function is
    represented by what calling it does. *)
Inductive Action : Type :=
| ActKill
| ActFn (b : ActionBeh).

(** [cliFlags], as far as the runner reads it.  [urls] is the array
    [cliFlags._]; the module constant [urls] is the same array object,
    and so is the [addresses] argument of every call in this file. *)
Record Flags : Type := mkFlags {
  port : Z;
  selectChrome : bool;
  skipAutolaunch : bool;
  output : string;          (* the constant [outputMode] *)
  output_path : string;     (* the constant [outputPath] *)
  urls : list Address
}.

(** The store: [cliFlags] and the array [cleanup.fns]. *)
Record Store : Type := mkStore {
  cliFlags : Flags;
  fns : list Action
}.

Inductive Mutation : Type :=
| MSetPort (p : Z)           (* [flags.port = ...] *)
| MShift                     (* [addresses.shift()] *)
| MRegister (fn : Action).   (* [this.fns.push(fn)] *)

Definition set_port (p : Z) (f : Flags) : Flags :=
  mkFlags p (selectChrome f) (skipAutolaunch f) (output f) (output_path f)
          (urls f).

Definition set_urls (l : list Address) (f : Flags) : Flags :=
  mkFlags (port f) (selectChrome f) (skipAutolaunch f) (output f)
          (output_path f) l.

Definition apply_mutation (m : Mutation) (s : Store) : Store :=
  match m with
  | MSetPort p => mkStore (set_port p (cliFlags s)) (fns s)
  | MShift => mkStore (set_urls (tl (urls (cliFlags s))) (cliFlags s)) (fns s)
  | MRegister fn => mkStore (cliFlags s) (fns s ++ [fn])
  end.

(** ** Events *)

(** Calls into the collaborators whose promises the runner waits for. *)
Inductive Op : Type :=
| OpIsDebuggerReady
| OpLauncherRun
| OpLauncherKill
| OpLighthouse (address : Address)
| OpWrite (results : Results) (mode path : string).

Inductive Arg : Type :=
| AStr (s : string)
| AVal (v : JsValue)
| AUndefined.

(** What the program does, as far as it can be seen from outside.
    [EvUncaught err] is an ['error'] event emitted on an emitter that
    has no listener for it: Node throws the error and, nothing of this
    program catching it, prints the error with its stack on the error
    stream and ends the process with status 1. *)
Inductive Event : Type :=
| EvLogVerbose (title msg : string)
| EvLogLog (title msg : string)
| EvConsoleError (args : list Arg)
| EvCreateServer
| EvListen (p : Z)
| EvServerClose
| EvNewLauncher (p : Z) (autoSelectChrome : bool)
| EvMutate (m : Mutation)
| EvCall (o : Op)
| EvSettled (o : Op) (fulfilled : bool)
| EvInvoke (fn : Action)
| EvOnSigint
| EvExit (exit_code : Z)
| EvUncaught (err : JsValue).

Definition Log := list (Time * Event).

(** The store as the log describes it: the mutations, in order. *)
Definition replay (l : Log) (s : Store) : Store :=
  fold_left
    (fun s e => match snd e with
                | EvMutate m => apply_mutation m s
                | _ => s
                end) l s.

(** The events that have happened by time [t]. *)
Definition upto (t : Time) (l : Log) : Log :=
  filter (fun e => Nat.leb (fst e) t) l.

(** ** Tasks *)

(** How a chain of callbacks ends. *)
Inductive Settle (A : Type) : Type :=
| Fulfilled (a : A)
| Rejected (r : JsValue)
| Pending              (* it never settles *)
| Exited (c : Z).      (* [process.exit(c)] was reached *)

Arguments Fulfilled {A} a.
Arguments Rejected {A} r.
Arguments Pending {A}.
Arguments Exited {A} c.

Record Res (A : Type) : Type := mkRes {
  settle : Settle A;
  now : Time;          (* when it ended *)
  store : Store;
  log : Log
}.

Arguments mkRes {A} _ _ _ _.
Arguments settle {A} _.
Arguments now {A} _.
Arguments store {A} _.
Arguments log {A} _.

(** A task is run from a store at a time.  It stands both for
    synchronous code and for a promise chain that is waited for: every
    promise of the source is waited for exactly once, at the instant it
    is created, except the secondary report write (see [start]). *)
Definition Task (A : Type) : Type := Store -> Time -> Res A.

Definition ret {A} (a : A) : Task A :=
  fun s t => mkRes (Fulfilled a) t s [].

Definition throw {A} (r : JsValue) : Task A :=
  fun s t => mkRes (Rejected r) t s [].

(** [m.then(f)], and sequencing inside a callback. *)
Definition bind {A B} (m : Task A) (f : A -> Task B) : Task B :=
  fun s t =>
    match m s t with
    | mkRes (Fulfilled a) t1 s1 l1 =>
        match f a s1 t1 with
        | mkRes st t2 s2 l2 => mkRes st t2 s2 (l1 ++ l2)
        end
    | mkRes (Rejected x) t1 s1 l1 => mkRes (Rejected x) t1 s1 l1
    | mkRes Pending t1 s1 l1 => mkRes Pending t1 s1 l1
    | mkRes (Exited c) t1 s1 l1 => mkRes (Exited c) t1 s1 l1
    end.

(** [m.catch(h)] *)
Definition catch {A} (m : Task A) (h : JsValue -> Task A) : Task A :=
  fun s t =>
    match m s t with
    | mkRes (Rejected x) t1 s1 l1 =>
        match h x s1 t1 with
        | mkRes st t2 s2 l2 => mkRes st t2 s2 (l1 ++ l2)
        end
    | r => r
    end.

Declare Scope task_scope.
Delimit Scope task_scope with task.
Notation "x <- m ;; k" := (bind m (fun x => k))
  (at level 61, m at next level, right associativity) : task_scope.
Notation "m ;; k" := (bind m (fun _ => k))
  (at level 61, right associativity) : task_scope.
Local Open Scope task_scope.

Definition get : Task Store :=
  fun s t => mkRes (Fulfilled s) t s [].

Definition emit (e : Event) : Task unit :=
  fun s t => mkRes (Fulfilled tt) t s [(t, e)].

Definition mutate (m : Mutation) : Task unit :=
  fun s t => mkRes (Fulfilled tt) t (apply_mutation m s) [(t, EvMutate m)].

(** [process.exit(c)]: nothing of this chain runs afterwards. *)
Definition process_exit {A} (c : Z) : Task A :=
  fun s t => mkRes (Exited c) t s [(t, EvExit c)].

(** ** Promises of the collaborators *)

(** A promise returned by a collaborator, with the absolute time at
    which it settles. *)
Inductive Promise (A : Type) : Type :=
| PFulfil (at_time : Time) (a : A)
| PReject (at_time : Time) (r : JsValue)
| PNever.

Arguments PFulfil {A} at_time a.
Arguments PReject {A} at_time r.
Arguments PNever {A}.

Definition promise_of {A} (t : Time) (b : Beh A) : Promise A :=
  match b with
  | Fulfil d a => PFulfil (t + d) a
  | Reject d r => PReject (t + d) r
  | Hang => PNever
  end.

(** Calling a collaborator: the call is logged now, the settlement when
    it happens; the promise is returned without waiting. *)
Definition start {A} (o : Op) (b : Time -> Beh A) : Task (Promise A) :=
  fun s t =>
    mkRes (Fulfilled (promise_of t (b t))) t s
          ((t, EvCall o) ::
           match b t with
           | Fulfil d _ => [(t + d, EvSettled o true)]
           | Reject d _ => [(t + d, EvSettled o false)]
           | Hang => []
           end).

(** Waiting for a promise: the chain resumes when it settles. *)
Definition await {A} (p : Promise A) : Task A :=
  fun s t =>
    match p with
    | PFulfil at_time a => mkRes (Fulfilled a) (Nat.max t at_time) s []
    | PReject at_time r => mkRes (Rejected r) (Nat.max t at_time) s []
    | PNever => mkRes Pending t s []
    end.

(** A collaborator's promise used as a link of a chain. *)
Definition perform {A} (o : Op) (b : Time -> Beh A) : Task A :=
  p <- start o b ;; await p.

(** ** The environment *)

(** What [server.listen(0)] leads to after [d] turns: the ['listening']
    event, with the port the operating system assigned (never 0), or,
    when the operating system gives no port, the ['error'] event with
    the error of the failed call.  The source registers a listener for
    ['listening'] only. *)
Inductive ListenBeh : Type :=
| Listening (d : nat) (p : positive)
| ListenFails (d : nat) (err : JsValue).

(** The collaborators.  Each answer may depend on the time of the call.
    [getFilenamePrefix] is [assetSaver.getFilenamePrefix({url: address})]
    and [OutputMode_pretty] is
    [Printer.OutputMode[Printer.OutputMode.pretty]]; both come from files
    outside this development.  [sigint] is the time at which the first
    SIGINT is delivered to the process, if any. *)
Record Env : Type := mkEnv {
  listen : Time -> ListenBeh;
  isDebuggerReady : Time -> Beh unit;
  launcher_run : Time -> Beh unit;
  launcher_kill : Time -> Beh unit;
  lighthouse : Address -> Flags -> Time -> Beh Results;
  Printer_write : Results -> string -> string -> Time -> Beh Results;
  getFilenamePrefix : Address -> string;
  OutputMode_pretty : string;
  sigint : option Time
}.

(** ** The program *)

Section Program.

Variable env : Env.

Definition log_verbose (title msg : string) : Task unit :=
  emit (EvLogVerbose title msg).

Definition log_log (title msg : string) : Task unit :=
  emit (EvLogLog title msg).

Definition console_error (args : list Arg) : Task unit :=
  emit (EvConsoleError args).

(** *** [cleanup] *)

(** [register(fn) { this.fns.push(fn); }] *)
Definition register (fn : Action) : Task unit :=
  mutate (MRegister fn).

(** [c => c()] *)
Definition call_fn (c : Action) : Task (Promise unit) :=
  emit (EvInvoke c) ;;
  match c with
  | ActKill => start OpLauncherKill (launcher_kill env)
  | ActFn (Returns b) => fun s t => ret (promise_of t b) s t
  | ActFn (Throws r) => throw r
  end.

(** [this.fns.map(c => c())]: the functions are called one after the
    other; one that throws ends the loop. *)
Fixpoint map_call (l : list Action) : Task (list (Promise unit)) :=
  match l with
  | [] => ret []
  | c :: l' => p <- call_fn c ;; ps <- map_call l' ;; ret (p :: ps)
  end.

(** The rejection that settles [Promise.all]: the earliest one, the
    first in the array among those of the same instant. *)
Fixpoint first_rejection (ps : list (Promise unit))
  : option (Time * JsValue) :=
  match ps with
  | [] => None
  | p :: ps' =>
      match p, first_rejection ps' with
      | PReject t r, Some (t', r') =>
          if Nat.leb t t' then Some (t, r) else Some (t', r')
      | PReject t r, None => Some (t, r)
      | _, other => other
      end
  end.

Definition never_settles (p : Promise unit) : bool :=
  match p with PNever => true | _ => false end.

Definition settle_time (p : Promise unit) : Time :=
  match p with
  | PFulfil t _ => t
  | PReject t _ => t
  | PNever => 0
  end.

(** [Promise.all(ps)]: rejected as soon as one promise is rejected,
    fulfilled when all are fulfilled. *)
Definition Promise_all (ps : list (Promise unit)) : Promise unit :=
  match first_rejection ps with
  | Some (t, r) => PReject t r
  | None =>
      if existsb never_settles ps then PNever
      else PFulfil (list_max (map settle_time ps)) tt
  end.

(** [doCleanup() { return Promise.all(this.fns.map(c => c())); }] *)
Definition doCleanup : Task (Promise unit) :=
  s <- get ;;
  ps <- map_call (fns s) ;;
  ret (Promise_all ps).

(** *** [initPort] *)

(** The wait for the server's ['listening'] event; the value is
    [server.address().port].  When the server emits ['error'] instead,
    the callback is never run, so the promise of [initPort] is never
    settled, and the error, for which there is no listener, is thrown
    by Node. *)
Definition on_listening : Task positive :=
  fun s t =>
    match listen env t with
    | Listening d p => mkRes (Fulfilled p) (t + d) s []
    | ListenFails d err => mkRes Pending t s [(t + d, EvUncaught err)]
    end.

Definition initPort : Task unit :=
  s <- get ;;
  if negb (Z.eqb (port (cliFlags s)) 0) then
    log_verbose "Lighthouse CLI"
      ("Using supplied port " ++ string_of_Z (port (cliFlags s)))%string
  else
    log_verbose "Lighthouse CLI" "Generating random port." ;;
    emit EvCreateServer ;;
    emit (EvListen 0) ;;
    p <- on_listening ;;
    mutate (MSetPort (Z.pos p)) ;;
    emit EvServerClose ;;
    log_verbose "Lighthouse CLI"
      ("Using generated port " ++ string_of_Z (Z.pos p) ++ ".")%string.

(** *** [lighthouseRun] *)

(** [!address] is false for every string but the empty one. *)
Definition is_truthy (address : Address) : bool :=
  negb (String.eqb address "").

(** A callback that returns [undefined] or a promise: the chain goes
    on at once, or when that promise settles. *)
Definition resolve (next : option (Task unit)) : Task unit :=
  match next with
  | None => ret tt
  | Some p => p
  end.

(** The result is [None] when the function returns [undefined] and the
    promise chain it returns otherwise.  [addresses] is the array
    [cliFlags._]: its contents are the argument, and [shift] is
    recorded in the store. *)
Fixpoint lighthouseRun (addresses : list Address)
  : Task (option (Task unit)) :=
  match addresses with
  | [] => ret None
  | address :: rest =>
      mutate MShift ;;
      if negb (is_truthy address) then ret None
      else
        ret (Some (
          s <- get ;;
          results <- perform (OpLighthouse address)
                       (lighthouse env address (cliFlags s)) ;;
          results <- perform
                       (OpWrite results (output (cliFlags s))
                                (output_path (cliFlags s)))
                       (Printer_write env results (output (cliFlags s))
                                      (output_path (cliFlags s))) ;;
          (if String.eqb (output (cliFlags s)) (OutputMode_pretty env)
           then
             let filename :=
               ("./" ++ getFilenamePrefix env address ++ ".report.html")%string in
             start (OpWrite results "html" filename)
                   (Printer_write env results "html" filename) ;;
             ret tt
           else ret tt) ;;
          next <- lighthouseRun rest ;;
          resolve next))
  end.

(** The file the secondary report of an address goes to. *)
Definition report_filename (address : Address) : string :=
  ("./" ++ getFilenamePrefix env address ++ ".report.html")%string.

(** What the call of [Printer.write] for the secondary report adds to
    the log at time [t]: the call, and the settlement whenever it
    comes. *)
Definition secondary_events (address : Address) (results : Results)
           (t : Time) : Log :=
  (t, EvCall (OpWrite results "html" (report_filename address))) ::
  match Printer_write env results "html" (report_filename address) t with
  | Fulfil d _ =>
      [(t + d,
        EvSettled (OpWrite results "html" (report_filename address)) true)]
  | Reject d _ =>
      [(t + d,
        EvSettled (OpWrite results "html" (report_filename address)) false)]
  | Hang => []
  end.

(** What the secondary write adds to the log when the results of an
    address have been written at time [t], the flags being those of
    store [s]: nothing in a mode other than the pretty one. *)
Definition secondary_log (s : Store) (address : Address)
           (results : Results) (t : Time) : Log :=
  if String.eqb (output (cliFlags s)) (OutputMode_pretty env)
  then secondary_events address results t
  else [].

(** [lighthouseRun] as a link of a chain, as in
    [.then(() => lighthouseRun(addresses, config, flags))]. *)
Definition run_addresses (addresses : list Address) : Task unit :=
  next <- lighthouseRun addresses ;; resolve next.

(** *** [launchChromeAndRun] *)

(** The chain [launcher.isDebuggerReady().catch(...).then(...)
    .then(...)] that [launchChromeAndRun] returns. *)
Definition launcher_chain : Task unit :=
  catch (perform OpIsDebuggerReady (isDebuggerReady env))
        (fun _ =>
           log_log "Lighthouse CLI" "Launching Chrome..." ;;
           perform OpLauncherRun (launcher_run env)) ;;
  (s <- get ;; run_addresses (urls (cliFlags s))) ;;
  perform OpLauncherKill (launcher_kill env).

(** The first link of that chain,
    [launcher.isDebuggerReady().catch(() => {...; return launcher.run();})]. *)
Definition debugger_ready_or_run : Task unit :=
  catch (perform OpIsDebuggerReady (isDebuggerReady env))
        (fun _ =>
           log_log "Lighthouse CLI" "Launching Chrome..." ;;
           perform OpLauncherRun (launcher_run env)).

Definition launchChromeAndRun : Task unit :=
  initPort ;;
  s <- get ;;
  emit (EvNewLauncher (port (cliFlags s))
                      (negb (selectChrome (cliFlags s)))) ;;
  register ActKill ;;
  launcher_chain.

(** *** Errors *)

Definition code_of (err : JsValue) : option string :=
  match err with
  | VError e => code e
  | VStr _ => None
  end.

Definition stack_of (err : JsValue) : option string :=
  match err with
  | VError e => stack e
  | VStr _ => None
  end.

Definition showConnectionError {A} : Task A :=
  console_error [AStr "Unable to connect to Chrome"] ;;
  console_error
    [AStr ("If you're using lighthouse with --skip-autolaunch, " ++
           "make sure you're running some other Chrome with a debugger.")%string] ;;
  process_exit _RUNTIME_ERROR_CODE.

Definition showRuntimeError {A} (err : JsValue) : Task A :=
  console_error [AStr "Runtime error encountered:"; AVal err] ;;
  match stack_of err with
  | Some st =>
      if negb (String.eqb st "") then console_error [AStr st] else ret tt
  | None => ret tt
  end ;;
  process_exit _RUNTIME_ERROR_CODE.

Definition showProtocolTimeoutError {A} : Task A :=
  console_error
    [AStr "Debugger protocol timed out while connecting to Chrome."] ;;
  process_exit _PROTOCOL_TIMEOUT_EXIT_CODE.

Definition code_is (err : JsValue) (c : string) : bool :=
  match code_of err with
  | Some c' => String.eqb c' c
  | None => false
  end.

Definition handleError {A} (err : JsValue) : Task A :=
  if code_is err "ECONNREFUSED" then showConnectionError
  else if code_is err "CRI_TIMEOUT" then showProtocolTimeoutError
  else showRuntimeError err.

(** *** [run] *)

(** An error has been thrown, and has ended the process, by time
    [ts]. *)
Definition thrown_by (ts : Time) (l : Log) : bool :=
  existsb (fun e => match snd e with
                    | EvUncaught _ => Nat.leb (fst e) ts
                    | _ => false
                    end) l.

(** The chain has come to its end by time [ts]: it has settled, or
    an error thrown out of it has ended the process. *)
Definition settled_by {A} (ts : Time) (r : Res A) : bool :=
  match settle r with
  | Pending => thrown_by ts (log r)
  | _ => Nat.leb (now r) ts
  end.

(** [Promise.race([p, isSigint])], [isSigint] being the promise that
    the SIGINT listener rejects with ['SIGINT'].  The interrupt wins
    when it is delivered while the listener is installed and [p] has
    not come to its end; the callbacks of [p] go on running all the
    same, so the whole log of [p] is kept, and what follows sees the
    store as it is at the time of the interrupt.  Of two things that
    happen at the same instant, the one done by [p] comes first. *)
Definition race_isSigint {A} (p : Task A) : Task A :=
  fun s t =>
    match sigint env with
    | Some ts =>
        if Nat.leb t ts && negb (settled_by ts (p s t))
        then mkRes (Rejected (VStr _SIGINT)) ts
                   (replay (upto ts (log (p s t))) s) (log (p s t))
        else p s t
    | None => p s t
    end.

Definition is_SIGINT (v : JsValue) : bool :=
  match v with
  | VStr s => String.eqb s _SIGINT
  | VError _ => false
  end.

(** The value of calling [.catch] on [undefined]. *)
Definition catch_of_undefined : JsValue :=
  VError (mkError "Cannot read property 'catch' of undefined" None
                  (Some "TypeError: Cannot read property 'catch' of undefined")).

(** The branch of the race's [catch] taken for ['SIGINT']. *)
Definition cleanup_and_exit : Task unit :=
  p <- doCleanup ;;
  catch (await p)
        (fun err =>
           console_error [AVal err] ;;
           console_error [match stack_of err with
                          | Some st => AStr st
                          | None => AUndefined
                          end]) ;;
  process_exit _ERROR_EXIT_CODE.

(** The callback of the race's [catch]. *)
Definition on_rejection (maybeSigint : JsValue) : Task unit :=
  if is_SIGINT maybeSigint then cleanup_and_exit
  else handleError maybeSigint.

(** The callback of [initPort(cliFlags).then]. *)
Definition run_then : Task unit :=
  s <- get ;;
  if skipAutolaunch (cliFlags s) then
    next <- lighthouseRun (urls (cliFlags s)) ;;
    match next with
    | None => throw catch_of_undefined
    | Some p => catch p handleError
    end
  else
    emit EvOnSigint ;;
    catch (race_isSigint launchChromeAndRun) on_rejection.

Definition run : Task unit :=
  initPort ;; run_then.

(** The first contestant of the race in [run]: the call of
    [launchChromeAndRun] made once the port has been resolved. *)
Definition pipeline (s0 : Store) : Res unit :=
  launchChromeAndRun (store (initPort s0 0)) (now (initPort s0 0)).

(** *** The process *)

(** How the process that called [run] ends, as far as this program
    decides it. *)
Inductive Termination : Type :=
| Exit (t : Time) (c : Z)        (* [process.exit(c)] at time [t] *)
| RunFulfilled (t : Time)        (* the promise of [run] is fulfilled *)
| RunRejected (t : Time) (r : JsValue)
| NeverSettles                   (* the promise of [run] never settles
                                    and nothing ends the process *)
| DefaultSigint (t : Time)       (* SIGINT with no listener installed:
                                    the platform ends the process and
                                    none of this program's code runs *)
| Uncaught (t : Time) (err : JsValue).
                                 (* an error is thrown and not caught:
                                    Node prints it with its stack and
                                    ends the process with status 1 *)

Record Outcome : Type := mkOutcome {
  termination : Termination;
  trace : Log
}.

Definition listening_by (ts : Time) (l : Log) : bool :=
  existsb (fun e => match snd e with
                    | EvOnSigint => Nat.leb (fst e) ts
                    | _ => false
                    end) l.

(** The first error thrown in a log, with its time.  A chain stops
    at the error it throws, and [run] is one chain, so its log holds
    one at most. *)
Fixpoint uncaught_error (l : Log) : option (Time * JsValue) :=
  match l with
  | [] => None
  | (t, EvUncaught err) :: _ => Some (t, err)
  | _ :: l' => uncaught_error l'
  end.

(** The signal finds no listener and a process that has not ended. *)
Definition unhandled_sigint (r : Res unit) : option Time :=
  match sigint env with
  | Some ts =>
      if negb (listening_by ts (log r)) && negb (settled_by ts r)
      then Some ts else None
  | None => None
  end.

(** One execution of the program from store [s0]: [run()] is called
    at time 0.  When the process is ended, by [process.exit], by the
    signal or by an error that is thrown and not caught, the events
    that had not happened yet are dropped. *)
Definition execute (s0 : Store) : Outcome :=
  let r := run s0 0 in
  match unhandled_sigint r with
  | Some ts => mkOutcome (DefaultSigint ts) (upto ts (log r))
  | None =>
      match settle r with
      | Exited c => mkOutcome (Exit (now r) c) (upto (now r) (log r))
      | Fulfilled _ => mkOutcome (RunFulfilled (now r)) (log r)
      | Rejected x => mkOutcome (RunRejected (now r) x) (log r)
      | Pending =>
          match uncaught_error (log r) with
          | Some (t, err) => mkOutcome (Uncaught t err) (upto t (log r))
          | None => mkOutcome NeverSettles (log r)
          end
      end
  end.


(** The store when the process ends. *)
Definition final_store (s0 : Store) : Store :=
  replay (trace (execute s0)) s0.

End Program.

(** ** Reading a log *)

(** The cleanup functions that were called, in order. *)
Fixpoint invoked (l : Log) : list Action :=
  match l with
  | [] => []
  | (_, EvInvoke fn) :: l' => fn :: invoked l'
  | _ :: l' => invoked l'
  end.

(** The addresses Lighthouse was started on, in order. *)
Fixpoint jobs (l : Log) : list Address :=
  match l with
  | [] => []
  | (_, EvCall (OpLighthouse a)) :: l' => a :: jobs l'
  | _ :: l' => jobs l'
  end.

Definition is_set_port (e : Event) : bool :=
  match e with EvMutate (MSetPort _) => true | _ => false end.

Definition is_shift (e : Event) : bool :=
  match e with EvMutate MShift => true | _ => false end.

Definition is_register (e : Event) : bool :=
  match e with EvMutate (MRegister _) => true | _ => false end.

Definition is_exit (e : Event) : bool :=
  match e with EvExit _ => true | _ => false end.

Definition is_invoke (e : Event) : bool :=
  match e with EvInvoke _ => true | _ => false end.

Definition is_kill (e : Event) : bool :=
  match e with EvCall OpLauncherKill => true | _ => false end.

Definition is_console_error (e : Event) : bool :=
  match e with EvConsoleError _ => true | _ => false end.

Definition is_uncaught (e : Event) : bool :=
  match e with EvUncaught _ => true | _ => false end.

(** The start of a Lighthouse run. *)
Definition is_job (e : Event) : bool :=
  match e with EvCall (OpLighthouse _) => true | _ => false end.

(** How many events of a kind a log holds. *)
Definition count (f : Event -> bool) (l : Log) : nat :=
  length (filter (fun e => f (snd e)) l).

Definition is_launch (e : Event) : bool :=
  match e with EvCall OpLauncherRun => true | _ => false end.

Definition is_new_launcher (e : Event) : bool :=
  match e with EvNewLauncher _ _ => true | _ => false end.

(** The events [lighthouseRun] can be the origin of: taking an address
    off the list, and the calls of Lighthouse and of the printer with
    their settlements. *)
Definition made_by_lighthouseRun (e : Event) : bool :=
  match e with
  | EvMutate MShift => true
  | EvCall (OpLighthouse _) | EvSettled (OpLighthouse _) _ => true
  | EvCall (OpWrite _ _ _) | EvSettled (OpWrite _ _ _) _ => true
  | _ => false
  end.

(** The events that have to do with a Chrome of the program's own: the
    launcher and its three operations, the cleanup registry, and the
    listener for SIGINT. *)
Definition touches_chrome (e : Event) : bool :=
  match e with
  | EvNewLauncher _ _ => true
  | EvCall OpIsDebuggerReady | EvSettled OpIsDebuggerReady _ => true
  | EvCall OpLauncherRun | EvSettled OpLauncherRun _ => true
  | EvCall OpLauncherKill | EvSettled OpLauncherKill _ => true
  | EvMutate (MRegister _) => true
  | EvInvoke _ => true
  | EvOnSigint => true
  | _ => false
  end.

(** The events [launchChromeAndRun] can be the origin of: everything
    but output on [console.error], calls of cleanup functions, the
    installation of the SIGINT listener and [process.exit]. *)
Definition made_by_launchChromeAndRun (e : Event) : bool :=
  match e with
  | EvConsoleError _ | EvInvoke _ | EvOnSigint | EvExit _ => false
  | _ => true
  end.

(** Reading a log in order, with [free] the time from which neither a
    Lighthouse run nor the write of its result is under way ([None]
    while one is): every Lighthouse run is started when the run before
    it has settled and the first write after it has settled too.  Writes
    that settle while nothing is under way are the secondary ones. *)
Fixpoint one_at_a_time (free : option Time) (l : Log) : bool :=
  match l with
  | [] => true
  | (t, EvCall (OpLighthouse _)) :: l' =>
      match free with
      | Some t0 => Nat.leb t0 t && one_at_a_time None l'
      | None => false
      end
  | (t, EvSettled (OpWrite _ _ _) _) :: l' =>
      match free with
      | None => one_at_a_time (Some t) l'
      | Some _ => one_at_a_time free l'
      end
  | _ :: l' => one_at_a_time free l'
  end.

(** The addresses before the first empty string. *)
Fixpoint truthy_prefix (addresses : list Address) : list Address :=
  match addresses with
  | [] => []
  | address :: rest =>
      if is_truthy address then address :: truthy_prefix rest else []
  end.


(** The same environment with another delivery time for SIGINT. *)
Definition with_sigint (ts : option Time) (env : Env) : Env :=
  mkEnv (listen env) (isDebuggerReady env) (launcher_run env)
        (launcher_kill env) (lighthouse env) (Printer_write env)
        (getFilenamePrefix env) (OutputMode_pretty env) ts.

(** What calling a registered function at time [t] does. *)
Definition behaviour (env : Env) (t : Time) (fn : Action) : ActionBeh :=
  match fn with
  | ActKill => Returns (launcher_kill env t)
  | ActFn b => b
  end.

(** The promise settles [d] turns after the call. *)
Definition settles_after {A} (b : Beh A) (d : nat) : Prop :=
  match b with
  | Fulfil d' _ => d' = d
  | Reject d' _ => d' = d
  | Hang => False
  end.

(** The promise a registered function returns when called at time
    [t], for a function that returns. *)
Definition promise_at (env : Env) (t : Time) (fn : Action) : Promise unit :=
  match behaviour env t fn with
  | Returns b => promise_of t b
  | Throws _ => PNever
  end.

Definition throws (b : ActionBeh) : bool :=
  match b with Throws _ => true | Returns _ => false end.

Definition fulfils (b : ActionBeh) : bool :=
  match b with Returns (Fulfil _ _) => true | _ => false end.

(** None of the functions throws when called at time [t]. *)
Definition none_throws (env : Env) (t : Time) (l : list Action) : bool :=
  forallb (fun fn => negb (throws (behaviour env t fn))) l.

(** The exit code [handleError] ends the process with. *)
Definition exit_code_of (err : JsValue) : Z :=
  if code_is err "ECONNREFUSED" then _RUNTIME_ERROR_CODE
  else if code_is err "CRI_TIMEOUT" then _PROTOCOL_TIMEOUT_EXIT_CODE
  else _RUNTIME_ERROR_CODE.

(** ** A program logic for tasks *)

(** [sat I P Q R m]: run from a store that satisfies [I], the task [m]
    does not go back in time, logs only events that satisfy [P], none of
    them earlier than its start, keeps [I], exits only with a code that
    satisfies [Q], and is fulfilled only with a value that satisfies
    [R]. *)
Definition sat {A} (I : Store -> Prop) (P : Event -> Prop) (Q : Z -> Prop)
           (R : A -> Prop) (m : Task A) : Prop :=
  forall s t, I s ->
    t <= now (m s t) /\
    Forall (fun e => t <= fst e /\ P (snd e)) (log (m s t)) /\
    I (store (m s t)) /\
    match settle (m s t) with
    | Fulfilled a => R a
    | Exited c => Q c
    | _ => True
    end.

(** What [lighthouseRun] returns satisfies [sat] again. *)
Definition sat_next (I : Store -> Prop) (P : Event -> Prop) (Q : Z -> Prop)
           (next : option (Task unit)) : Prop :=
  match next with
  | Some p => sat I P Q (fun _ => True) p
  | None => True
  end.

(** ** Scenarios *)

(** Concrete environments and stores on which the program is run
    below. *)

Definition err_generic : JsValue :=
  VError (mkError "boom" None (Some "Error: boom")).

Definition err_refused : JsValue :=
  VError (mkError "connect ECONNREFUSED 127.0.0.1:9222"
                  (Some "ECONNREFUSED")
                  (Some "Error: connect ECONNREFUSED 127.0.0.1:9222")).


(** Chrome answers after one turn, a Lighthouse run takes ten turns, a
    write two, killing Chrome one; the operating system assigns port
    9333 after two turns; no interrupt. *)
Definition env_quiet : Env :=
  mkEnv (fun _ => Listening 2 9333%positive)
        (fun _ => Fulfil 1 tt)
        (fun _ => Fulfil 3 tt)
        (fun _ => Fulfil 1 tt)
        (fun address _ _ => Fulfil 10 ("report of " ++ address)%string)
        (fun results _ _ _ => Fulfil 2 results)
        (fun address => address)
        "pretty"
        None.

(** Every Lighthouse run fails after four turns. *)
Definition env_job_fails : Env :=
  mkEnv (listen env_quiet) (isDebuggerReady env_quiet)
        (launcher_run env_quiet) (launcher_kill env_quiet)
        (fun _ _ _ => Reject 4 err_generic)
        (Printer_write env_quiet) (getFilenamePrefix env_quiet)
        (OutputMode_pretty env_quiet) None.

(** Writing in html mode fails after one turn. *)
Definition env_html_fails : Env :=
  mkEnv (listen env_quiet) (isDebuggerReady env_quiet)
        (launcher_run env_quiet) (launcher_kill env_quiet)
        (lighthouse env_quiet)
        (fun results mode _ _ =>
           if String.eqb mode "html" then Reject 1 err_generic
           else Fulfil 2 results)
        (getFilenamePrefix env_quiet) (OutputMode_pretty env_quiet) None.

(** Writing in html mode takes five turns. *)
Definition env_html_slow : Env :=
  mkEnv (listen env_quiet) (isDebuggerReady env_quiet)
        (launcher_run env_quiet) (launcher_kill env_quiet)
        (lighthouse env_quiet)
        (fun results mode _ _ =>
           if String.eqb mode "html" then Fulfil 5 results
           else Fulfil 2 results)
        (getFilenamePrefix env_quiet) (OutputMode_pretty env_quiet) None.

Definition err_listen : JsValue :=
  VError (mkError "listen EACCES 0.0.0.0" (Some "EACCES")
                  (Some "Error: listen EACCES 0.0.0.0")).

(** The operating system gives no port: the server emits ['error']
    one turn after the call of [listen]. *)
Definition env_listen_fails : Env :=
  mkEnv (fun _ => ListenFails 1 err_listen) (isDebuggerReady env_quiet)
        (launcher_run env_quiet) (launcher_kill env_quiet)
        (lighthouse env_quiet) (Printer_write env_quiet)
        (getFilenamePrefix env_quiet) (OutputMode_pretty env_quiet) None.

(** The quiet environment with SIGINT after five turns, while the first
    Lighthouse run is under way, and after a hundred turns, when all is
    over. *)
Definition env_interrupt : Env := with_sigint (Some 5) env_quiet.

Definition env_late_interrupt : Env := with_sigint (Some 100) env_quiet.

(** SIGINT after one turn, while the port is being resolved. *)
Definition env_early_interrupt : Env := with_sigint (Some 1) env_quiet.

(** SIGINT after five turns, and a Chrome whose [kill] never
    settles. *)
Definition env_kill_hangs : Env :=
  mkEnv (listen env_quiet) (isDebuggerReady env_quiet)
        (launcher_run env_quiet) (fun _ => Hang)
        (lighthouse env_quiet) (Printer_write env_quiet)
        (getFilenamePrefix env_quiet) (OutputMode_pretty env_quiet)
        (Some 5).

(** A Chrome whose [kill] is rejected after one turn. *)
Definition env_kill_rejects : Env :=
  mkEnv (listen env_quiet) (isDebuggerReady env_quiet)
        (launcher_run env_quiet) (fun _ => Reject 1 err_generic)
        (lighthouse env_quiet) (Printer_write env_quiet)
        (getFilenamePrefix env_quiet) (OutputMode_pretty env_quiet) None.

(** Chrome does not answer the readiness probe and is launched. *)
Definition env_not_ready : Env :=
  mkEnv (listen env_quiet) (fun _ => Reject 1 err_refused)
        (launcher_run env_quiet) (launcher_kill env_quiet)
        (lighthouse env_quiet) (Printer_write env_quiet)
        (getFilenamePrefix env_quiet) (OutputMode_pretty env_quiet) None.

(** Chrome does not answer and cannot be launched either. *)
Definition env_launch_fails : Env :=
  mkEnv (listen env_quiet) (fun _ => Reject 1 err_refused)
        (fun _ => Reject 2 err_generic) (launcher_kill env_quiet)
        (lighthouse env_quiet) (Printer_write env_quiet)
        (getFilenamePrefix env_quiet) (OutputMode_pretty env_quiet) None.

(** Every Lighthouse run is rejected with the string SIGINT; no signal
    is delivered. *)
Definition env_job_says_sigint : Env :=
  mkEnv (listen env_quiet) (isDebuggerReady env_quiet)
        (launcher_run env_quiet) (launcher_kill env_quiet)
        (fun _ _ _ => Reject 4 (VStr "SIGINT"))
        (Printer_write env_quiet) (getFilenamePrefix env_quiet)
        (OutputMode_pretty env_quiet) None.

(** SIGINT after twenty-five turns, at the instant the run over two
    addresses calls [launcher.kill()]. *)
Definition env_interrupt_at_kill : Env := with_sigint (Some 25) env_quiet.

Definition flags_of (p : Z) (skip : bool) (mode : string)
           (addresses : list Address) : Flags :=
  mkFlags p false skip mode "stdout" addresses.

Definition two_addresses : list Address :=
  ["https://example.com"; "https://example.org"].

(** The store when [run] is called: [cleanup.fns] is empty. *)
Definition store_two : Store :=
  mkStore (flags_of 9222 false "pretty" two_addresses) [].

Definition store_json : Store :=
  mkStore (flags_of 9222 false "json" two_addresses) [].

Definition store_skip : Store :=
  mkStore (flags_of 9222 true "pretty" two_addresses) [].

Definition store_port0 : Store :=
  mkStore (flags_of 0 false "pretty" two_addresses) [].

Definition store_empty_first : Store :=
  mkStore (flags_of 9222 false "pretty" [""; "https://example.com"]) [].

Definition store_skip_empty_first : Store :=
  mkStore (flags_of 9222 true "pretty" [""; "https://example.com"]) [].

(** The registry as [launchChromeAndRun] leaves it. *)
Definition store_kill_only : Store :=
  mkStore (flags_of 9222 false "pretty" two_addresses) [ActKill].

(** Registries other than the one [run] builds. *)
Definition store_rejecting : Store :=
  mkStore (flags_of 9222 false "pretty" [])
          [ActFn (Returns (Reject 1 err_generic));
           ActFn (Returns (Fulfil 5 tt))].

Definition store_throwing : Store :=
  mkStore (flags_of 9222 false "pretty" [])
          [ActFn (Throws err_generic); ActKill].

End Cli.

(* ================================================================== *)
(** * Facts about the colour-contrast audit *)
(* ================================================================== *)

Module ColorContrastFacts.
Import ColorContrast.

Lemma append_not_empty (s1 s2 : string) :
  s2 <> "" -> (s1 ++ s2)%string <> "".
Proof. destruct s1; cbn; [auto|discriminate]. Qed.

Lemma is_color_contrast_true (v : Violation) :
  is_color_contrast v = true <-> id v = "color-contrast".
Proof. unfold is_color_contrast. apply String.eqb_eq. Qed.

Lemma is_color_contrast_false (v : Violation) :
  is_color_contrast v = false <-> id v <> "color-contrast".
Proof. unfold is_color_contrast. apply String.eqb_neq. Qed.

(** [find] returns the first entry that matches. *)
Lemma find_first (pre post : list Violation) (rule : Violation) :
  id rule = "color-contrast" ->
  (forall v, In v pre -> id v <> "color-contrast") ->
  find is_color_contrast (pre ++ rule :: post) = Some rule.
Proof.
  intros Hr Hpre. induction pre as [|v pre IH]; cbn [app find].
  - apply is_color_contrast_true in Hr. rewrite Hr. reflexivity.
  - assert (Hv : is_color_contrast v = false)
      by (apply is_color_contrast_false, Hpre; left; reflexivity).
    rewrite Hv. apply IH. intros w Hw. apply Hpre. right. assumption.
Qed.

Lemma find_absent (vs : list Violation) :
  find is_color_contrast vs = None <->
  (forall v, In v vs -> id v <> "color-contrast").
Proof.
  split.
  - intros H v Hin. apply is_color_contrast_false.
    exact (find_none _ _ H v Hin).
  - intros H. induction vs as [|v vs IH]; [reflexivity|]. cbn [find].
    assert (Hv : is_color_contrast v = false)
      by (apply is_color_contrast_false, H; left; reflexivity).
    rewrite Hv. apply IH. intros w Hw. apply H. right. assumption.
Qed.

Lemma createDebugString_empty (rule : option Violation) :
  createDebugString rule = "" <-> rule = None.
Proof.
  destruct rule as [rule|]; cbn [createDebugString]; split;
    try reflexivity; try discriminate.
  intros H. exfalso. revert H. apply append_not_empty. discriminate.
Qed.

(** C10.  The audit hands [generateAuditResult] an object whose
    [rawValue] is true exactly when no violation (of the list, taken as
    empty when absent) has the id color-contrast, and whose
    [debugString] is empty exactly then.  Otherwise the first such
    violation is the rule reported: the [debugString] is its help text
    followed by the number of its nodes, with "element" for one node and
    "elements" for any other number. *)
Theorem audit_color_contrast (Format : Type) (ACCESSIBILITY : Format)
        (AuditResult : Type)
        (generateAuditResult : AuditInit Format -> AuditResult)
        (artifacts : Artifacts) :
  audit Format ACCESSIBILITY AuditResult generateAuditResult artifacts =
    generateAuditResult (audit_init Format ACCESSIBILITY artifacts) /\
  (rawValue (audit_init Format ACCESSIBILITY artifacts) = true <->
   forall v, In v (violations_or_empty artifacts) ->
             id v <> "color-contrast") /\
  (debugString (audit_init Format ACCESSIBILITY artifacts) = "" <->
   rawValue (audit_init Format ACCESSIBILITY artifacts) = true) /\
  (forall pre rule post,
     violations_or_empty artifacts = pre ++ rule :: post ->
     id rule = "color-contrast" ->
     (forall v, In v pre -> id v <> "color-contrast") ->
     rawValue (audit_init Format ACCESSIBILITY artifacts) = false /\
     value (extendedInfo (audit_init Format ACCESSIBILITY artifacts))
       = Some rule /\
     (length (nodes rule) = 1 ->
      debugString (audit_init Format ACCESSIBILITY artifacts) =
        (help rule ++ " (Failed on 1 element)")%string) /\
     (length (nodes rule) <> 1 ->
      debugString (audit_init Format ACCESSIBILITY artifacts) =
        (help rule ++ " (Failed on " ++
         string_of_nat (length (nodes rule)) ++ " elements)")%string)).
Proof.
  unfold audit, audit_init. cbn [rawValue debugString extendedInfo value].
  split; [reflexivity|]. split; [|split].
  - rewrite <- find_absent.
    destruct (find is_color_contrast (violations_or_empty artifacts));
      split; congruence.
  - rewrite createDebugString_empty.
    destruct (find is_color_contrast (violations_or_empty artifacts));
      split; congruence.
  - intros pre rule post Hvs Hid Hpre.
    rewrite Hvs, (find_first pre post rule Hid Hpre).
    cbn [createDebugString]. repeat split.
    + intros H1. rewrite H1. reflexivity.
    + intros Hn. apply Nat.eqb_neq in Hn. rewrite Hn. reflexivity.
Qed.

Lemma audit_color_contrast_witness :
  debugString (audit_init unit tt failing_artifacts) =
    "Elements must have sufficient color contrast (Failed on 2 elements)" /\
  debugString (audit_init unit tt failing_once_artifacts) =
    "Elements must have sufficient color contrast (Failed on 1 element)".
Proof.
  split.
  - refine (proj2 (proj2 (proj2 (proj2 (proj2 (proj2
             (audit_color_contrast unit tt (AuditInit unit) (fun r => r)
                failing_artifacts)))
             [other_violation] (contrast_violation ["a"; "p"]) []
             eq_refl eq_refl _))) _).
    + intros v [<-|[]]. discriminate.
    + discriminate.
  - refine (proj1 (proj2 (proj2 (proj2 (proj2 (proj2
             (audit_color_contrast unit tt (AuditInit unit) (fun r => r)
                failing_once_artifacts)))
             [] (contrast_violation ["a"]) [other_violation]
             eq_refl eq_refl _))) eq_refl).
    intros v [].
Defined.

End ColorContrastFacts.

(* ================================================================== *)
(** * Facts about the command-line runner *)
(* ================================================================== *)

Module CliFacts.

Import Cli.
Local Open Scope task_scope.
Local Arguments String.append : simpl never.

(** ** Generic facts about tasks *)

Lemma bind_ret {A B} (a : A) (f : A -> Task B) (s : Store) (t : Time) :
  bind (ret a) f s t = f a s t.
Proof. unfold bind, ret. destruct (f a s t); reflexivity. Qed.

Lemma bind_get {A} (f : Store -> Task A) (s : Store) (t : Time) :
  bind get f s t = f s s t.
Proof. unfold bind, get. destruct (f s s t); reflexivity. Qed.

Lemma bind_emit {A} (e : Event) (f : unit -> Task A) (s : Store)
      (t : Time) :
  bind (emit e) f s t =
  mkRes (settle (f tt s t)) (now (f tt s t)) (store (f tt s t))
        ((t, e) :: log (f tt s t)).
Proof. unfold bind, emit. destruct (f tt s t); reflexivity. Qed.

Lemma bind_mutate {A} (m : Mutation) (f : unit -> Task A) (s : Store)
      (t : Time) :
  bind (mutate m) f s t =
  mkRes (settle (f tt (apply_mutation m s) t))
        (now (f tt (apply_mutation m s) t))
        (store (f tt (apply_mutation m s) t))
        ((t, EvMutate m) :: log (f tt (apply_mutation m s) t)).
Proof.
  unfold bind, mutate. destruct (f tt (apply_mutation m s) t); reflexivity.
Qed.

Lemma bind_fulfilled {A B} (m : Task A) (f : A -> Task B) (s : Store)
      (t : Time) (a : A) :
  settle (m s t) = Fulfilled a ->
  bind m f s t =
  mkRes (settle (f a (store (m s t)) (now (m s t))))
        (now (f a (store (m s t)) (now (m s t))))
        (store (f a (store (m s t)) (now (m s t))))
        (log (m s t) ++ log (f a (store (m s t)) (now (m s t)))).
Proof.
  intros E. unfold bind. destruct (m s t) as [st t1 s1 l1].
  cbn [settle now store log] in *. subst st.
  destruct (f a s1 t1); reflexivity.
Qed.

Lemma bind_rejected {A B} (m : Task A) (f : A -> Task B) (s : Store)
      (t : Time) (x : JsValue) :
  settle (m s t) = Rejected x ->
  bind m f s t = mkRes (Rejected x) (now (m s t)) (store (m s t))
                       (log (m s t)).
Proof.
  intros E. unfold bind. destruct (m s t) as [st t1 s1 l1].
  cbn [settle now store log] in *. subst st. reflexivity.
Qed.

Lemma bind_pending {A B} (m : Task A) (f : A -> Task B) (s : Store)
      (t : Time) :
  settle (m s t) = Pending ->
  bind m f s t = mkRes Pending (now (m s t)) (store (m s t)) (log (m s t)).
Proof.
  intros E. unfold bind. destruct (m s t) as [st t1 s1 l1].
  cbn [settle now store log] in *. subst st. reflexivity.
Qed.

Lemma bind_assoc {A B C} (m : Task A) (f : A -> Task B) (g : B -> Task C)
      (s : Store) (t : Time) :
  bind (bind m f) g s t = bind m (fun a => bind (f a) g) s t.
Proof.
  unfold bind. destruct (m s t) as [[a|x| |c] t1 s1 l1]; try reflexivity.
  destruct (f a s1 t1) as [[b|x| |c] t2 s2 l2]; try reflexivity.
  destruct (g b s2 t2) as [st t3 s3 l3]. rewrite app_assoc. reflexivity.
Qed.

Lemma catch_rejected {A} (m : Task A) (h : JsValue -> Task A) (s : Store)
      (t : Time) (x : JsValue) :
  settle (m s t) = Rejected x ->
  catch m h s t =
  mkRes (settle (h x (store (m s t)) (now (m s t))))
        (now (h x (store (m s t)) (now (m s t))))
        (store (h x (store (m s t)) (now (m s t))))
        (log (m s t) ++ log (h x (store (m s t)) (now (m s t)))).
Proof.
  intros E. unfold catch. destruct (m s t) as [st t1 s1 l1].
  cbn [settle now store log] in *. subst st.
  destruct (h x s1 t1); reflexivity.
Qed.

Lemma catch_not_rejected {A} (m : Task A) (h : JsValue -> Task A)
      (s : Store) (t : Time) :
  (forall x, settle (m s t) <> Rejected x) ->
  catch m h s t = m s t.
Proof.
  intros E. unfold catch. destruct (m s t) as [st t1 s1 l1].
  cbn [settle] in E. destruct st; try reflexivity.
  exfalso; eapply E; reflexivity.
Qed.

Lemma catch_ext {A} (m m' : Task A) (h : JsValue -> Task A) (s : Store)
      (t : Time) :
  m s t = m' s t -> catch m h s t = catch m' h s t.
Proof. intros E. unfold catch. rewrite E. reflexivity. Qed.

Lemma perform_cases {A} (o : Op) (b : Time -> Beh A) (s : Store)
      (t : Time) :
  match b t with
  | Fulfil d v =>
      perform o b s t =
      mkRes (Fulfilled v) (t + d) s [(t, EvCall o); (t + d, EvSettled o true)]
  | Reject d x =>
      perform o b s t =
      mkRes (Rejected x) (t + d) s [(t, EvCall o); (t + d, EvSettled o false)]
  | Hang => perform o b s t = mkRes Pending t s [(t, EvCall o)]
  end.
Proof.
  unfold perform, bind, start, await.
  destruct (b t) as [d v|d x|]; cbn [promise_of];
    rewrite ?(Nat.max_r t (t + d)) by lia; reflexivity.
Qed.

(** ** A program logic for tasks *)

Section ProgramLogic.

Variable I : Store -> Prop.
Variable P : Event -> Prop.
Variable Q : Z -> Prop.

Lemma sat_ret {A} (R : A -> Prop) (a : A) :
  R a -> sat I P Q R (ret a).
Proof. intros HR s t HI; cbn; auto. Qed.

Lemma sat_throw {A} (R : A -> Prop) (r : JsValue) :
  sat I P Q R (throw r).
Proof. intros s t HI; cbn; auto. Qed.

Lemma sat_weaken {A} (R R' : A -> Prop) (m : Task A) :
  sat I P Q R m -> (forall a, R a -> R' a) -> sat I P Q R' m.
Proof.
  intros Hm HR s t HI.
  destruct (Hm s t HI) as (Ht & Hl & Hs & Hr).
  repeat split; auto.
  destruct (settle (m s t)); auto.
Qed.

Lemma Forall_later (t t' : Time) (l : Log) :
  t <= t' ->
  Forall (fun e => t' <= fst e /\ P (snd e)) l ->
  Forall (fun e => t <= fst e /\ P (snd e)) l.
Proof.
  intros Hle Hl. eapply Forall_impl; [|exact Hl].
  cbn; intros e [H1 H2]; split; [lia|assumption].
Qed.

Lemma sat_bind {A B} (R1 : A -> Prop) (R2 : B -> Prop)
      (m : Task A) (f : A -> Task B) :
  sat I P Q R1 m ->
  (forall a, R1 a -> sat I P Q R2 (f a)) ->
  sat I P Q R2 (bind m f).
Proof.
  intros Hm Hf s t HI.
  specialize (Hm s t HI). unfold bind.
  destruct (m s t) as [st t1 s1 l1]. cbn [settle now store log] in Hm.
  destruct Hm as (Ht & Hl & Hs & Hr).
  destruct st as [a| | |]; cbn [settle now store log]; auto.
  specialize (Hf a Hr s1 t1 Hs).
  destruct (f a s1 t1) as [st2 t2 s2 l2]. cbn [settle now store log] in *.
  destruct Hf as (Ht' & Hl' & Hs' & Hr').
  repeat split; [lia| |assumption|assumption].
  apply Forall_app; split; [assumption|].
  eapply Forall_later; eauto.
Qed.

Lemma sat_catch {A} (R : A -> Prop) (m : Task A) (h : JsValue -> Task A) :
  sat I P Q R m ->
  (forall x, sat I P Q R (h x)) ->
  sat I P Q R (catch m h).
Proof.
  intros Hm Hh s t HI.
  specialize (Hm s t HI). unfold catch.
  destruct (m s t) as [st t1 s1 l1]. cbn [settle now store log] in Hm.
  destruct Hm as (Ht & Hl & Hs & Hr).
  destruct st as [a|x| |]; cbn [settle now store log]; auto.
  specialize (Hh x s1 t1 Hs).
  destruct (h x s1 t1) as [st2 t2 s2 l2]. cbn [settle now store log] in *.
  destruct Hh as (Ht' & Hl' & Hs' & Hr').
  repeat split; [lia| |assumption|assumption].
  apply Forall_app; split; [assumption|].
  eapply Forall_later; eauto.
Qed.

Lemma sat_get : sat I P Q I get.
Proof. intros s t HI; cbn; auto. Qed.

Lemma sat_emit (e : Event) :
  P e -> sat I P Q (fun _ => True) (emit e).
Proof. intros He s t HI; cbn; repeat split; auto. Qed.

Lemma sat_mutate (m : Mutation) :
  P (EvMutate m) ->
  (forall s, I s -> I (apply_mutation m s)) ->
  sat I P Q (fun _ => True) (mutate m).
Proof. intros He Hm s t HI; cbn; repeat split; auto. Qed.

Lemma sat_process_exit {A} (R : A -> Prop) (c : Z) :
  P (EvExit c) -> Q c -> sat I P Q R (process_exit c).
Proof. intros He Hc s t HI; cbn; repeat split; auto. Qed.

Lemma sat_start {A} (o : Op) (b : Time -> Beh A) :
  P (EvCall o) -> (forall ok, P (EvSettled o ok)) ->
  sat I P Q (fun _ => True) (start o b).
Proof.
  intros Hc Hs s t HI; cbn; repeat split; auto.
  constructor; [cbn; auto|].
  destruct (b t); repeat constructor; cbn; auto; lia.
Qed.

Lemma sat_await {A} (p : Promise A) :
  sat I P Q (fun _ => True) (await p).
Proof.
  intros s t HI. destruct p; cbn; repeat split; auto; lia.
Qed.

Lemma sat_perform {A} (o : Op) (b : Time -> Beh A) :
  P (EvCall o) -> (forall ok, P (EvSettled o ok)) ->
  sat I P Q (fun _ => True) (perform o b).
Proof.
  intros Hc Hs. unfold perform.
  eapply sat_bind; [apply sat_start; assumption|].
  intros p _. apply sat_await.
Qed.


(** *** The components of the program *)

Variable env : Env.

Hypothesis HIP :
  forall m s, P (EvMutate m) -> I s -> I (apply_mutation m s).
Hypothesis HP :
  forall e, is_set_port e = false -> is_register e = false ->
            is_uncaught e = false -> P e.
Hypothesis Hport :
  (forall s, I s -> port (cliFlags s) <> 0%Z) \/
  ((forall p, P (EvMutate (MSetPort p))) /\
   (forall err, P (EvUncaught err))).

Ltac event := apply HP; reflexivity.

Ltac step :=
  first
    [ apply sat_emit; event
    | apply sat_perform; [event | intro; event]
    | apply sat_start; [event | intro; event]
    | apply sat_await
    | apply sat_get
    | apply sat_throw
    | apply sat_ret; exact Logic.I ].

Ltac seq := eapply sat_bind; [step | intros ? ?].

Lemma sat_on_listening :
  (forall err, P (EvUncaught err)) ->
  sat I P Q (fun _ => True) (on_listening env).
Proof.
  intros Hu s t HI. unfold on_listening.
  destruct (listen env t); cbn; repeat split; auto; try lia.
  repeat constructor; cbn; auto; lia.
Qed.

Lemma sat_initPort : sat I P Q (fun _ => True) (initPort env).
Proof.
  unfold initPort, log_verbose. seq.
  destruct (Z.eqb_spec (port (cliFlags a)) 0) as [E|E]; cbn [negb].
  - destruct Hport as [Hne|[Hset Hu]]; [exfalso; eapply Hne; eauto|].
    seq. seq. seq.
    eapply sat_bind; [apply sat_on_listening; exact Hu|intros p _].
    eapply sat_bind;
      [apply sat_mutate; [apply Hset|intros; apply HIP; auto]|intros ? ?].
    seq. step.
  - step.
Qed.

Lemma sat_resolve (next : option (Task unit)) :
  sat_next I P Q next -> sat I P Q (fun _ => True) (resolve next).
Proof. destruct next; cbn; [auto|intros _; step]. Qed.

Lemma sat_shift : sat I P Q (fun _ => True) (mutate MShift).
Proof.
  apply sat_mutate; [event|intros; apply HIP; [event|assumption]].
Qed.

Lemma sat_lighthouseRun (addresses : list Address) :
  sat I P Q (sat_next I P Q) (lighthouseRun env addresses).
Proof.
  induction addresses as [|address rest IH]; cbn [lighthouseRun].
  - apply sat_ret; exact Logic.I.
  - eapply sat_bind; [apply sat_shift|intros _ _].
    destruct (is_truthy address); cbn [negb].
    + apply sat_ret. cbn [sat_next].
      seq. seq. seq.
      apply sat_bind with (R1 := fun _ => True).
      * destruct (String.eqb _ _); [seq|]; step.
      * intros _ _. eapply sat_bind; [apply IH|].
        intros next Hn. apply sat_resolve; assumption.
    + apply sat_ret; exact Logic.I.
Qed.

Lemma sat_launcher_chain :
  sat I P Q (fun _ => True) (launcher_chain env).
Proof.
  unfold launcher_chain, log_log.
  apply sat_bind with (R1 := fun _ => True).
  - apply sat_catch; [step|]. intros x. seq. step.
  - intros _ _. apply sat_bind with (R1 := fun _ => True).
    + seq. unfold run_addresses.
      eapply sat_bind; [apply sat_lighthouseRun|].
      intros next Hn. apply sat_resolve; assumption.
    + intros _ _. step.
Qed.

Lemma sat_launchChromeAndRun :
  P (EvMutate (MRegister ActKill)) ->
  sat I P Q (fun _ => True) (launchChromeAndRun env).
Proof.
  intros Hreg. unfold launchChromeAndRun, register.
  eapply sat_bind; [apply sat_initPort|intros _ _].
  seq. seq.
  eapply sat_bind;
    [apply sat_mutate; [assumption|intros; apply HIP; auto]|intros _ _].
  apply sat_launcher_chain.
Qed.

Lemma sat_handleError {A} (R : A -> Prop) (err : JsValue) :
  Q _RUNTIME_ERROR_CODE -> Q _PROTOCOL_TIMEOUT_EXIT_CODE ->
  sat I P Q R (handleError err).
Proof.
  intros Q1 Q67.
  unfold handleError, showConnectionError, showProtocolTimeoutError,
    showRuntimeError, console_error.
  destruct (code_is err "ECONNREFUSED").
  - seq. seq. apply sat_process_exit; [event|assumption].
  - destruct (code_is err "CRI_TIMEOUT").
    + seq. apply sat_process_exit; [event|assumption].
    + seq. apply sat_bind with (R1 := fun _ => True).
      * destruct (stack_of err) as [st|]; [|step].
        destruct (String.eqb st ""); cbn [negb]; step.
      * intros _ _. apply sat_process_exit; [event|assumption].
Qed.

Lemma sat_call_fn (c : Action) :
  sat I P Q (fun _ => True) (call_fn env c).
Proof.
  unfold call_fn. seq.
  destruct c as [|[b|r]]; [step| |step].
  intros s t HI; cbn; auto.
Qed.

Lemma sat_map_call (l : list Action) :
  sat I P Q (fun _ => True) (map_call env l).
Proof.
  induction l as [|c l IH]; cbn [map_call]; [step|].
  eapply sat_bind; [apply sat_call_fn|intros p _].
  eapply sat_bind; [apply IH|intros ps _]. step.
Qed.

Lemma sat_cleanup_and_exit :
  Q _ERROR_EXIT_CODE ->
  sat I P Q (fun _ => True) (cleanup_and_exit env).
Proof.
  intros Q130.
  unfold cleanup_and_exit, doCleanup, console_error.
  apply sat_bind with (R1 := fun _ => True).
  - seq. eapply sat_bind; [apply sat_map_call|intros ps _]. step.
  - intros p _. apply sat_bind with (R1 := fun _ => True).
    + apply sat_catch; [step|]. intros err. seq. step.
    + intros _ _. apply sat_process_exit; [event|assumption].
Qed.

Lemma replay_keeps (l : Log) (s : Store) :
  Forall (fun e => P (snd e)) l -> I s -> I (replay l s).
Proof.
  unfold replay. revert s.
  induction l as [|[t e] l IH]; cbn; intros s Hl HI; [assumption|].
  inversion Hl as [|? ? He Hl']; subst. apply IH; [assumption|].
  cbn in He. destruct e; auto.
Qed.

Lemma sat_race_isSigint {A} (R : A -> Prop) (p : Task A) :
  sat I P Q R p -> sat I P Q R (race_isSigint env p).
Proof.
  intros Hp s t HI.
  destruct (Hp s t HI) as (Ht & Hl & Hs & Hr).
  unfold race_isSigint.
  destruct (sigint env) as [ts|]; [|auto].
  destruct (Nat.leb_spec t ts) as [Hle|Hgt]; cbn [andb]; [|auto].
  destruct (settled_by ts (p s t)); cbn [negb]; [auto|].
  cbn. repeat split; auto.
  apply replay_keeps; [|assumption].
  unfold upto. apply Forall_forall. intros e He.
  apply filter_In in He. destruct He as [He _].
  rewrite Forall_forall in Hl. apply Hl; assumption.
Qed.

Lemma sat_run_then :
  P (EvMutate (MRegister ActKill)) ->
  Q _RUNTIME_ERROR_CODE -> Q _PROTOCOL_TIMEOUT_EXIT_CODE ->
  Q _ERROR_EXIT_CODE ->
  sat I P Q (fun _ => True) (run_then env).
Proof.
  intros Hreg Q1 Q67 Q130. unfold run_then.
  seq. destruct (skipAutolaunch (cliFlags a)).
  - eapply sat_bind; [apply sat_lighthouseRun|].
    intros [p|] Hn; [|step].
    apply sat_catch; [exact Hn|]. intros x.
    apply sat_handleError; assumption.
  - seq. apply sat_catch.
    + apply sat_race_isSigint. apply sat_launchChromeAndRun; assumption.
    + intros x. unfold on_rejection. destruct (is_SIGINT x);
        [apply sat_cleanup_and_exit|apply sat_handleError]; assumption.
Qed.

Lemma sat_run :
  P (EvMutate (MRegister ActKill)) ->
  Q _RUNTIME_ERROR_CODE -> Q _PROTOCOL_TIMEOUT_EXIT_CODE ->
  Q _ERROR_EXIT_CODE ->
  sat I P Q (fun _ => True) (run env).
Proof.
  intros Hreg Q1 Q67 Q130. unfold run.
  eapply sat_bind; [apply sat_initPort|intros _ _].
  apply sat_run_then; assumption.
Qed.

End ProgramLogic.

(** ** Reading logs and stores *)

Lemma replay_app (l l' : Log) (s : Store) :
  replay (l ++ l') s = replay l' (replay l s).
Proof. unfold replay. apply fold_left_app. Qed.

Lemma upto_app (t : Time) (l l' : Log) :
  upto t (l ++ l') = upto t l ++ upto t l'.
Proof. unfold upto. apply filter_app. Qed.

Lemma in_upto (t : Time) (e : Time * Event) (l : Log) :
  In e l -> fst e <= t -> In e (upto t l).
Proof.
  intros Hin Hle. unfold upto. apply filter_In. split; [assumption|].
  apply Nat.leb_le. assumption.
Qed.

Lemma count_app (f : Event -> bool) (l l' : Log) :
  count f (l ++ l') = count f l + count f l'.
Proof. unfold count. rewrite filter_app, length_app. reflexivity. Qed.

Lemma count_none (f : Event -> bool) (l : Log) :
  Forall (fun e => f (snd e) = false) l -> count f l = 0.
Proof.
  unfold count. induction 1 as [|e l He Hl IH]; cbn; [reflexivity|].
  rewrite He. exact IH.
Qed.

Lemma filter_filter_le {A} (f g : A -> bool) (l : list A) :
  length (filter f (filter g l)) <= length (filter f l).
Proof.
  induction l as [|e l IH]; simpl; [lia|].
  destruct (g e); simpl; destruct (f e); simpl; lia.
Qed.

Lemma count_upto (f : Event -> bool) (t : Time) (l : Log) :
  count f (upto t l) <= count f l.
Proof. unfold count, upto. apply filter_filter_le. Qed.

Lemma skipn_tl {A} (k : nat) (l : list A) :
  skipn k (tl l) = skipn (S k) l.
Proof. destruct l; cbn; [destruct k; reflexivity|reflexivity]. Qed.

Lemma replay_fns (l : Log) (s : Store) :
  Forall (fun e => is_register (snd e) = false) l ->
  fns (replay l s) = fns s.
Proof.
  unfold replay. revert s.
  induction l as [|[t e] l IH]; cbn; intros s Hl; [reflexivity|].
  inversion Hl as [|? ? He Hl']; subst. rewrite IH by assumption.
  cbn in He. destruct e; try reflexivity.
  destruct m; try reflexivity. discriminate.
Qed.

(** What a log can change in a store. *)
Lemma replay_frame (l : Log) (s : Store) :
  selectChrome (cliFlags (replay l s)) = selectChrome (cliFlags s) /\
  skipAutolaunch (cliFlags (replay l s)) = skipAutolaunch (cliFlags s) /\
  output (cliFlags (replay l s)) = output (cliFlags s) /\
  output_path (cliFlags (replay l s)) = output_path (cliFlags s) /\
  urls (cliFlags (replay l s)) =
    skipn (count is_shift l) (urls (cliFlags s)) /\
  (count is_set_port l = 0 ->
   port (cliFlags (replay l s)) = port (cliFlags s)).
Proof.
  unfold replay, count. revert s.
  induction l as [|[t e] l IH]; intros s; cbn [fold_left filter snd].
  - cbn. repeat split; auto.
  - destruct (IH (match e with
                  | EvMutate m => apply_mutation m s
                  | _ => s
                  end)) as (H1 & H2 & H3 & H4 & H5 & H6).
    rewrite H1, H2, H3, H4, H5.
    destruct e as [| | | | | | |m| | | | | |]; cbn [is_shift is_set_port];
      try (repeat split; solve [auto]).
    destruct m as [p| |fn]; cbn [is_shift is_set_port length];
      repeat split; auto.
    + intros; discriminate.
    + cbn [apply_mutation cliFlags set_urls urls]. apply skipn_tl.
Qed.

Lemma invoked_app (l l' : Log) :
  invoked (l ++ l') = invoked l ++ invoked l'.
Proof.
  induction l as [|[t e] l IH]; [reflexivity|].
  destruct e; cbn; rewrite IH; reflexivity.
Qed.

Lemma jobs_app (l l' : Log) : jobs (l ++ l') = jobs l ++ jobs l'.
Proof.
  induction l as [|[t e] l IH]; [reflexivity|].
  destruct e as [| | | | | | | |o| | | | |]; cbn [jobs app];
    try exact IH.
  destruct o; cbn [jobs app]; rewrite ?IH; reflexivity.
Qed.

Lemma list_max_ge (l : list nat) (x : nat) : In x l -> x <= list_max l.
Proof.
  intros Hin.
  assert (H : Forall (fun k => k <= list_max l) l)
    by (apply list_max_le; lia).
  rewrite Forall_forall in H. auto.
Qed.

Ltac in_list := repeat first [left; reflexivity | right].

(** ** The error classifier and the exit codes *)




Lemma handleError_exits (err : JsValue) (s : Store) (t : Time) :
  settle (handleError (A:=unit) err s t) = Exited (exit_code_of err) /\
  now (handleError (A:=unit) err s t) = t.
Proof.
  unfold handleError, exit_code_of.
  destruct (code_is err "ECONNREFUSED"); [split; reflexivity|].
  destruct (code_is err "CRI_TIMEOUT"); [split; reflexivity|].
  unfold showRuntimeError.
  destruct (stack_of err) as [st|]; [|split; reflexivity].
  destruct (String.eqb st ""); split; reflexivity.
Qed.

Lemma cleanup_exit_code (env : Env) (s : Store) (t : Time) (c : Z) :
  settle (cleanup_and_exit env s t) = Exited c -> c = _ERROR_EXIT_CODE.
Proof.
  assert (H : sat (fun _ => True) (fun _ => True)
                  (fun c => c = _ERROR_EXIT_CODE) (fun _ => True)
                  (cleanup_and_exit env))
    by (apply sat_cleanup_and_exit; auto).
  destruct (H s t Logic.I) as (_ & _ & _ & H').
  intros E. rewrite E in H'. exact H'.
Qed.



(** ** Port resolution *)

Lemma initPort_supplied (env : Env) (s : Store) (t : Time) :
  port (cliFlags s) <> 0%Z ->
  initPort env s t =
  mkRes (Fulfilled tt) t s
        [(t, EvLogVerbose "Lighthouse CLI"
               ("Using supplied port " ++ string_of_Z (port (cliFlags s))))].
Proof.
  intros Hp. unfold initPort, bind, get.
  destruct (Z.eqb_spec (port (cliFlags s)) 0) as [E|E]; [contradiction|].
  reflexivity.
Qed.

Lemma initPort_generated (env : Env) (s : Store) (t : Time) (d : nat)
      (p : positive) :
  port (cliFlags s) = 0%Z ->
  listen env t = Listening d p ->
  initPort env s t =
  mkRes (Fulfilled tt) (t + d) (apply_mutation (MSetPort (Z.pos p)) s)
        [(t, EvLogVerbose "Lighthouse CLI" "Generating random port.");
         (t, EvCreateServer);
         (t, EvListen 0);
         (t + d, EvMutate (MSetPort (Z.pos p)));
         (t + d, EvServerClose);
         (t + d, EvLogVerbose "Lighthouse CLI"
                   ("Using generated port " ++ string_of_Z (Z.pos p) ++ "."))].
Proof.
  intros Hp Hl. unfold initPort, bind, get.
  rewrite Hp. cbn [Z.eqb negb].
  unfold log_verbose, emit, on_listening. rewrite Hl.
  reflexivity.
Qed.

Lemma initPort_refused (env : Env) (s : Store) (t : Time) (d : nat)
      (err : JsValue) :
  port (cliFlags s) = 0%Z ->
  listen env t = ListenFails d err ->
  initPort env s t =
  mkRes Pending t s
        [(t, EvLogVerbose "Lighthouse CLI" "Generating random port.");
         (t, EvCreateServer);
         (t, EvListen 0);
         (t + d, EvUncaught err)].
Proof.
  intros Hp Hl. unfold initPort, bind, get.
  rewrite Hp. cbn [Z.eqb negb].
  unfold log_verbose, emit, on_listening. rewrite Hl.
  reflexivity.
Qed.

(** Whatever [initPort] does, the rest of the store is as before, and a
    fulfilled [initPort] leaves a port other than 0. *)
Lemma initPort_frame (env : Env) (s : Store) (t : Time) :
  fns (store (initPort env s t)) = fns s /\
  set_port (port (cliFlags s)) (cliFlags (store (initPort env s t)))
    = cliFlags s /\
  (settle (initPort env s t) = Fulfilled tt ->
   port (cliFlags (store (initPort env s t))) <> 0%Z).
Proof.
  destruct (Z.eq_dec (port (cliFlags s)) 0) as [E|E].
  - destruct (listen env t) as [d p|d err] eqn:El.
    + rewrite (initPort_generated env _ t d p E El).
      destruct s as [[pt sc sk o op us] fs]. cbn in *. subst pt.
      repeat split. discriminate.
    + rewrite (initPort_refused env _ t d err E El).
      destruct s as [[pt sc sk o op us] fs]. cbn in *.
      repeat split. discriminate.
  - rewrite (initPort_supplied env _ t E).
    destruct s as [[pt sc sk o op us] fs]. cbn in *.
    repeat split; auto.
Qed.

(** *** Errors that nothing catches *)

Lemma uncaught_error_none (l : Log) :
  Forall (fun e => is_uncaught (snd e) = false) l ->
  uncaught_error l = None.
Proof.
  induction 1 as [|[u e] l He Hl IH]; [reflexivity|].
  cbn in He. destruct e; cbn [uncaught_error]; try exact IH.
  discriminate.
Qed.

Lemma thrown_by_none (ts : Time) (l : Log) :
  Forall (fun e => is_uncaught (snd e) = false) l ->
  thrown_by ts l = false.
Proof.
  unfold thrown_by.
  induction 1 as [|[u e] l He Hl IH]; [reflexivity|].
  cbn [existsb snd fst]. rewrite IH. cbn in He.
  destruct e; try reflexivity. discriminate.
Qed.

Lemma thrown_by_app (ts : Time) (l l' : Log) :
  thrown_by ts (l ++ l') = thrown_by ts l || thrown_by ts l'.
Proof. unfold thrown_by. apply existsb_app. Qed.

(** Once the port is not 0, nothing listens on a server, and no error
    is thrown. *)
Lemma run_then_no_uncaught (env : Env) (s : Store) (t : Time) :
  port (cliFlags s) <> 0%Z ->
  Forall (fun e => is_uncaught (snd e) = false) (log (run_then env s t)).
Proof.
  intros Hp.
  assert (H : sat (fun s => port (cliFlags s) <> 0%Z)
                  (fun e => is_uncaught e = false /\ is_set_port e = false)
                  (fun _ => True) (fun _ => True) (run_then env)).
  { apply sat_run_then; auto.
    intros m s' [_ Hm] Hs'.
    destruct m; cbn in *; [discriminate|assumption..]. }
  destruct (H s t Hp) as (_ & Hl & _).
  eapply Forall_impl; [|exact Hl]. cbn. intros e [_ [He _]]. exact He.
Qed.

Lemma launchChromeAndRun_no_uncaught (env : Env) (s : Store) (t : Time) :
  port (cliFlags s) <> 0%Z ->
  Forall (fun e => is_uncaught (snd e) = false)
         (log (launchChromeAndRun env s t)).
Proof.
  intros Hp.
  assert (H : sat (fun s => port (cliFlags s) <> 0%Z)
                  (fun e => is_uncaught e = false /\ is_set_port e = false)
                  (fun _ => True) (fun _ => True) (launchChromeAndRun env)).
  { apply sat_launchChromeAndRun; auto.
    intros m s' [_ Hm] Hs'.
    destruct m; cbn in *; [discriminate|assumption..]. }
  destruct (H s t Hp) as (_ & Hl & _).
  eapply Forall_impl; [|exact Hl]. cbn. intros e [_ [He _]]. exact He.
Qed.

(** A port resolution that is fulfilled has thrown nothing. *)
Lemma initPort_no_uncaught (env : Env) (s : Store) (t : Time) :
  settle (initPort env s t) = Fulfilled tt ->
  Forall (fun e => is_uncaught (snd e) = false) (log (initPort env s t)).
Proof.
  destruct (Z.eq_dec (port (cliFlags s)) 0) as [E|E].
  - destruct (listen env t) as [d p|d err] eqn:El.
    + rewrite (initPort_generated env s t d p E El). intros _.
      repeat constructor.
    + rewrite (initPort_refused env s t d err E El). discriminate.
  - rewrite (initPort_supplied env s t E). intros _. repeat constructor.
Qed.

Lemma run_no_uncaught (env : Env) (s0 : Store) :
  settle (initPort env s0 0) = Fulfilled tt ->
  Forall (fun e => is_uncaught (snd e) = false) (log (run env s0 0)).
Proof.
  intros E. unfold run. rewrite (bind_fulfilled _ _ _ _ tt E). cbn [log].
  apply Forall_app. split; [apply initPort_no_uncaught; exact E|].
  apply run_then_no_uncaught. apply (initPort_frame env s0 0). exact E.
Qed.






(** ** The race against SIGINT *)

Lemma launcher_chain_no_register (env : Env) (s : Store) (t : Time) :
  Forall (fun e => is_register (snd e) = false)
         (log (launcher_chain env s t)).
Proof.
  assert (H : sat (fun _ => True) (fun e => is_register e = false)
                  (fun _ => True) (fun _ => True) (launcher_chain env))
    by (apply sat_launcher_chain; auto).
  destruct (H s t Logic.I) as (_ & Hl & _).
  eapply Forall_impl; [|exact Hl]. cbn. intros e [_ He]. exact He.
Qed.

Lemma launchChromeAndRun_registers (env : Env) (s : Store) (t : Time) :
  port (cliFlags s) <> 0%Z ->
  launchChromeAndRun env s t =
  mkRes (settle (launcher_chain env (apply_mutation (MRegister ActKill) s) t))
        (now (launcher_chain env (apply_mutation (MRegister ActKill) s) t))
        (store (launcher_chain env (apply_mutation (MRegister ActKill) s) t))
        ([(t, EvLogVerbose "Lighthouse CLI"
                ("Using supplied port " ++ string_of_Z (port (cliFlags s))));
          (t, EvNewLauncher (port (cliFlags s))
                            (negb (selectChrome (cliFlags s))));
          (t, EvMutate (MRegister ActKill))] ++
         log (launcher_chain env (apply_mutation (MRegister ActKill) s) t)).
Proof.
  intros Hp. unfold launchChromeAndRun.
  unfold bind at 1. rewrite (initPort_supplied env s t Hp).
  unfold bind at 1. unfold get at 1.
  unfold bind at 1. unfold emit at 1.
  unfold bind at 1. unfold register, mutate.
  destruct (launcher_chain env (apply_mutation (MRegister ActKill) s) t)
    as [st n so lg].
  reflexivity.
Qed.

(** When the interrupt arrives after [launchChromeAndRun] has started,
    the registry holds the kill function. *)
Lemma fns_at_interrupt (env : Env) (s : Store) (t ts : Time) :
  port (cliFlags s) <> 0%Z ->
  t <= ts ->
  fns (replay (upto ts (log (launchChromeAndRun env s t))) s) =
  fns s ++ [ActKill].
Proof.
  intros Hp Hle. rewrite (launchChromeAndRun_registers env s t Hp).
  cbn [log]. rewrite upto_app, replay_app.
  rewrite replay_fns.
  - unfold upto. cbn [filter fst].
    apply Nat.leb_le in Hle. rewrite Hle. reflexivity.
  - unfold upto. apply Forall_forall. intros e He.
    apply filter_In in He. destruct He as [He _].
    pose proof (launcher_chain_no_register env
                  (apply_mutation (MRegister ActKill) s) t) as Hc.
    rewrite Forall_forall in Hc. apply Hc; assumption.
Qed.

(** [run] when Chrome is to be launched and the port has been
    resolved. *)
Lemma run_autolaunch (env : Env) (s0 : Store) (r : Res unit) :
  skipAutolaunch (cliFlags s0) = false ->
  settle (initPort env s0 0) = Fulfilled tt ->
  catch (race_isSigint env (launchChromeAndRun env)) (on_rejection env)
        (store (initPort env s0 0)) (now (initPort env s0 0)) = r ->
  run env s0 0 =
  mkRes (settle r) (now r) (store r)
        (log (initPort env s0 0) ++
         (now (initPort env s0 0), EvOnSigint) :: log r).
Proof.
  intros Hskip Hr0 Hr.
  destruct (initPort_frame env s0 0) as (_ & Hfr & _).
  assert (Hsk : skipAutolaunch (cliFlags (store (initPort env s0 0))) = false).
  { rewrite <- Hskip, <- Hfr. reflexivity. }
  unfold run. rewrite (bind_fulfilled _ _ _ _ tt Hr0). cbv beta.
  unfold run_then.
  rewrite bind_get, Hsk, bind_emit, Hr. reflexivity.
Qed.

(** The interrupt branch when the registry holds the kill function
    only. *)
Lemma cleanup_single_fulfil (env : Env) (s : Store) (t : Time) (d : nat)
      (a : unit) :
  fns s = [ActKill] ->
  launcher_kill env t = Fulfil d a ->
  cleanup_and_exit env s t =
  mkRes (Exited _ERROR_EXIT_CODE) (t + d) s
        [(t, EvInvoke ActKill); (t, EvCall OpLauncherKill);
         (t + d, EvSettled OpLauncherKill true);
         (t + d, EvExit _ERROR_EXIT_CODE)].
Proof.
  intros Hf Hk. unfold cleanup_and_exit, doCleanup.
  unfold bind at 1. rewrite bind_get, Hf. cbn [map_call].
  unfold call_fn, bind, emit, start, ret, catch, await, process_exit.
  rewrite Hk.
  cbn [Promise_all first_rejection promise_of existsb never_settles orb
       map settle_time list_max app fold_right].
  rewrite Nat.max_0_r, (Nat.max_r t (t + d)) by lia. reflexivity.
Qed.

Lemma cleanup_single_reject (env : Env) (s : Store) (t : Time) (d : nat)
      (x : JsValue) :
  fns s = [ActKill] ->
  launcher_kill env t = Reject d x ->
  cleanup_and_exit env s t =
  mkRes (Exited _ERROR_EXIT_CODE) (t + d) s
        [(t, EvInvoke ActKill); (t, EvCall OpLauncherKill);
         (t + d, EvSettled OpLauncherKill false);
         (t + d, EvConsoleError [AVal x]);
         (t + d, EvConsoleError [match stack_of x with
                                 | Some st => AStr st
                                 | None => AUndefined
                                 end]);
         (t + d, EvExit _ERROR_EXIT_CODE)].
Proof.
  intros Hf Hk. unfold cleanup_and_exit, doCleanup.
  unfold bind at 1. rewrite bind_get, Hf. cbn [map_call].
  unfold call_fn, bind, emit, start, ret, catch, await, process_exit,
    console_error, emit.
  rewrite Hk.
  cbn [Promise_all first_rejection promise_of existsb never_settles orb
       map settle_time list_max app fold_right].
  rewrite (Nat.max_r t (t + d)) by lia. reflexivity.
Qed.

Lemma cleanup_single_hang (env : Env) (s : Store) (t : Time) :
  fns s = [ActKill] ->
  launcher_kill env t = Hang ->
  cleanup_and_exit env s t =
  mkRes Pending t s [(t, EvInvoke ActKill); (t, EvCall OpLauncherKill)].
Proof.
  intros Hf Hk. unfold cleanup_and_exit, doCleanup.
  unfold bind at 1. rewrite bind_get, Hf. cbn [map_call].
  unfold call_fn, bind, emit, start, ret, catch, await, process_exit.
  rewrite Hk. reflexivity.
Qed.

Lemma listening_by_installed (ts t : Time) (l l' : Log) :
  t <= ts -> listening_by ts (l ++ (t, EvOnSigint) :: l') = true.
Proof.
  intros Hle. unfold listening_by. rewrite existsb_app. cbn.
  apply Nat.leb_le in Hle. rewrite Hle. apply orb_true_iff. right.
  reflexivity.
Qed.

Lemma race_interrupted {A} (env : Env) (p : Task A) (s : Store)
      (t ts : Time) :
  sigint env = Some ts -> t <= ts -> settled_by ts (p s t) = false ->
  race_isSigint env p s t =
  mkRes (Rejected (VStr _SIGINT)) ts (replay (upto ts (log (p s t))) s)
        (log (p s t)).
Proof.
  intros Hs Hle Hp. unfold race_isSigint. rewrite Hs, Hp.
  apply Nat.leb_le in Hle. rewrite Hle. reflexivity.
Qed.

Lemma race_settled {A} (env : Env) (p : Task A) (s : Store) (t ts : Time) :
  sigint env = Some ts -> settled_by ts (p s t) = true ->
  race_isSigint env p s t = p s t.
Proof.
  intros Hs Hp. unfold race_isSigint. rewrite Hs, Hp.
  rewrite andb_false_r. reflexivity.
Qed.

(** What [execute] gives when the interrupt wins the race. *)
Lemma run_interrupted (env : Env) (s0 : Store) (ts : Time) :
  sigint env = Some ts ->
  skipAutolaunch (cliFlags s0) = false ->
  fns s0 = [] ->
  settle (initPort env s0 0) = Fulfilled tt ->
  now (initPort env s0 0) <= ts ->
  settled_by ts (pipeline env s0) = false ->
  exists S,
    fns S = [ActKill] /\
    run env s0 0 =
    mkRes (settle (cleanup_and_exit env S ts))
          (now (cleanup_and_exit env S ts))
          (store (cleanup_and_exit env S ts))
          (log (initPort env s0 0) ++
           (now (initPort env s0 0), EvOnSigint) ::
           log (pipeline env s0) ++ log (cleanup_and_exit env S ts)).
Proof.
  intros Hsig Hskip Hfns Hr0 Hle Hp. unfold pipeline in *.
  destruct (initPort_frame env s0 0) as (Hf & _ & Hport).
  specialize (Hport Hr0).
  exists (replay (upto ts (log (launchChromeAndRun env
            (store (initPort env s0 0)) (now (initPort env s0 0)))))
            (store (initPort env s0 0))).
  split.
  - rewrite fns_at_interrupt by assumption. rewrite Hf, Hfns. reflexivity.
  - erewrite run_autolaunch; [|assumption|assumption|].
    2:{ rewrite (catch_rejected _ _ _ _ (VStr _SIGINT));
        rewrite (race_interrupted env _ _ _ ts Hsig Hle Hp); reflexivity. }
    reflexivity.
Qed.

Lemma execute_handled (env : Env) (s0 : Store) (r : Res unit) (ts : Time)
      (l l' : Log) (t : Time) :
  run env s0 0 = r ->
  sigint env = Some ts ->
  log r = l ++ (t, EvOnSigint) :: l' ->
  t <= ts ->
  settle (initPort env s0 0) = Fulfilled tt ->
  execute env s0 =
  match settle r with
  | Exited c => mkOutcome (Exit (now r) c) (upto (now r) (log r))
  | Fulfilled _ => mkOutcome (RunFulfilled (now r)) (log r)
  | Rejected x => mkOutcome (RunRejected (now r) x) (log r)
  | Pending => mkOutcome NeverSettles (log r)
  end.
Proof.
  intros Hr Hsig Hl Hle Hr0. unfold execute, unhandled_sigint.
  rewrite (uncaught_error_none _ (run_no_uncaught env s0 Hr0)).
  rewrite Hr, Hsig, Hl, listening_by_installed by assumption.
  reflexivity.
Qed.

Ltac in_log :=
  apply in_or_app; right; apply in_cons; apply in_or_app; right;
  cbn; auto 10.

Lemma interrupt_wins (env : Env) (s0 : Store) (ts : Time) :
  sigint env = Some ts ->
  skipAutolaunch (cliFlags s0) = false ->
  fns s0 = [] ->
  settle (initPort env s0 0) = Fulfilled tt ->
  now (initPort env s0 0) <= ts ->
  settled_by ts (pipeline env s0) = false ->
  In (ts, EvInvoke ActKill) (trace (execute env s0)) /\
  In (ts, EvCall OpLauncherKill) (trace (execute env s0)) /\
  (forall d, settles_after (launcher_kill env ts) d ->
     termination (execute env s0) = Exit (ts + d) _ERROR_EXIT_CODE /\
     (exists ok, In (ts + d, EvSettled OpLauncherKill ok)
                    (trace (execute env s0)))) /\
  (launcher_kill env ts = Hang ->
     termination (execute env s0) = NeverSettles).
Proof.
  intros Hsig Hskip Hfns Hr0 Hle Hp.
  destruct (run_interrupted env s0 ts Hsig Hskip Hfns Hr0 Hle Hp)
    as (S & HS & Hrun).
  rewrite (execute_handled env s0 _ ts _ _ _ Hrun Hsig eq_refl Hle Hr0).
  cbn [settle now log].
  destruct (launcher_kill env ts) as [d a|d x|] eqn:Ek.
  - rewrite (cleanup_single_fulfil env S ts d a HS Ek).
    cbn [settle now log trace termination settles_after].
    split; [|split; [|split]].
    + apply in_upto; [|cbn; lia]. in_log.
    + apply in_upto; [|cbn; lia]. in_log.
    + intros d' <-. split; [reflexivity|]. exists true.
      apply in_upto; [|cbn; lia]. in_log.
    + discriminate.
  - rewrite (cleanup_single_reject env S ts d x HS Ek).
    cbn [settle now log trace termination settles_after].
    split; [|split; [|split]].
    + apply in_upto; [|cbn; lia]. in_log.
    + apply in_upto; [|cbn; lia]. in_log.
    + intros d' <-. split; [reflexivity|]. exists false.
      apply in_upto; [|cbn; lia]. in_log.
    + discriminate.
  - rewrite (cleanup_single_hang env S ts HS Ek).
    cbn [settle now log trace termination settles_after].
    split; [|split; [|split]].
    + in_log.
    + in_log.
    + intros d' [].
    + reflexivity.
Qed.

Lemma launchChromeAndRun_later (env : Env) (s : Store) (t : Time) :
  t <= now (launchChromeAndRun env s t).
Proof.
  assert (H : sat (fun _ => True) (fun _ => True) (fun _ => True)
                  (fun _ => True) (launchChromeAndRun env))
    by (apply sat_launchChromeAndRun; auto).
  apply (H s t Logic.I).
Qed.

Lemma settled_by_le {A} (ts : Time) (r : Res A) :
  Forall (fun e => is_uncaught (snd e) = false) (log r) ->
  settled_by ts r = true -> now r <= ts.
Proof.
  intros Hu. unfold settled_by. rewrite (thrown_by_none ts _ Hu).
  destruct (settle r); try discriminate; apply Nat.leb_le.
Qed.

(** The program does not read [sigint] anywhere but in the race. *)
Lemma run_without_sigint (env : Env) (s0 : Store) (r : Res unit) :
  skipAutolaunch (cliFlags s0) = false ->
  settle (initPort env s0 0) = Fulfilled tt ->
  catch (launchChromeAndRun env) (on_rejection env)
        (store (initPort env s0 0)) (now (initPort env s0 0)) = r ->
  run (with_sigint None env) s0 0 =
  mkRes (settle r) (now r) (store r)
        (log (initPort env s0 0) ++
         (now (initPort env s0 0), EvOnSigint) :: log r).
Proof.
  intros Hskip Hr0 Hr.
  exact (run_autolaunch (with_sigint None env) s0 r Hskip Hr0 Hr).
Qed.

Lemma pipeline_first (env : Env) (s0 : Store) (ts : Time) :
  sigint env = Some ts ->
  skipAutolaunch (cliFlags s0) = false ->
  settle (initPort env s0 0) = Fulfilled tt ->
  settled_by ts (pipeline env s0) = true ->
  execute env s0 = execute (with_sigint None env) s0 /\
  (forall a, settle (pipeline env s0) = Fulfilled a ->
     termination (execute env s0) = RunFulfilled (now (pipeline env s0))) /\
  (forall x, settle (pipeline env s0) = Rejected x ->
     is_SIGINT x = false ->
     termination (execute env s0) =
       Exit (now (pipeline env s0)) (exit_code_of x)).
Proof.
  intros Hsig Hskip Hr0 Hp.
  assert (Hle : now (initPort env s0 0) <= ts).
  { apply settled_by_le in Hp;
      [|apply launchChromeAndRun_no_uncaught, (initPort_frame env s0 0), Hr0].
    unfold pipeline in Hp.
    pose proof (launchChromeAndRun_later env (store (initPort env s0 0))
                  (now (initPort env s0 0))). lia. }
  assert (Hrun := run_autolaunch env s0 _ Hskip Hr0
                    (catch_ext _ _ (on_rejection env) _ _
                       (race_settled env _ _ _ ts Hsig Hp))).
  assert (Hrun' := run_without_sigint env s0 _ Hskip Hr0 eq_refl).
  assert (Hex := execute_handled env s0 _ ts _ _ _ Hrun Hsig eq_refl Hle Hr0).
  cbn [settle now log] in Hex.
  split; [|split].
  - rewrite Hex. unfold execute, unhandled_sigint.
    rewrite (uncaught_error_none _
               (run_no_uncaught (with_sigint None env) s0 Hr0)).
    rewrite Hrun'. reflexivity.
  - intros a Ha. rewrite Hex. fold (pipeline env s0).
    rewrite catch_not_rejected
      by (intros x; fold (pipeline env s0); rewrite Ha; discriminate).
    fold (pipeline env s0). rewrite Ha. reflexivity.
  - intros x Hx Hns. rewrite Hex.
    rewrite (catch_rejected _ _ _ _ x) by exact Hx.
    cbn [settle now log]. fold (pipeline env s0).
    unfold on_rejection. rewrite Hns.
    destruct (handleError_exits x (store (pipeline env s0))
                (now (pipeline env s0))) as (-> & ->).
    reflexivity.
Qed.

(** C1, as the code has it.  When Chrome is to be launched, the
    listener for SIGINT is installed at the moment the port has been
    resolved.  An interrupt delivered from then on and before
    [launchChromeAndRun] settles calls the registered kill function at
    once, and the process exits with 130 at the moment the promise of
    [doCleanup] settles (never, if it does not settle).  When
    [launchChromeAndRun] settles first, the execution is the one
    without any interrupt: no exit when it is fulfilled, the exit code of
    [handleError] when it is rejected. *)
Theorem interrupt_race (env : Env) (s0 : Store) (ts : Time) :
  sigint env = Some ts ->
  skipAutolaunch (cliFlags s0) = false ->
  fns s0 = [] ->
  settle (initPort env s0 0) = Fulfilled tt ->
  (now (initPort env s0 0) <= ts ->
   settled_by ts (pipeline env s0) = false ->
     In (ts, EvInvoke ActKill) (trace (execute env s0)) /\
     In (ts, EvCall OpLauncherKill) (trace (execute env s0)) /\
     (forall d, settles_after (launcher_kill env ts) d ->
        termination (execute env s0) = Exit (ts + d) 130 /\
        (exists ok, In (ts + d, EvSettled OpLauncherKill ok)
                       (trace (execute env s0)))) /\
     (launcher_kill env ts = Hang ->
        termination (execute env s0) = NeverSettles)) /\
  (settled_by ts (pipeline env s0) = true ->
     execute env s0 = execute (with_sigint None env) s0 /\
     (forall a, settle (pipeline env s0) = Fulfilled a ->
        termination (execute env s0) =
          RunFulfilled (now (pipeline env s0))) /\
     (forall x, settle (pipeline env s0) = Rejected x ->
        is_SIGINT x = false ->
        termination (execute env s0) =
          Exit (now (pipeline env s0)) (exit_code_of x))).
Proof.
  intros Hsig Hskip Hfns Hr0. split.
  - intros Hle Hp. apply (interrupt_wins env s0 ts); assumption.
  - intros Hp. apply (pipeline_first env s0 ts); assumption.
Qed.

Lemma interrupt_race_witness :
  termination (execute env_interrupt store_two) = Exit 6 130 /\
  execute env_late_interrupt store_two = execute env_quiet store_two.
Proof.
  split.
  - destruct (interrupt_race env_interrupt store_two 5
                eq_refl eq_refl eq_refl eq_refl) as [H _].
    destruct (H (le_0_n 5) eq_refl) as (_ & _ & H3 & _).
    exact (proj1 (H3 1 eq_refl)).
  - destruct (interrupt_race env_late_interrupt store_two 100
                eq_refl eq_refl eq_refl eq_refl) as [_ H].
    exact (proj1 (H eq_refl)).
Defined.

(** C1 does not hold as stated.  With [--skip-autolaunch] no listener
    is installed at all, and without it none is installed while the port
    is being resolved: an interrupt that fires then, before the pipeline
    has settled, finds no listener, no cleanup function is called and the
    program never reaches [process.exit(130)].  And when the listener is
    there but the promise of [launcher.kill()] never settles, the
    cleanup is started and the process never exits. *)
Lemma interrupt_without_listener :
  (sigint env_interrupt = Some 5 /\
   settled_by 5 (run env_interrupt store_skip 0) = false /\
   listening_by 5 (log (run env_interrupt store_skip 0)) = false /\
   termination (execute env_interrupt store_skip) = DefaultSigint 5 /\
   invoked (trace (execute env_interrupt store_skip)) = [] /\
   count is_exit (trace (execute env_interrupt store_skip)) = 0) /\
  (sigint env_early_interrupt = Some 1 /\
   settled_by 1 (run env_early_interrupt store_port0 0) = false /\
   listening_by 1 (log (run env_early_interrupt store_port0 0)) = false /\
   termination (execute env_early_interrupt store_port0) = DefaultSigint 1 /\
   invoked (trace (execute env_early_interrupt store_port0)) = [] /\
   count is_exit (trace (execute env_early_interrupt store_port0)) = 0) /\
  (sigint env_kill_hangs = Some 5 /\
   settled_by 5 (pipeline env_kill_hangs store_two) = false /\
   invoked (trace (execute env_kill_hangs store_two)) = [ActKill] /\
   termination (execute env_kill_hangs store_two) = NeverSettles /\
   count is_exit (trace (execute env_kill_hangs store_two)) = 0).
Proof. vm_compute. repeat split. Qed.

(** ** The writes of the port, and the trace of an execution *)

(** Once the port is not 0, nothing writes it. *)
Lemma run_then_no_set_port (env : Env) (s : Store) (t : Time) :
  port (cliFlags s) <> 0%Z ->
  Forall (fun e => is_set_port (snd e) = false) (log (run_then env s t)).
Proof.
  intros Hp.
  assert (H : sat (fun s => port (cliFlags s) <> 0%Z)
                  (fun e => is_set_port e = false)
                  (fun _ => True) (fun _ => True) (run_then env)).
  { apply sat_run_then; auto.
    intros m s' Hm Hs'. destruct m; cbn in *; [discriminate|assumption..]. }
  destruct (H s t Hp) as (_ & Hl & _).
  eapply Forall_impl; [|exact Hl]. cbn. intros e [_ He]. exact He.
Qed.

(** The port writes of [run]: none, or the one of the first
    [initPort]. *)
Lemma run_set_port (env : Env) (s0 : Store) :
  Forall (fun e => is_set_port (snd e) = false) (log (run env s0 0)) \/
  (port (cliFlags s0) = 0%Z /\
   exists d q rest,
     listen env 0 = Listening d q /\
     log (run env s0 0) =
       [(0, EvLogVerbose "Lighthouse CLI" "Generating random port.");
        (0, EvCreateServer); (0, EvListen 0)] ++
       (d, EvMutate (MSetPort (Z.pos q))) :: rest /\
     Forall (fun e => is_set_port (snd e) = false) rest).
Proof.
  destruct (Z.eq_dec (port (cliFlags s0)) 0) as [E|E].
  - destruct (listen env 0) as [d q|d err] eqn:El.
    + right. split; [assumption|].
      assert (Hi := initPort_generated env s0 0 d q E El).
      exists d, q,
        ([(d, EvServerClose);
          (d, EvLogVerbose "Lighthouse CLI"
                ("Using generated port " ++ string_of_Z (Z.pos q) ++ "."))]
         ++ log (run_then env (apply_mutation (MSetPort (Z.pos q)) s0) d)).
      split; [reflexivity|]. split.
      * unfold run. rewrite (bind_fulfilled _ _ _ _ tt)
          by (rewrite Hi; reflexivity).
        rewrite Hi. reflexivity.
      * apply Forall_app. split; [repeat constructor|].
        apply run_then_no_set_port. cbn. discriminate.
    + left. unfold run, bind. rewrite (initPort_refused env s0 0 d err E El).
      repeat constructor.
  - left. unfold run.
    assert (Hi := initPort_supplied env s0 0 E).
    rewrite (bind_fulfilled _ _ _ _ tt) by (rewrite Hi; reflexivity).
    rewrite Hi. cbn [settle now store log].
    apply Forall_app. split; [repeat constructor|].
    apply run_then_no_set_port. assumption.
Qed.

Lemma trace_cases (env : Env) (s0 : Store) :
  trace (execute env s0) = log (run env s0 0) \/
  exists t, trace (execute env s0) = upto t (log (run env s0 0)).
Proof.
  unfold execute. destruct (unhandled_sigint env (run env s0 0)) as [ts|].
  - right. exists ts. reflexivity.
  - destruct (settle (run env s0 0)); cbn; eauto.
    destruct (uncaught_error _) as [[u e]|]; cbn; eauto.
Qed.

Lemma trace_in (env : Env) (s0 : Store) (e : Time * Event) :
  In e (trace (execute env s0)) -> In e (log (run env s0 0)).
Proof.
  destruct (trace_cases env s0) as [->|[t ->]]; [auto|].
  unfold upto. intros H. apply filter_In in H. apply H.
Qed.

Lemma trace_count (env : Env) (s0 : Store) (f : Event -> bool) :
  count f (trace (execute env s0)) <= count f (log (run env s0 0)).
Proof.
  destruct (trace_cases env s0) as [->|[t ->]]; [lia|apply count_upto].
Qed.

(** ** The cleanup registry *)

Lemma call_fn_returns (env : Env) (c : Action) (s : Store) (t : Time) :
  throws (behaviour env t c) = false ->
  settle (call_fn env c s t) = Fulfilled (promise_at env t c) /\
  now (call_fn env c s t) = t /\
  store (call_fn env c s t) = s /\
  invoked (log (call_fn env c s t)) = [c].
Proof.
  unfold call_fn, promise_at. rewrite bind_emit.
  destruct c as [|[b|x]]; cbn [behaviour throws]; try discriminate;
    intros _; cbn [settle now store log start ret invoked];
    repeat split.
  destruct (launcher_kill env t); reflexivity.
Qed.

Lemma call_fn_throws (env : Env) (c : Action) (s : Store) (t : Time)
      (x : JsValue) :
  behaviour env t c = Throws x ->
  settle (call_fn env c s t) = Rejected x /\
  invoked (log (call_fn env c s t)) = [c].
Proof.
  unfold call_fn. rewrite bind_emit.
  destruct c as [|[b|y]]; cbn [behaviour]; try discriminate.
  intros E; injection E as ->. split; reflexivity.
Qed.

Lemma map_call_returns (env : Env) (l : list Action) (s : Store)
      (t : Time) :
  none_throws env t l = true ->
  settle (map_call env l s t) = Fulfilled (map (promise_at env t) l) /\
  now (map_call env l s t) = t /\
  store (map_call env l s t) = s /\
  invoked (log (map_call env l s t)) = l.
Proof.
  unfold none_throws.
  induction l as [|c l IH]; cbn [map_call forallb map]; intros Hl.
  - repeat split.
  - apply andb_true_iff in Hl. destruct Hl as [Hc Hl].
    apply negb_true_iff in Hc.
    destruct (call_fn_returns env c s t Hc) as (E1 & E2 & E3 & E4).
    destruct (IH Hl) as (F1 & F2 & F3 & F4).
    rewrite (bind_fulfilled _ _ _ _ _ E1). rewrite E2, E3.
    rewrite (bind_fulfilled _ _ _ _ _ F1). rewrite F2, F3.
    cbn [settle now store log ret]. repeat split.
    rewrite !invoked_app, E4, F4, app_nil_r. reflexivity.
Qed.

Lemma map_call_throws (env : Env) (pre post : list Action) (fn : Action)
      (x : JsValue) (s : Store) (t : Time) :
  none_throws env t pre = true ->
  behaviour env t fn = Throws x ->
  settle (map_call env (pre ++ fn :: post) s t) = Rejected x /\
  invoked (log (map_call env (pre ++ fn :: post) s t)) = pre ++ [fn].
Proof.
  unfold none_throws. intros Hpre Hfn.
  induction pre as [|c pre IH]; cbn [map_call forallb app] in *.
  - destruct (call_fn_throws env fn s t x Hfn) as (E1 & E2).
    rewrite (bind_rejected _ _ _ _ _ E1). cbn [settle log].
    split; [reflexivity|assumption].
  - apply andb_true_iff in Hpre. destruct Hpre as [Hc Hpre].
    apply negb_true_iff in Hc.
    destruct (call_fn_returns env c s t Hc) as (E1 & E2 & E3 & E4).
    destruct (IH Hpre) as (F1 & F2).
    rewrite (bind_fulfilled _ _ _ _ _ E1). rewrite E2, E3.
    rewrite (bind_rejected _ _ _ _ _ F1).
    cbn [settle now store log]. split; [reflexivity|].
    rewrite invoked_app, E4, F2. reflexivity.
Qed.

Lemma first_rejection_none (ps : list (Promise unit)) :
  first_rejection ps = None ->
  forall T y, ~ In (PReject T y) ps.
Proof.
  induction ps as [|p ps IH]; cbn [first_rejection]; intros E T y;
    [intros []|].
  destruct p as [u a|u r|].
  - intros [H|H]; [discriminate|]. eapply IH; eauto.
  - destruct (first_rejection ps) as [[u' r']|];
      [destruct (Nat.leb u u')|]; discriminate.
  - intros [H|H]; [discriminate|]. eapply IH; eauto.
Qed.

Lemma first_rejection_some (ps : list (Promise unit)) (T : Time)
      (y : JsValue) :
  first_rejection ps = Some (T, y) ->
  In (PReject T y) ps /\
  forall T' y', In (PReject T' y') ps -> T <= T'.
Proof.
  revert T y. induction ps as [|p ps IH]; cbn [first_rejection];
    intros T y E; [discriminate|].
  destruct p as [u a|u r|].
  - destruct (IH T y E) as (Hin & Hmin). split; [right; assumption|].
    intros T' y' [H|H]; [discriminate|eauto].
  - destruct (first_rejection ps) as [[u' r']|] eqn:Er.
    + destruct (IH u' r' eq_refl) as (Hin & Hmin).
      destruct (Nat.leb_spec u u') as [Hle|Hgt]; injection E as <- <-.
      * split; [left; reflexivity|].
        intros T' y' [H|H]; [injection H as <- _; lia|].
        specialize (Hmin _ _ H). lia.
      * split; [right; assumption|].
        intros T' y' [H|H]; [injection H as <- _; lia|eauto].
    + injection E as <- <-. split; [left; reflexivity|].
      intros T' y' [H|H]; [injection H as <- _; lia|].
      exfalso. eapply first_rejection_none; eauto.
  - destruct (IH T y E) as (Hin & Hmin). split; [right; assumption|].
    intros T' y' [H|H]; [discriminate|eauto].
Qed.

Lemma promise_at_reject (env : Env) (t T : Time) (fn : Action)
      (y : JsValue) :
  promise_at env t fn = PReject T y ->
  exists d, behaviour env t fn = Returns (Reject d y) /\ T = t + d.
Proof.
  unfold promise_at. destruct (behaviour env t fn) as [[d a|d r|]|x];
    cbn [promise_of]; try discriminate.
  intros E; injection E as <- <-. eauto.
Qed.

Lemma Promise_all_fulfilled (env : Env) (t : Time) (l : list Action) :
  (forall fn, In fn l -> fulfils (behaviour env t fn) = true) ->
  first_rejection (map (promise_at env t) l) = None /\
  existsb never_settles (map (promise_at env t) l) = false.
Proof.
  induction l as [|c l IH]; intros H; [split; reflexivity|].
  destruct (IH (fun fn Hin => H fn (or_intror Hin))) as (E1 & E2).
  specialize (H c (or_introl eq_refl)).
  cbn [map first_rejection existsb].
  destruct (behaviour env t c) as [[d a|d r|]|x] eqn:Eb; try discriminate.
  assert (Hc : promise_at env t c = PFulfil (t + d) a)
    by (unfold promise_at; rewrite Eb; reflexivity).
  rewrite Hc, E1, E2. split; reflexivity.
Qed.

(** C5, as the code has it.  [doCleanup] calls the registered functions
    in the order of registration, each once, and a function whose
    promise is rejected later does not keep the others from being
    called; but a function that throws ends the calls and makes
    [doCleanup] throw.  The promise [doCleanup] returns is fulfilled
    when every returned promise is fulfilled, not before the last of
    them; it is rejected as soon as the first of them is rejected, with
    the reason of that one. *)
Theorem doCleanup_calls (env : Env) (s : Store) (t : Time) :
  (none_throws env t (fns s) = true ->
     invoked (log (doCleanup env s t)) = fns s /\
     now (doCleanup env s t) = t /\
     store (doCleanup env s t) = s /\
     exists p,
       settle (doCleanup env s t) = Fulfilled p /\
       ((forall fn, In fn (fns s) -> fulfils (behaviour env t fn) = true) ->
        exists T, p = PFulfil T tt /\
          forall fn d a, In fn (fns s) ->
            behaviour env t fn = Returns (Fulfil d a) -> t + d <= T) /\
       (forall fn d x, In fn (fns s) ->
          behaviour env t fn = Returns (Reject d x) ->
          exists fn' d' y,
            In fn' (fns s) /\
            behaviour env t fn' = Returns (Reject d' y) /\
            d' <= d /\ p = PReject (t + d') y)) /\
  (forall pre fn post x,
     fns s = pre ++ fn :: post ->
     none_throws env t pre = true ->
     behaviour env t fn = Throws x ->
     settle (doCleanup env s t) = Rejected x /\
     invoked (log (doCleanup env s t)) = pre ++ [fn]).
Proof.
  unfold doCleanup. rewrite bind_get. split.
  - intros Hn.
    destruct (map_call_returns env (fns s) s t Hn) as (E1 & E2 & E3 & E4).
    rewrite (bind_fulfilled _ _ _ _ _ E1). rewrite E2, E3.
    cbn [settle now store log ret]. rewrite app_nil_r.
    repeat (split; [assumption || reflexivity|]).
    eexists. split; [reflexivity|]. split.
    + intros Hall.
      destruct (Promise_all_fulfilled env t (fns s) Hall) as (F1 & F2).
      unfold Promise_all. rewrite F1, F2. eexists. split; [reflexivity|].
      intros fn d a Hin Hb. apply list_max_ge.
      apply in_map_iff. exists (promise_at env t fn). split.
      * unfold promise_at. rewrite Hb. reflexivity.
      * apply in_map. assumption.
    + intros fn d x Hin Hb.
      assert (Hp : In (PReject (t + d) x) (map (promise_at env t) (fns s))).
      { apply in_map_iff. exists fn. split; [|assumption].
        unfold promise_at. rewrite Hb. reflexivity. }
      unfold Promise_all.
      destruct (first_rejection (map (promise_at env t) (fns s)))
        as [[T y]|] eqn:Ef.
      * destruct (first_rejection_some _ _ _ Ef) as (Hin' & Hmin).
        apply in_map_iff in Hin'. destruct Hin' as (fn' & Hfn' & Hin').
        apply promise_at_reject in Hfn'. destruct Hfn' as (d' & Hb' & ->).
        specialize (Hmin _ _ Hp).
        exists fn', d', y. repeat split; try assumption. lia.
      * exfalso. eapply first_rejection_none; eauto.
  - intros pre fn post x Hs Hpre Hfn. rewrite Hs.
    destruct (map_call_throws env pre post fn x s t Hpre Hfn) as (E1 & E2).
    rewrite (bind_rejected _ _ _ _ _ E1). cbn [settle log].
    split; [reflexivity|assumption].
Qed.

Lemma doCleanup_calls_witness :
  invoked (log (doCleanup env_quiet store_rejecting 0))
    = fns store_rejecting /\
  settle (doCleanup env_quiet store_throwing 0) = Rejected err_generic.
Proof.
  split.
  - exact (proj1 (proj1 (doCleanup_calls env_quiet store_rejecting 0)
                        eq_refl)).
  - exact (proj1 (proj2 (doCleanup_calls env_quiet store_throwing 0)
                        [] (ActFn (Throws err_generic)) [ActKill]
                        err_generic eq_refl eq_refl eq_refl)).
Defined.

(** C5 does not hold as stated.  With the kill function alone in the
    registry and a [launcher.kill()] that is rejected, the promise of
    [doCleanup] is rejected.  With two registered functions, the first
    returning a promise rejected after one turn and the second one
    fulfilled after five, the promise of [doCleanup] is rejected at time
    1, when the second has not settled; the interrupt branch then exits
    at time 1.  And when the first function throws, the second is not
    called and [doCleanup] throws. *)
Lemma doCleanup_rejects_early :
  settle (doCleanup env_kill_rejects store_kill_only 0)
    = Fulfilled (PReject 1 err_generic) /\
  settle (doCleanup env_quiet store_rejecting 0)
    = Fulfilled (PReject 1 err_generic) /\
  promise_at env_quiet 0 (ActFn (Returns (Fulfil 5 tt))) = PFulfil 5 tt /\
  now (cleanup_and_exit env_quiet store_rejecting 0) = 1 /\
  settle (doCleanup env_quiet store_throwing 0) = Rejected err_generic /\
  invoked (log (doCleanup env_quiet store_throwing 0))
    = [ActFn (Throws err_generic)].
Proof. vm_compute. repeat split. Qed.

(** C2, at a failing input.  Chrome is launched and the first Lighthouse
    run fails: the kill function has been registered, but the program
    exits with 1 without calling it, neither through [doCleanup] nor
    directly.  The other two ways out do call it: [launcher.kill()] once
    on success, the registered function once on an interrupt. *)
Theorem error_exit_skips_cleanup :
  termination (execute env_job_fails store_two) = Exit 5 1 /\
  In (0, EvMutate (MRegister ActKill))
     (trace (execute env_job_fails store_two)) /\
  invoked (trace (execute env_job_fails store_two)) = [] /\
  count is_kill (trace (execute env_job_fails store_two)) = 0 /\
  count is_kill (trace (execute env_quiet store_two)) = 1 /\
  invoked (trace (execute env_interrupt store_two)) = [ActKill].
Proof. vm_compute. repeat split. in_list. Qed.

(** ** The interrupt branch and the exit codes *)

(** What calling the registered functions can add to a log. *)
Lemma sat_registry (P : Event -> Prop) (env : Env) (l : list Action) :
  (forall fn, P (EvInvoke fn)) ->
  P (EvCall OpLauncherKill) ->
  (forall ok, P (EvSettled OpLauncherKill ok)) ->
  sat (fun _ => True) P (fun _ => True) (fun _ => True) (map_call env l).
Proof.
  intros Hi Hc Hs.
  induction l as [|c l IH]; cbn [map_call];
    [apply sat_ret; exact Logic.I|].
  apply sat_bind with (R1 := fun _ => True).
  - unfold call_fn.
    apply sat_bind with (R1 := fun _ => True); [apply sat_emit, Hi|].
    intros _ _. destruct c as [|[b|r]].
    + apply sat_start; assumption.
    + intros s t _. cbn. auto.
    + apply sat_throw.
  - intros p _. apply sat_bind with (R1 := fun _ => True); [exact IH|].
    intros ps _. apply sat_ret. exact Logic.I.
Qed.







(** ** The sequence of Lighthouse runs *)

(** The secondary write is started and left behind. *)
Lemma secondary_write (env : Env) (address : Address) (results : Results)
      (s0 s : Store) (t : Time) :
  let m :=
    (if String.eqb (output (cliFlags s0)) (OutputMode_pretty env)
     then
       start (OpWrite results "html"
                ("./" ++ getFilenamePrefix env address ++ ".report.html"))
             (Printer_write env results "html"
                ("./" ++ getFilenamePrefix env address ++ ".report.html")) ;;
       ret tt
     else ret tt)%task in
  settle (m s t) = Fulfilled tt /\ now (m s t) = t /\ store (m s t) = s /\
  jobs (log (m s t)) = [].
Proof.
  cbn zeta. destruct (String.eqb _ _); [|repeat split].
  unfold bind, start, ret.
  destruct (Printer_write env results "html" _ t); repeat split.
Qed.

(** One step of the sequence, for an address other than the empty
    string: either Lighthouse or the write of its result does not
    succeed, and the sequence ends there with that outcome; or both
    succeed and the sequence goes on with the remaining addresses, no
    earlier than the end of the write. *)
Lemma run_addresses_step (env : Env) (address : Address)
      (rest : list Address) (s : Store) (t : Time) :
  is_truthy address = true ->
  (jobs (log (run_addresses env (address :: rest) s t)) = [address] /\
   (settle (run_addresses env (address :: rest) s t) = Pending \/
    exists d x,
      (lighthouse env address (cliFlags (apply_mutation MShift s)) t
         = Reject d x \/
       exists d1 results,
         lighthouse env address (cliFlags (apply_mutation MShift s)) t
           = Fulfil d1 results /\
         Printer_write env results (output (cliFlags s))
           (output_path (cliFlags s)) (t + d1) = Reject d x) /\
      settle (run_addresses env (address :: rest) s t) = Rejected x)) \/
  (exists d1 d2 results results',
     lighthouse env address (cliFlags (apply_mutation MShift s)) t
       = Fulfil d1 results /\
     Printer_write env results (output (cliFlags s))
       (output_path (cliFlags s)) (t + d1) = Fulfil d2 results' /\
     jobs (log (run_addresses env (address :: rest) s t)) =
       address ::
       jobs (log (run_addresses env rest (apply_mutation MShift s)
                                (t + d1 + d2))) /\
     settle (run_addresses env (address :: rest) s t) =
       settle (run_addresses env rest (apply_mutation MShift s)
                             (t + d1 + d2))).
Proof.
  intros Ht. unfold run_addresses at 1 2 3 4 6. cbn [lighthouseRun].
  rewrite bind_assoc, bind_mutate, Ht. cbn [negb].
  rewrite bind_ret. cbn [resolve]. rewrite bind_get.
  set (s1 := apply_mutation MShift s).
  assert (Ho : output (cliFlags s1) = output (cliFlags s))
    by (destruct s as [[]]; reflexivity).
  assert (Hop : output_path (cliFlags s1) = output_path (cliFlags s))
    by (destruct s as [[]]; reflexivity).
  pose proof (perform_cases (OpLighthouse address)
                (lighthouse env address (cliFlags s1)) s1 t) as Hl.
  destruct (lighthouse env address (cliFlags s1) t) as [d1 results|d x|]
    eqn:El.
  - rewrite (bind_fulfilled _ _ _ _ results) by (rewrite Hl; reflexivity).
    rewrite Hl. cbn [settle now store log]. rewrite Ho, Hop.
    pose proof (perform_cases
                  (OpWrite results (output (cliFlags s))
                           (output_path (cliFlags s)))
                  (Printer_write env results (output (cliFlags s))
                                 (output_path (cliFlags s))) s1 (t + d1))
      as Hw.
    destruct (Printer_write env results (output (cliFlags s))
                (output_path (cliFlags s)) (t + d1)) as [d2 results'|d x|]
      eqn:Ew.
    + right. exists d1, d2, results, results'.
      split; [reflexivity|]. split; [exact Ew|].
      rewrite (bind_fulfilled _ _ _ _ results') by (rewrite Hw; reflexivity).
      rewrite Hw. cbn [settle now store log].
      destruct (secondary_write env address results' s s1 (t + d1 + d2))
        as (E1 & E2 & E3 & E4).
      rewrite (bind_fulfilled _ _ _ _ tt) by exact E1.
      rewrite E2, E3. cbn [settle now store log].
      split; [|reflexivity].
      cbn [app jobs]. rewrite jobs_app, E4. reflexivity.
    + left. rewrite (bind_rejected _ _ _ _ x) by (rewrite Hw; reflexivity).
      rewrite Hw. cbn [settle now store log app jobs].
      split; [reflexivity|]. right. exists d, x.
      split; [|reflexivity]. right. exists d1, results. auto.
    + left. rewrite bind_pending by (rewrite Hw; reflexivity).
      rewrite Hw. cbn [settle now store log app jobs].
      split; [reflexivity|]. left. reflexivity.
  - left. rewrite (bind_rejected _ _ _ _ x) by (rewrite Hl; reflexivity).
    rewrite Hl. cbn [settle now store log app jobs].
    split; [reflexivity|]. right. exists d, x. auto.
  - left. rewrite bind_pending by (rewrite Hl; reflexivity).
    rewrite Hl. cbn [settle now store log app jobs].
    split; [reflexivity|]. left. reflexivity.
Qed.

(** The log of one step that succeeds: the address is taken, Lighthouse
    runs, its result is written, and at the instant that write ends the
    secondary write is started, in pretty mode only, and the sequence
    goes on with the remaining addresses. *)
Lemma run_addresses_log (env : Env) (address : Address)
      (rest : list Address) (s : Store) (t : Time) (d1 d2 : nat)
      (results results' : Results) :
  is_truthy address = true ->
  lighthouse env address (cliFlags (apply_mutation MShift s)) t
    = Fulfil d1 results ->
  Printer_write env results (output (cliFlags s))
    (output_path (cliFlags s)) (t + d1) = Fulfil d2 results' ->
  log (run_addresses env (address :: rest) s t) =
    [(t, EvMutate MShift);
     (t, EvCall (OpLighthouse address));
     (t + d1, EvSettled (OpLighthouse address) true);
     (t + d1, EvCall (OpWrite results (output (cliFlags s))
                              (output_path (cliFlags s))));
     (t + d1 + d2, EvSettled (OpWrite results (output (cliFlags s))
                                      (output_path (cliFlags s))) true)] ++
    (if String.eqb (output (cliFlags s)) (OutputMode_pretty env)
     then secondary_events env address results' (t + d1 + d2)
     else []) ++
    log (run_addresses env rest (apply_mutation MShift s) (t + d1 + d2)).
Proof.
  intros Ht El Ew. unfold run_addresses at 1. cbn [lighthouseRun].
  rewrite bind_assoc, bind_mutate, Ht. cbn [negb].
  rewrite bind_ret. cbn [resolve]. rewrite bind_get.
  set (s1 := apply_mutation MShift s) in *.
  assert (Ho : output (cliFlags s1) = output (cliFlags s))
    by (destruct s as [[]]; reflexivity).
  assert (Hop : output_path (cliFlags s1) = output_path (cliFlags s))
    by (destruct s as [[]]; reflexivity).
  pose proof (perform_cases (OpLighthouse address)
                (lighthouse env address (cliFlags s1)) s1 t) as Hl.
  rewrite El in Hl.
  rewrite (bind_fulfilled _ _ _ _ results) by (rewrite Hl; reflexivity).
  rewrite Hl. cbn [settle now store log]. rewrite Ho, Hop.
  pose proof (perform_cases
                (OpWrite results (output (cliFlags s))
                         (output_path (cliFlags s)))
                (Printer_write env results (output (cliFlags s))
                               (output_path (cliFlags s))) s1 (t + d1))
    as Hw.
  rewrite Ew in Hw.
  rewrite (bind_fulfilled _ _ _ _ results') by (rewrite Hw; reflexivity).
  rewrite Hw. cbn [settle now store log].
  destruct (secondary_write env address results' s s1 (t + d1 + d2))
    as (E1 & E2 & E3 & _).
  rewrite (bind_fulfilled _ _ _ _ tt) by exact E1.
  rewrite E2, E3. cbn [settle now store log app].
  do 5 f_equal. unfold run_addresses. f_equal.
  destruct (String.eqb _ _); [|reflexivity].
  unfold bind, start, ret, secondary_events, report_filename.
  destruct (Printer_write env results' "html" _ (t + d1 + d2));
    reflexivity.
Qed.

Lemma run_addresses_nil (env : Env) (s : Store) (t : Time) :
  run_addresses env [] s t = mkRes (Fulfilled tt) t s [].
Proof. reflexivity. Qed.

(** An empty string ends the sequence as the end of the list does. *)
Lemma run_addresses_falsy (env : Env) (address : Address)
      (rest : list Address) (s : Store) (t : Time) :
  is_truthy address = false ->
  run_addresses env (address :: rest) s t =
  mkRes (Fulfilled tt) t (apply_mutation MShift s) [(t, EvMutate MShift)].
Proof.
  intros Ht. unfold run_addresses. cbn [lighthouseRun].
  rewrite bind_assoc, bind_mutate, Ht. reflexivity.
Qed.

(** Lighthouse is started on the addresses in the order of the list,
    once each, without skipping any before the last one started; and
    when no address is the empty string and the sequence is fulfilled,
    it has been started on all of them. *)
Lemma run_addresses_jobs (env : Env) (addresses : list Address)
      (s : Store) (t : Time) :
  (exists rest,
     addresses = jobs (log (run_addresses env addresses s t)) ++ rest) /\
  (forallb is_truthy addresses = true ->
   (exists a, settle (run_addresses env addresses s t) = Fulfilled a) ->
   jobs (log (run_addresses env addresses s t)) = addresses).
Proof.
  revert s t. induction addresses as [|address rest IH]; intros s t.
  - rewrite run_addresses_nil. split; [exists []|]; reflexivity.
  - destruct (is_truthy address) eqn:Ht.
    + destruct (run_addresses_step env address rest s t Ht)
        as [[Hj Hs]|(d1 & d2 & r1 & r2 & _ & _ & Hj & Hs)].
      * rewrite Hj. split; [exists rest; reflexivity|].
        intros _ [a Ha]. exfalso.
        destruct Hs as [Hs|(d & x & _ & Hs)]; rewrite Hs in Ha;
          discriminate.
      * rewrite Hj, Hs.
        destruct (IH (apply_mutation MShift s) (t + d1 + d2))
          as ([rest' Hpre] & Hall).
        split.
        -- exists rest'. cbn [app]. f_equal. exact Hpre.
        -- cbn [forallb]. rewrite Ht. cbn [andb]. intros Hr Hf.
           f_equal. apply Hall; assumption.
    + rewrite (run_addresses_falsy env address rest s t Ht).
      split; [exists (address :: rest); reflexivity|].
      cbn [forallb]. rewrite Ht. discriminate.
Qed.

(** When the sequence is rejected, the reason is the one Lighthouse or
    the write of its result was rejected with, for the last address
    Lighthouse was started on; it was not started on the addresses after
    that one. *)
Lemma run_addresses_failure (env : Env) (addresses : list Address)
      (s : Store) (t : Time) (x : JsValue) :
  settle (run_addresses env addresses s t) = Rejected x ->
  exists pre address post,
    addresses = pre ++ address :: post /\
    jobs (log (run_addresses env addresses s t)) = pre ++ [address] /\
    exists flags t' d,
      lighthouse env address flags t' = Reject d x \/
      exists results mode path,
        Printer_write env results mode path t' = Reject d x.
Proof.
  revert s t. induction addresses as [|address rest IH]; intros s t.
  - rewrite run_addresses_nil. discriminate.
  - destruct (is_truthy address) eqn:Ht.
    + destruct (run_addresses_step env address rest s t Ht)
        as [[Hj Hs]|(d1 & d2 & r1 & r2 & _ & _ & Hj & Hs)].
      * intros Hx. exists [], address, rest.
        split; [reflexivity|]. split; [exact Hj|].
        destruct Hs as [Hs|(d & y & Hwhy & Hs)];
          rewrite Hs in Hx; [discriminate|].
        injection Hx as <-.
        destruct Hwhy as [Hl|(d1 & results & _ & Hw)].
        -- exists (cliFlags (apply_mutation MShift s)), t, d. left. exact Hl.
        -- exists (cliFlags s), (t + d1), d. right.
           exists results, (output (cliFlags s)),
             (output_path (cliFlags s)). exact Hw.
      * rewrite Hs, Hj. intros Hx.
        destruct (IH _ _ Hx) as (pre & a & post & -> & Hj' & Hwhy).
        exists (address :: pre), a, post.
        split; [reflexivity|]. split; [|exact Hwhy].
        rewrite Hj'. reflexivity.
    + rewrite (run_addresses_falsy env address rest s t Ht). discriminate.
Qed.

(** C3, at a failing input.  The first address is the empty string:
    [lighthouseRun] takes it for the end of the list, so Lighthouse is
    started on no address at all, the second one included, and the run
    ends as if it had succeeded. *)
Theorem empty_address_ends_sequence :
  urls (cliFlags store_empty_first) = [""; "https://example.com"] /\
  jobs (trace (execute env_quiet store_empty_first)) = [] /\
  termination (execute env_quiet store_empty_first) = RunFulfilled 2 /\
  urls (cliFlags (final_store env_quiet store_empty_first))
    = ["https://example.com"].
Proof. vm_compute. repeat split. Qed.

(** C4, at a failing input.  In pretty mode the html copy of the first
    report fails to be written: Lighthouse is started on the second
    address all the same, and the run is fulfilled, the failure being
    lost. *)
Theorem html_write_failure_is_lost :
  In (14, EvSettled (OpWrite "report of https://example.com" "html"
                             "./https://example.com.report.html") false)
     (trace (execute env_html_fails store_two)) /\
  jobs (trace (execute env_html_fails store_two)) = two_addresses /\
  termination (execute env_html_fails store_two) = RunFulfilled 26.
Proof. vm_compute. repeat split. in_list. Qed.

(** C8, at a failing input.  In pretty mode the html copy of the first
    report is started at time 13 and written at time 18; Lighthouse is
    started on the second address at time 13, before that.  In json
    mode no html copy is written. *)
Theorem next_address_before_html_copy :
  In (13, EvCall (OpWrite "report of https://example.com" "html"
                          "./https://example.com.report.html"))
     (trace (execute env_html_slow store_two)) /\
  In (18, EvSettled (OpWrite "report of https://example.com" "html"
                             "./https://example.com.report.html") true)
     (trace (execute env_html_slow store_two)) /\
  In (13, EvCall (OpLighthouse "https://example.org"))
     (trace (execute env_html_slow store_two)) /\
  13 < 18 /\
  forall results path,
    ~ In (EvCall (OpWrite results "html" path))
         (map snd (trace (execute env_html_slow store_json))).
Proof.
  vm_compute. repeat split; try in_list.
  intros results path H.
  repeat (destruct H as [H|H]; [discriminate|]). exact H.
Qed.

End CliFacts.

(* ================================================================== *)
(** * Further properties of the command-line runner *)
(* ================================================================== *)

Module CliProperties.

Import Cli.
Import CliFacts.
Local Open Scope task_scope.
Local Arguments String.append : simpl never.

(** ** More generic facts about tasks *)

Lemma bind_exited {A B} (m : Task A) (f : A -> Task B) (s : Store)
      (t : Time) (c : Z) :
  settle (m s t) = Exited c ->
  bind m f s t = mkRes (Exited c) (now (m s t)) (store (m s t))
                       (log (m s t)).
Proof.
  intros E. unfold bind. destruct (m s t) as [st t1 s1 l1].
  cbn [settle now store log] in *. subst st. reflexivity.
Qed.

Lemma perform_store {A} (o : Op) (b : Time -> Beh A) (s : Store)
      (t : Time) :
  store (perform o b s t) = s.
Proof.
  pose proof (perform_cases o b s t) as H.
  destruct (b t); rewrite H; reflexivity.
Qed.

Lemma res_eta {A} (r : Res A) :
  r = mkRes (settle r) (now r) (store r) (log r).
Proof. destruct r; reflexivity. Qed.

(** ** The sequence of Lighthouse runs, step by step *)

(** The first step of the sequence for an address other than the empty
    string, in full. *)
Lemma run_addresses_cons (env : Env) (address : Address)
      (rest : list Address) (s : Store) (t : Time) :
  is_truthy address = true ->
  run_addresses env (address :: rest) s t =
  match lighthouse env address (cliFlags (apply_mutation MShift s)) t with
  | Hang =>
      mkRes Pending t (apply_mutation MShift s)
            [(t, EvMutate MShift); (t, EvCall (OpLighthouse address))]
  | Reject d x =>
      mkRes (Rejected x) (t + d) (apply_mutation MShift s)
            [(t, EvMutate MShift); (t, EvCall (OpLighthouse address));
             (t + d, EvSettled (OpLighthouse address) false)]
  | Fulfil d1 results =>
      match Printer_write env results (output (cliFlags s))
              (output_path (cliFlags s)) (t + d1) with
      | Hang =>
          mkRes Pending (t + d1) (apply_mutation MShift s)
                [(t, EvMutate MShift); (t, EvCall (OpLighthouse address));
                 (t + d1, EvSettled (OpLighthouse address) true);
                 (t + d1, EvCall (OpWrite results (output (cliFlags s))
                                          (output_path (cliFlags s))))]
      | Reject d x =>
          mkRes (Rejected x) (t + d1 + d) (apply_mutation MShift s)
                [(t, EvMutate MShift); (t, EvCall (OpLighthouse address));
                 (t + d1, EvSettled (OpLighthouse address) true);
                 (t + d1, EvCall (OpWrite results (output (cliFlags s))
                                          (output_path (cliFlags s))));
                 (t + d1 + d,
                  EvSettled (OpWrite results (output (cliFlags s))
                                     (output_path (cliFlags s))) false)]
      | Fulfil d2 results' =>
          mkRes
            (settle (run_addresses env rest (apply_mutation MShift s)
                                   (t + d1 + d2)))
            (now (run_addresses env rest (apply_mutation MShift s)
                                (t + d1 + d2)))
            (store (run_addresses env rest (apply_mutation MShift s)
                                  (t + d1 + d2)))
            ([(t, EvMutate MShift); (t, EvCall (OpLighthouse address));
              (t + d1, EvSettled (OpLighthouse address) true);
              (t + d1, EvCall (OpWrite results (output (cliFlags s))
                                       (output_path (cliFlags s))));
              (t + d1 + d2,
               EvSettled (OpWrite results (output (cliFlags s))
                                  (output_path (cliFlags s))) true)] ++
             secondary_log env s address results' (t + d1 + d2) ++
             log (run_addresses env rest (apply_mutation MShift s)
                                (t + d1 + d2)))
      end
  end.
Proof.
  intros Ht. unfold run_addresses at 1. cbn [lighthouseRun].
  rewrite bind_assoc, bind_mutate, Ht. cbn [negb].
  rewrite bind_ret. cbn [resolve]. rewrite bind_get.
  set (s1 := apply_mutation MShift s) in *.
  assert (Ho : output (cliFlags s1) = output (cliFlags s))
    by (destruct s as [[]]; reflexivity).
  assert (Hop : output_path (cliFlags s1) = output_path (cliFlags s))
    by (destruct s as [[]]; reflexivity).
  pose proof (perform_cases (OpLighthouse address)
                (lighthouse env address (cliFlags s1)) s1 t) as Hl.
  destruct (lighthouse env address (cliFlags s1) t) as [d1 results|d x|]
    eqn:El.
  - rewrite (bind_fulfilled _ _ _ _ results) by (rewrite Hl; reflexivity).
    rewrite Hl. cbn [settle now store log]. rewrite Ho, Hop.
    pose proof (perform_cases
                  (OpWrite results (output (cliFlags s))
                           (output_path (cliFlags s)))
                  (Printer_write env results (output (cliFlags s))
                                 (output_path (cliFlags s))) s1 (t + d1))
      as Hw.
    destruct (Printer_write env results (output (cliFlags s))
                (output_path (cliFlags s)) (t + d1)) as [d2 results'|d x|]
      eqn:Ew.
    + rewrite (bind_fulfilled _ _ _ _ results') by (rewrite Hw; reflexivity).
      rewrite Hw. cbn [settle now store log].
      destruct (secondary_write env address results' s s1 (t + d1 + d2))
        as (E1 & E2 & E3 & _).
      rewrite (bind_fulfilled _ _ _ _ tt) by exact E1.
      rewrite E2, E3. cbn [settle now store log app].
      unfold run_addresses.
      do 6 f_equal. unfold secondary_log.
      destruct (String.eqb _ _); [|reflexivity].
      unfold bind, start, ret, secondary_events, report_filename.
      destruct (Printer_write env results' "html" _ (t + d1 + d2));
        reflexivity.
    + rewrite (bind_rejected _ _ _ _ x) by (rewrite Hw; reflexivity).
      rewrite Hw. reflexivity.
    + rewrite bind_pending by (rewrite Hw; reflexivity).
      rewrite Hw. reflexivity.
  - rewrite (bind_rejected _ _ _ _ x) by (rewrite Hl; reflexivity).
    rewrite Hl. reflexivity.
  - rewrite bind_pending by (rewrite Hl; reflexivity).
    rewrite Hl. reflexivity.
Qed.

Lemma count_cons (f : Event -> bool) (e : Time * Event) (l : Log) :
  count f (e :: l) = (if f (snd e) then 1 else 0) + count f l.
Proof. unfold count. cbn [filter]. destruct (f (snd e)); reflexivity. Qed.

Lemma secondary_log_events (env : Env) (s : Store) (address : Address)
      (results : Results) (t : Time) :
  Forall (fun e => t <= fst e /\ made_by_lighthouseRun (snd e) = true)
         (secondary_log env s address results t) /\
  count is_shift (secondary_log env s address results t) = 0 /\
  jobs (secondary_log env s address results t) = [] /\
  forall t0 l,
    one_at_a_time (Some t0) (secondary_log env s address results t ++ l)
    = one_at_a_time (Some t0) l.
Proof.
  unfold secondary_log, secondary_events.
  destruct (String.eqb _ _);
    [destruct (Printer_write env results "html" _ t)|];
    (split; [repeat constructor; cbn; lia|]); repeat split.
Qed.

Lemma set_urls_shift (s : Store) (k : nat) :
  mkStore (set_urls (skipn k (urls (cliFlags (apply_mutation MShift s))))
                    (cliFlags (apply_mutation MShift s)))
          (fns (apply_mutation MShift s)) =
  mkStore (set_urls (skipn (S k) (urls (cliFlags s))) (cliFlags s)) (fns s).
Proof.
  destruct s as [[pt sc sk o op us] fs].
  cbn [apply_mutation cliFlags fns set_urls urls port selectChrome
       skipAutolaunch output output_path].
  rewrite skipn_tl. reflexivity.
Qed.

(** What the sequence does to the store and the log, whatever the
    collaborators answer. *)
Lemma run_addresses_inv (env : Env) (addresses : list Address)
      (s : Store) (t : Time) :
  Forall (fun e => t <= fst e /\ made_by_lighthouseRun (snd e) = true)
         (log (run_addresses env addresses s t)) /\
  (forall c, settle (run_addresses env addresses s t) <> Exited c) /\
  store (run_addresses env addresses s t) =
    mkStore (set_urls (skipn (count is_shift
                                (log (run_addresses env addresses s t)))
                             (urls (cliFlags s)))
                      (cliFlags s))
            (fns s) /\
  length (jobs (log (run_addresses env addresses s t)))
    <= count is_shift (log (run_addresses env addresses s t)) /\
  count is_shift (log (run_addresses env addresses s t))
    <= S (length (jobs (log (run_addresses env addresses s t)))) /\
  count is_shift (log (run_addresses env addresses s t))
    <= length addresses /\
  t <= now (run_addresses env addresses s t).
Proof.
  revert s t. induction addresses as [|address rest IH]; intros s t.
  - rewrite run_addresses_nil. cbn.
    destruct s as [[pt sc sk o op us] fs].
    repeat split; try constructor; try discriminate; auto.
  - destruct (is_truthy address) eqn:Ht.
    + rewrite (run_addresses_cons env address rest s t Ht).
      destruct (lighthouse env address
                  (cliFlags (apply_mutation MShift s)) t)
        as [d1 results|d x|];
        [destruct (Printer_write env results (output (cliFlags s))
                     (output_path (cliFlags s)) (t + d1))
           as [d2 results'|d x|]|..];
        cbn [settle now store log].
      * destruct (IH (apply_mutation MShift s) (t + d1 + d2))
          as (H1 & H2 & H3 & H4 & H5 & H6 & H7).
        destruct (secondary_log_events env s address results' (t + d1 + d2))
          as (S1 & S2 & S3 & _).
        rewrite !count_app, !jobs_app, S2, S3, H3.
        cbn [count filter snd is_shift length jobs app Nat.add].
        fold (count is_shift
                (log (run_addresses env rest (apply_mutation MShift s)
                                    (t + d1 + d2)))).
        repeat split; try assumption; try (cbn [length]; lia).
        -- repeat (constructor; [cbn; split; [lia|reflexivity]|]).
           apply Forall_app. split.
           ++ eapply Forall_impl; [|exact S1]. cbn. intros e [? ?].
              split; [lia|assumption].
           ++ eapply Forall_impl; [|exact H1]. cbn. intros e [? ?].
              split; [lia|assumption].
        -- apply set_urls_shift.
      * cbn. repeat split; try discriminate; try lia.
        repeat (constructor; [cbn; split; [lia|reflexivity]|]).
        constructor.
      * cbn. repeat split; try discriminate; try lia.
        repeat (constructor; [cbn; split; [lia|reflexivity]|]).
        constructor.
      * cbn. repeat split; try discriminate; try lia.
        repeat (constructor; [cbn; split; [lia|reflexivity]|]).
        constructor.
      * cbn. repeat split; try discriminate; try lia.
        repeat (constructor; [cbn; split; [lia|reflexivity]|]).
        constructor.
    + rewrite (run_addresses_falsy env address rest s t Ht). cbn.
      repeat split; try discriminate; try lia.
      repeat constructor.
Qed.

Lemma count_disjoint (f g : Event -> bool) (l : Log) :
  (forall e, g e = true -> f e = false) ->
  Forall (fun e => g (snd e) = true) l -> count f l = 0.
Proof.
  intros Hfg Hl. apply count_none.
  eapply Forall_impl; [|exact Hl]. cbn. intros e He. apply Hfg, He.
Qed.

Lemma run_addresses_made (env : Env) (addresses : list Address)
      (s : Store) (t : Time) :
  Forall (fun e => made_by_lighthouseRun (snd e) = true)
         (log (run_addresses env addresses s t)).
Proof.
  destruct (run_addresses_inv env addresses s t) as (H & _).
  eapply Forall_impl; [|exact H]. cbn. intros e [_ He]. exact He.
Qed.

Ltac other_kind :=
  let e := fresh "e" in
  intros e; destruct e; cbn; intros; try congruence;
  match goal with
  | m : Mutation |- _ => destruct m
  | o : Op |- _ => destruct o
  end; cbn in *; congruence.

(** X1.  Whatever Lighthouse and the printer answer, [lighthouseRun]
    and the chain it returns do nothing but take addresses off the list
    and call Lighthouse and the printer: they never end the process,
    never touch Chrome, the cleanup registry or the port.  The list of
    addresses loses one entry for each call that found one: as many as
    Lighthouse runs were started, or one more. *)
Theorem lighthouseRun_effects (env : Env) (addresses : list Address)
        (s : Store) (t : Time) :
  Forall (fun e => t <= fst e /\ made_by_lighthouseRun (snd e) = true)
         (log (run_addresses env addresses s t)) /\
  count is_exit (log (run_addresses env addresses s t)) = 0 /\
  count touches_chrome (log (run_addresses env addresses s t)) = 0 /\
  count is_set_port (log (run_addresses env addresses s t)) = 0 /\
  (forall c, settle (run_addresses env addresses s t) <> Exited c) /\
  fns (store (run_addresses env addresses s t)) = fns s /\
  set_urls (urls (cliFlags s))
           (cliFlags (store (run_addresses env addresses s t)))
    = cliFlags s /\
  urls (cliFlags (store (run_addresses env addresses s t))) =
    skipn (count is_shift (log (run_addresses env addresses s t)))
          (urls (cliFlags s)) /\
  length (jobs (log (run_addresses env addresses s t)))
    <= count is_shift (log (run_addresses env addresses s t)) /\
  count is_shift (log (run_addresses env addresses s t))
    <= S (length (jobs (log (run_addresses env addresses s t)))).
Proof.
  destruct (run_addresses_inv env addresses s t)
    as (H1 & H2 & H3 & H4 & H5 & _).
  pose proof (run_addresses_made env addresses s t) as Hm.
  split; [exact H1|].
  split; [apply count_disjoint with (g := made_by_lighthouseRun);
            [other_kind|exact Hm]|].
  split; [apply count_disjoint with (g := made_by_lighthouseRun);
            [other_kind|exact Hm]|].
  split; [apply count_disjoint with (g := made_by_lighthouseRun);
            [other_kind|exact Hm]|].
  split; [exact H2|].
  rewrite H3. destruct s as [[pt sc sk o op us] fs]. cbn.
  repeat split; assumption.
Qed.

(** X2.  The Lighthouse runs are made one at a time, and the result of
    each is written before the next one: reading the log of the sequence
    from an instant at which nothing is under way, every Lighthouse run is
    started no earlier than the instant the write of the result of the
    run before it, to the configured output, has settled. *)
Theorem lighthouse_runs_one_at_a_time (env : Env)
        (addresses : list Address) (s : Store) (t t0 : Time) :
  t0 <= t ->
  one_at_a_time (Some t0) (log (run_addresses env addresses s t)) = true.
Proof.
  revert s t t0. induction addresses as [|address rest IH]; intros s t t0 Hle.
  - reflexivity.
  - destruct (is_truthy address) eqn:Ht.
    + rewrite (run_addresses_cons env address rest s t Ht).
      apply Nat.leb_le in Hle.
      destruct (lighthouse env address
                  (cliFlags (apply_mutation MShift s)) t)
        as [d1 results|d x|];
        [destruct (Printer_write env results (output (cliFlags s))
                     (output_path (cliFlags s)) (t + d1))
           as [d2 results'|d x|]|..];
        cbn [settle now store log one_at_a_time app]; rewrite Hle;
        try reflexivity.
      destruct (secondary_log_events env s address results' (t + d1 + d2))
        as (_ & _ & _ & S4).
      cbn [andb]. rewrite S4. apply IH. lia.
    + rewrite (run_addresses_falsy env address rest s t Ht). reflexivity.
Qed.

Lemma lighthouse_runs_one_at_a_time_witness :
  one_at_a_time (Some 0)
    (log (run_addresses env_quiet two_addresses store_two 0)) = true.
Proof.
  exact (lighthouse_runs_one_at_a_time env_quiet two_addresses store_two
           0 0 (le_n 0)).
Defined.

Lemma run_addresses_prefix (env : Env) (addresses : list Address)
      (s : Store) (t : Time) :
  (exists rest,
     truthy_prefix addresses =
     jobs (log (run_addresses env addresses s t)) ++ rest) /\
  (forall a, settle (run_addresses env addresses s t) = Fulfilled a ->
     jobs (log (run_addresses env addresses s t))
       = truthy_prefix addresses /\
     count is_shift (log (run_addresses env addresses s t))
       = Nat.min (length addresses)
                 (S (length (truthy_prefix addresses)))).
Proof.
  revert s t. induction addresses as [|address rest IH]; intros s t.
  - rewrite run_addresses_nil. split; [exists []; reflexivity|].
    intros _ _. split; reflexivity.
  - cbn [truthy_prefix]. destruct (is_truthy address) eqn:Ht.
    + rewrite (run_addresses_cons env address rest s t Ht).
      destruct (lighthouse env address
                  (cliFlags (apply_mutation MShift s)) t)
        as [d1 results|d x|];
        [destruct (Printer_write env results (output (cliFlags s))
                     (output_path (cliFlags s)) (t + d1))
           as [d2 results'|d x|]|..];
        cbn [settle now store log];
        try (split; [exists (truthy_prefix rest); reflexivity
                    |intros a Ha; discriminate]).
      destruct (IH (apply_mutation MShift s) (t + d1 + d2))
        as ([rest' Hpre] & Hall).
      destruct (secondary_log_events env s address results' (t + d1 + d2))
        as (_ & S2 & S3 & _).
      rewrite !count_app, !jobs_app, S2, S3.
      cbn [jobs app count filter snd is_shift length Nat.add].
      fold (count is_shift
              (log (run_addresses env rest (apply_mutation MShift s)
                                  (t + d1 + d2)))).
      split.
      * exists rest'. cbn [app]. f_equal. exact Hpre.
      * intros a Ha. destruct (Hall a Ha) as (E1 & E2).
        rewrite E1, E2. split; [reflexivity|]. cbn [length]. lia.
    + rewrite (run_addresses_falsy env address rest s t Ht).
      split; [exists []; reflexivity|]. intros _ _.
      split; [reflexivity|]. cbn. rewrite Nat.min_0_r. reflexivity.
Qed.

(** X3.  Lighthouse is started on the addresses in the order of the
    list, each once and none skipped, as far as the sequence gets, and
    never on an address that comes after an empty string.  When the
    sequence is fulfilled it has been started on every address before the
    first empty string, and one address has been taken off the list for
    each of them, and one more for the empty string if there is one. *)
Theorem lighthouse_runs_in_order (env : Env) (addresses : list Address)
        (s : Store) (t : Time) :
  (exists rest,
     truthy_prefix addresses =
     jobs (log (run_addresses env addresses s t)) ++ rest) /\
  (forall a, settle (run_addresses env addresses s t) = Fulfilled a ->
     jobs (log (run_addresses env addresses s t))
       = truthy_prefix addresses /\
     count is_shift (log (run_addresses env addresses s t))
       = Nat.min (length addresses)
                 (S (length (truthy_prefix addresses)))).
Proof. apply run_addresses_prefix. Qed.

Lemma lighthouse_runs_in_order_witness :
  jobs (log (run_addresses env_quiet two_addresses store_two 0))
    = two_addresses /\
  count is_shift (log (run_addresses env_quiet two_addresses store_two 0))
    = 2.
Proof.
  exact (proj2 (lighthouse_runs_in_order env_quiet two_addresses
                  store_two 0) tt eq_refl).
Defined.

Lemma shift_output (s : Store) :
  output (cliFlags (apply_mutation MShift s)) = output (cliFlags s) /\
  output_path (cliFlags (apply_mutation MShift s))
    = output_path (cliFlags s).
Proof. destruct s as [[]]; split; reflexivity. Qed.

(** X4.  When the sequence is rejected, Lighthouse has been started on
    the addresses up to some address and on none after it, and the
    reason is, unchanged, the one Lighthouse was rejected with for that
    address, or the one the write of its result to the configured output
    was rejected with; the sequence is rejected at the instant of that
    rejection. *)
Theorem failed_run_ends_sequence (env : Env) (addresses : list Address)
        (s : Store) (t : Time) (x : JsValue) :
  settle (run_addresses env addresses s t) = Rejected x ->
  exists pre address post,
    addresses = pre ++ address :: post /\
    jobs (log (run_addresses env addresses s t)) = pre ++ [address] /\
    ((exists flags t' d,
        lighthouse env address flags t' = Reject d x /\
        t' + d = now (run_addresses env addresses s t) /\
        In (t' + d, EvSettled (OpLighthouse address) false)
           (log (run_addresses env addresses s t))) \/
     (exists results t' d,
        Printer_write env results (output (cliFlags s))
                      (output_path (cliFlags s)) t' = Reject d x /\
        t' + d = now (run_addresses env addresses s t) /\
        In (t' + d,
            EvSettled (OpWrite results (output (cliFlags s))
                               (output_path (cliFlags s))) false)
           (log (run_addresses env addresses s t)))).
Proof.
  revert s t. induction addresses as [|address rest IH]; intros s t.
  - rewrite run_addresses_nil. discriminate.
  - destruct (is_truthy address) eqn:Ht.
    + rewrite (run_addresses_cons env address rest s t Ht).
      destruct (lighthouse env address
                  (cliFlags (apply_mutation MShift s)) t)
        as [d1 results|d y|] eqn:El;
        [destruct (Printer_write env results (output (cliFlags s))
                     (output_path (cliFlags s)) (t + d1))
           as [d2 results'|d y|] eqn:Ew|..];
        cbn [settle now store log]; try discriminate.
      * intros Hx.
        destruct (IH _ _ Hx) as (pre & a & post & -> & Hj & Hwhy).
        destruct (shift_output s) as (Ho & Hop).
        rewrite Ho, Hop in Hwhy.
        destruct (secondary_log_events env s address results' (t + d1 + d2))
          as (_ & _ & S3 & _).
        exists (address :: pre), a, post.
        split; [reflexivity|]. split.
        -- rewrite !jobs_app, S3, Hj. reflexivity.
        -- destruct Hwhy as [(fl & t' & d & H1 & H2 & H3)
                            |(rs & t' & d & H1 & H2 & H3)].
           ++ left. exists fl, t', d. repeat split; try assumption.
              apply in_or_app. right. apply in_or_app. right. exact H3.
           ++ right. exists rs, t', d. repeat split; try assumption.
              apply in_or_app. right. apply in_or_app. right. exact H3.
      * intros Hx. injection Hx as ->.
        exists [], address, rest. split; [reflexivity|].
        split; [reflexivity|]. right. exists results, (t + d1), d.
        repeat split; [exact Ew|]. cbn. auto 10.
      * intros Hx. injection Hx as ->.
        exists [], address, rest. split; [reflexivity|].
        split; [reflexivity|]. left.
        exists (cliFlags (apply_mutation MShift s)), t, d.
        repeat split; [exact El|]. cbn. auto 10.
    + rewrite (run_addresses_falsy env address rest s t Ht). discriminate.
Qed.

Lemma failed_run_ends_sequence_witness :
  exists pre address post,
    two_addresses = pre ++ address :: post /\
    jobs (log (run_addresses env_job_fails two_addresses store_two 0))
      = pre ++ [address] /\
    ((exists flags t' d,
        lighthouse env_job_fails address flags t' = Reject d err_generic /\
        t' + d = now (run_addresses env_job_fails two_addresses store_two 0) /\
        In (t' + d, EvSettled (OpLighthouse address) false)
           (log (run_addresses env_job_fails two_addresses store_two 0))) \/
     (exists results t' d,
        Printer_write env_job_fails results (output (cliFlags store_two))
                      (output_path (cliFlags store_two)) t'
          = Reject d err_generic /\
        t' + d = now (run_addresses env_job_fails two_addresses store_two 0) /\
        In (t' + d,
            EvSettled (OpWrite results (output (cliFlags store_two))
                               (output_path (cliFlags store_two))) false)
           (log (run_addresses env_job_fails two_addresses store_two 0)))).
Proof.
  exact (failed_run_ends_sequence env_job_fails two_addresses store_two 0
           err_generic eq_refl).
Defined.

(** ** Launching Chrome *)

Lemma debugger_ready_or_run_cases (env : Env) (s : Store) (t : Time) :
  debugger_ready_or_run env s t =
  match isDebuggerReady env t with
  | Fulfil d a =>
      mkRes (Fulfilled a) (t + d) s
            [(t, EvCall OpIsDebuggerReady);
             (t + d, EvSettled OpIsDebuggerReady true)]
  | Reject d x =>
      match launcher_run env (t + d) with
      | Fulfil d' a =>
          mkRes (Fulfilled a) (t + d + d') s
                [(t, EvCall OpIsDebuggerReady);
                 (t + d, EvSettled OpIsDebuggerReady false);
                 (t + d, EvLogLog "Lighthouse CLI" "Launching Chrome...");
                 (t + d, EvCall OpLauncherRun);
                 (t + d + d', EvSettled OpLauncherRun true)]
      | Reject d' y =>
          mkRes (Rejected y) (t + d + d') s
                [(t, EvCall OpIsDebuggerReady);
                 (t + d, EvSettled OpIsDebuggerReady false);
                 (t + d, EvLogLog "Lighthouse CLI" "Launching Chrome...");
                 (t + d, EvCall OpLauncherRun);
                 (t + d + d', EvSettled OpLauncherRun false)]
      | Hang =>
          mkRes Pending (t + d) s
                [(t, EvCall OpIsDebuggerReady);
                 (t + d, EvSettled OpIsDebuggerReady false);
                 (t + d, EvLogLog "Lighthouse CLI" "Launching Chrome...");
                 (t + d, EvCall OpLauncherRun)]
      end
  | Hang => mkRes Pending t s [(t, EvCall OpIsDebuggerReady)]
  end.
Proof.
  unfold debugger_ready_or_run.
  pose proof (perform_cases OpIsDebuggerReady (isDebuggerReady env) s t)
    as Hr.
  destruct (isDebuggerReady env t) as [d a|d x|].
  - rewrite catch_not_rejected by (rewrite Hr; discriminate). exact Hr.
  - rewrite (catch_rejected _ _ _ _ x) by (rewrite Hr; reflexivity).
    rewrite Hr. cbn [settle now store log]. unfold log_log.
    rewrite bind_emit.
    pose proof (perform_cases OpLauncherRun (launcher_run env) s (t + d))
      as Hl.
    destruct (launcher_run env (t + d)) as [d' a|d' y|];
      rewrite Hl; reflexivity.
  - rewrite catch_not_rejected by (rewrite Hr; discriminate). exact Hr.
Qed.

(** The three links of the chain [launchChromeAndRun] returns. *)
Lemma launcher_chain_links (env : Env) (s : Store) (t : Time) :
  launcher_chain env s t =
  match settle (debugger_ready_or_run env s t) with
  | Fulfilled _ =>
      match settle (run_addresses env (urls (cliFlags s)) s
                      (now (debugger_ready_or_run env s t))) with
      | Fulfilled _ =>
          mkRes
            (settle (perform OpLauncherKill (launcher_kill env)
               (store (run_addresses env (urls (cliFlags s)) s
                         (now (debugger_ready_or_run env s t))))
               (now (run_addresses env (urls (cliFlags s)) s
                       (now (debugger_ready_or_run env s t))))))
            (now (perform OpLauncherKill (launcher_kill env)
               (store (run_addresses env (urls (cliFlags s)) s
                         (now (debugger_ready_or_run env s t))))
               (now (run_addresses env (urls (cliFlags s)) s
                       (now (debugger_ready_or_run env s t))))))
            (store (run_addresses env (urls (cliFlags s)) s
                      (now (debugger_ready_or_run env s t))))
            (log (debugger_ready_or_run env s t) ++
             log (run_addresses env (urls (cliFlags s)) s
                    (now (debugger_ready_or_run env s t))) ++
             log (perform OpLauncherKill (launcher_kill env)
               (store (run_addresses env (urls (cliFlags s)) s
                         (now (debugger_ready_or_run env s t))))
               (now (run_addresses env (urls (cliFlags s)) s
                       (now (debugger_ready_or_run env s t))))))
      | _ =>
          mkRes
            (settle (run_addresses env (urls (cliFlags s)) s
                       (now (debugger_ready_or_run env s t))))
            (now (run_addresses env (urls (cliFlags s)) s
                    (now (debugger_ready_or_run env s t))))
            (store (run_addresses env (urls (cliFlags s)) s
                      (now (debugger_ready_or_run env s t))))
            (log (debugger_ready_or_run env s t) ++
             log (run_addresses env (urls (cliFlags s)) s
                    (now (debugger_ready_or_run env s t))))
      end
  | _ => debugger_ready_or_run env s t
  end.
Proof.
  unfold launcher_chain. fold (debugger_ready_or_run env).
  assert (Hs : store (debugger_ready_or_run env s t) = s).
  { rewrite debugger_ready_or_run_cases.
    destruct (isDebuggerReady env t); [reflexivity| |reflexivity].
    destruct (launcher_run env _); reflexivity. }
  destruct (settle (debugger_ready_or_run env s t)) as [a|x| |c] eqn:E1.
  - rewrite (bind_fulfilled _ _ _ _ a E1). rewrite Hs.
    set (t1 := now (debugger_ready_or_run env s t)).
    assert (E : (s0 <- get;; run_addresses env (urls (cliFlags s0))) s t1
                = run_addresses env (urls (cliFlags s)) s t1).
    { rewrite bind_get. reflexivity. }
    destruct (settle (run_addresses env (urls (cliFlags s)) s t1))
      as [b|x| |c] eqn:E2.
    + rewrite (bind_fulfilled _ _ _ _ b) by (rewrite E; exact E2).
      rewrite E. cbn [settle now store log].
      f_equal. apply perform_store.
    + rewrite (bind_rejected _ _ _ _ x) by (rewrite E; exact E2).
      rewrite E. reflexivity.
    + rewrite bind_pending by (rewrite E; exact E2).
      rewrite E. reflexivity.
    + rewrite (bind_exited _ _ _ _ c) by (rewrite E; exact E2).
      rewrite E. reflexivity.
  - rewrite (bind_rejected _ _ _ _ x E1). rewrite <- E1. symmetry.
    apply res_eta.
  - rewrite (bind_pending _ _ _ _ E1). rewrite <- E1. symmetry.
    apply res_eta.
  - rewrite (bind_exited _ _ _ _ c E1). rewrite <- E1. symmetry.
    apply res_eta.
Qed.

Ltac port_cases env s t :=
  let E := fresh "Eport" in
  let El := fresh "Elisten" in
  let d := fresh "d0" in
  let p := fresh "p0" in
  let err := fresh "err0" in
  destruct (Z.eq_dec (port (cliFlags s)) 0) as [E|E];
  [destruct (listen env t) as [d p|d err] eqn:El;
   [rewrite (initPort_generated env s t d p E El) in *
   |rewrite (initPort_refused env s t d err E El) in *]
  |rewrite (initPort_supplied env s t E) in *].

(** [launchChromeAndRun]: the port, then the launcher and the
    registration of its kill function, then the chain. *)
Lemma launchChromeAndRun_links (env : Env) (s : Store) (t : Time) :
  launchChromeAndRun env s t =
  match settle (initPort env s t) with
  | Fulfilled _ =>
      mkRes
        (settle (launcher_chain env
                   (apply_mutation (MRegister ActKill)
                      (store (initPort env s t)))
                   (now (initPort env s t))))
        (now (launcher_chain env
                (apply_mutation (MRegister ActKill)
                   (store (initPort env s t)))
                (now (initPort env s t))))
        (store (launcher_chain env
                  (apply_mutation (MRegister ActKill)
                     (store (initPort env s t)))
                  (now (initPort env s t))))
        (log (initPort env s t) ++
         [(now (initPort env s t),
           EvNewLauncher (port (cliFlags (store (initPort env s t))))
                         (negb (selectChrome (cliFlags s))));
          (now (initPort env s t), EvMutate (MRegister ActKill))] ++
         log (launcher_chain env
                (apply_mutation (MRegister ActKill)
                   (store (initPort env s t)))
                (now (initPort env s t))))
  | _ => initPort env s t
  end.
Proof.
  unfold launchChromeAndRun.
  destruct (initPort_frame env s t) as (_ & Hfr & _).
  assert (Hsc : selectChrome (cliFlags (store (initPort env s t)))
                = selectChrome (cliFlags s))
    by (rewrite <- Hfr; reflexivity).
  destruct (settle (initPort env s t)) as [[]|x| |c] eqn:E1.
  - rewrite (bind_fulfilled _ _ _ _ tt E1).
    rewrite bind_get, bind_emit. unfold register. rewrite bind_mutate.
    cbn [settle now store log]. rewrite Hsc. reflexivity.
  - rewrite (bind_rejected _ _ _ _ x E1). rewrite <- E1. symmetry.
    apply res_eta.
  - rewrite (bind_pending _ _ _ _ E1). rewrite <- E1. symmetry.
    apply res_eta.
  - rewrite (bind_exited _ _ _ _ c E1). rewrite <- E1. symmetry.
    apply res_eta.
Qed.

Lemma initPort_made (env : Env) (s : Store) (t : Time) :
  Forall (fun e => t <= fst e /\
                   made_by_launchChromeAndRun (snd e) = true /\
                   touches_chrome (snd e) = false /\
                   made_by_lighthouseRun (snd e) = false)
         (log (initPort env s t)) /\
  t <= now (initPort env s t) /\
  (forall a, settle (initPort env s t) = Fulfilled a \/
             settle (initPort env s t) = Pending).
Proof.
  port_cases env s t; cbn [settle now log];
    (split; [repeat (constructor; [cbn; repeat split; lia|]); constructor|]);
    (split; [lia|]); intros []; auto.
Qed.

Lemma debugger_ready_or_run_made (env : Env) (s : Store) (t : Time) :
  Forall (fun e => t <= fst e /\
                   made_by_launchChromeAndRun (snd e) = true /\
                   is_kill (snd e) = false /\
                   made_by_lighthouseRun (snd e) = false /\
                   is_register (snd e) = false /\
                   is_new_launcher (snd e) = false)
         (log (debugger_ready_or_run env s t)) /\
  t <= now (debugger_ready_or_run env s t) /\
  store (debugger_ready_or_run env s t) = s /\
  (forall c, settle (debugger_ready_or_run env s t) <> Exited c).
Proof.
  rewrite debugger_ready_or_run_cases.
  destruct (isDebuggerReady env t) as [d a|d x|];
    [|destruct (launcher_run env (t + d)) as [d' a|d' y|]|];
    cbn [settle now store log];
    (split; [repeat (constructor; [cbn; repeat split; lia|]); constructor|]);
    (split; [lia|]); (split; [reflexivity|]); discriminate.
Qed.

Lemma jobs_none (l : Log) :
  Forall (fun e => made_by_lighthouseRun (snd e) = false) l -> jobs l = [].
Proof.
  induction 1 as [|[t e] l He Hl IH]; [reflexivity|].
  cbn in He. destruct e as [| | | | | | | |o| | | | |]; cbn [jobs];
    try exact IH.
  destruct o; try exact IH. discriminate.
Qed.

Lemma count_in (f : Event -> bool) (e : Time * Event) (l : Log) :
  In e l -> f (snd e) = true -> 1 <= count f l.
Proof.
  intros Hin Hf. unfold count.
  assert (H : In e (filter (fun e => f (snd e)) l))
    by (apply filter_In; auto).
  destruct (filter (fun e => f (snd e)) l); [contradiction|cbn; lia].
Qed.

Lemma in_count (f : Event -> bool) (e : Time * Event) (l : Log) :
  In e l -> count f l = 0 -> f (snd e) = false.
Proof.
  intros Hin Hc. destruct (f (snd e)) eqn:Hf; [|reflexivity].
  pose proof (count_in f e l Hin Hf). lia.
Qed.

(** The call of [launcher.kill()] that ends the chain. *)
Lemma kill_link (env : Env) (s : Store) (t : Time) :
  count is_kill (log (perform OpLauncherKill (launcher_kill env) s t)) = 1 /\
  Forall (fun e => t <= fst e /\
                   made_by_launchChromeAndRun (snd e) = true /\
                   made_by_lighthouseRun (snd e) = false /\
                   is_register (snd e) = false /\
                   is_new_launcher (snd e) = false /\
                   is_launch (snd e) = false)
         (log (perform OpLauncherKill (launcher_kill env) s t)) /\
  In (t, EvCall OpLauncherKill)
     (log (perform OpLauncherKill (launcher_kill env) s t)) /\
  (forall a,
     settle (perform OpLauncherKill (launcher_kill env) s t) = Fulfilled a ->
     In (now (perform OpLauncherKill (launcher_kill env) s t),
         EvSettled OpLauncherKill true)
        (log (perform OpLauncherKill (launcher_kill env) s t))) /\
  (forall x,
     settle (perform OpLauncherKill (launcher_kill env) s t) = Rejected x ->
     In (now (perform OpLauncherKill (launcher_kill env) s t),
         EvSettled OpLauncherKill false)
        (log (perform OpLauncherKill (launcher_kill env) s t))) /\
  (forall c,
     settle (perform OpLauncherKill (launcher_kill env) s t) <> Exited c) /\
  t <= now (perform OpLauncherKill (launcher_kill env) s t).
Proof.
  pose proof (perform_cases OpLauncherKill (launcher_kill env) s t) as H.
  destruct (launcher_kill env t) as [d a|d x|]; rewrite H;
    cbn [settle now store log];
    (split; [reflexivity|]);
    (split; [repeat (constructor; [cbn; repeat split; lia|]); constructor|]);
    (split; [cbn; auto|]);
    (split; [intros ? ?; try discriminate; cbn; auto|]);
    (split; [intros ? ?; try discriminate; cbn; auto|]);
    (split; [discriminate|lia]).
Qed.

(** What the chain does, whatever the collaborators answer. *)
Lemma launcher_chain_inv (env : Env) (s : Store) (t : Time) :
  Forall (fun e => t <= fst e /\
                   made_by_launchChromeAndRun (snd e) = true /\
                   is_register (snd e) = false /\
                   is_new_launcher (snd e) = false)
         (log (launcher_chain env s t)) /\
  count is_kill (log (launcher_chain env s t)) <= 1 /\
  (forall a, settle (launcher_chain env s t) = Fulfilled a ->
     count is_kill (log (launcher_chain env s t)) = 1 /\
     In (now (launcher_chain env s t), EvSettled OpLauncherKill true)
        (log (launcher_chain env s t)) /\
     jobs (log (launcher_chain env s t))
       = truthy_prefix (urls (cliFlags s))) /\
  (forall x, settle (launcher_chain env s t) = Rejected x ->
     count is_kill (log (launcher_chain env s t)) = 0 \/
     In (now (launcher_chain env s t), EvSettled OpLauncherKill false)
        (log (launcher_chain env s t))) /\
  (forall c, settle (launcher_chain env s t) <> Exited c) /\
  fns (store (launcher_chain env s t)) = fns s /\
  port (cliFlags (store (launcher_chain env s t))) = port (cliFlags s) /\
  t <= now (launcher_chain env s t).
Proof.
  rewrite launcher_chain_links.
  destruct (debugger_ready_or_run_made env s t) as (A1 & A2 & A3 & A4).
  set (e := debugger_ready_or_run env s t) in *.
  assert (Ae : Forall (fun e0 => t <= fst e0 /\
                   made_by_launchChromeAndRun (snd e0) = true /\
                   is_register (snd e0) = false /\
                   is_new_launcher (snd e0) = false) (log e)).
  { eapply Forall_impl; [|exact A1]. cbn. tauto. }
  assert (Ke : count is_kill (log e) = 0).
  { apply count_none. eapply Forall_impl; [|exact A1]. cbn. tauto. }
  assert (Je : jobs (log e) = []).
  { apply jobs_none. eapply Forall_impl; [|exact A1]. cbn. tauto. }
  destruct (settle e) as [a|x| |c] eqn:E1;
    try (rewrite A3;
         split; [exact Ae|]; split; [lia|];
         split; [intros a0 Ha; congruence|];
         split; [intros x0 Hx; left; exact Ke|];
         split; [intros c0 Hc; first [exact (A4 _ eq_refl)|congruence]|];
         split; [reflexivity|];
         split; [reflexivity|exact A2]).
  destruct (run_addresses_inv env (urls (cliFlags s)) s (now e))
    as (B1 & B2 & B3 & _ & _ & _ & B7).
  pose proof (run_addresses_made env (urls (cliFlags s)) s (now e)) as Bm.
  destruct (run_addresses_prefix env (urls (cliFlags s)) s (now e))
    as (_ & Bp).
  set (r := run_addresses env (urls (cliFlags s)) s (now e)) in *.
  assert (Ar : Forall (fun e0 => t <= fst e0 /\
                   made_by_launchChromeAndRun (snd e0) = true /\
                   is_register (snd e0) = false /\
                   is_new_launcher (snd e0) = false) (log r)).
  { eapply Forall_impl; [|exact B1]. cbn. intros [u ev] [Hu Hm].
    cbn in *. split; [lia|].
    destruct ev; try discriminate; cbn; auto;
      match goal with m : Mutation |- _ => destruct m end;
      try discriminate; auto. }
  assert (Kr : count is_kill (log r) = 0).
  { apply count_disjoint with (g := made_by_lighthouseRun);
      [other_kind|exact Bm]. }
  assert (Fr : fns (store r) = fns s /\
               port (cliFlags (store r)) = port (cliFlags s)).
  { rewrite B3. destruct s as [[]]. split; reflexivity. }
  destruct Fr as (Fr & Pr).
  destruct (settle r) as [b|x| |c] eqn:E2; cbn [settle now store log];
    try (rewrite !count_app, Ke, Kr;
         split; [apply Forall_app; split; [exact Ae|exact Ar]|];
         split; [cbn; lia|];
         split; [intros a0 Ha; congruence|];
         split; [intros x0 Hx; left; reflexivity|];
         split; [intros c0 Hc; first [exact (B2 _ eq_refl)|congruence]|];
         split; [exact Fr|];
         split; [exact Pr|lia]).
  destruct (kill_link env (store r) (now r))
    as (K1 & K2 & K3 & K4 & K5 & K6 & K7).
  set (k := perform OpLauncherKill (launcher_kill env) (store r) (now r))
    in *.
  rewrite !count_app, Ke, Kr, K1, !jobs_app, Je.
  assert (Jk : jobs (log k) = []).
  { apply jobs_none. eapply Forall_impl; [|exact K2]. cbn. tauto. }
  rewrite Jk, app_nil_r. cbn [app].
  split.
  { apply Forall_app. split; [assumption|].
    apply Forall_app. split; [assumption|].
    eapply Forall_impl; [|exact K2]. cbn. intros ev H.
    repeat split; try tauto. lia. }
  split; [lia|]. split.
  { intros a0 Hk. split; [reflexivity|]. split.
    - apply in_or_app. right. apply in_or_app. right.
      apply (K4 a0). exact Hk.
    - apply (Bp b). reflexivity. }
  split.
  { intros x Hk. right.
    apply in_or_app. right. apply in_or_app. right.
    apply (K5 x). exact Hk. }
  split; [exact K6|]. split; [exact Fr|]. split; [exact Pr|]. lia.
Qed.

Lemma ready_when_fulfilled (env : Env) (s : Store) (t : Time) (a : unit) :
  settle (debugger_ready_or_run env s t) = Fulfilled a ->
  In (now (debugger_ready_or_run env s t), EvSettled OpIsDebuggerReady true)
     (log (debugger_ready_or_run env s t)) \/
  In (now (debugger_ready_or_run env s t), EvSettled OpLauncherRun true)
     (log (debugger_ready_or_run env s t)).
Proof.
  rewrite debugger_ready_or_run_cases.
  destruct (isDebuggerReady env t) as [d b|d x|];
    [|destruct (launcher_run env (t + d)) as [d' b|d' y|]|];
    cbn [settle now log]; try discriminate; intros _; cbn; auto 10.
Qed.

Lemma chain_log_cases (env : Env) (s : Store) (t : Time)
      (e : Time * Event) :
  In e (log (launcher_chain env s t)) ->
  In e (log (debugger_ready_or_run env s t)) \/
  (exists a, settle (debugger_ready_or_run env s t) = Fulfilled a) /\
  (In e (log (run_addresses env (urls (cliFlags s)) s
                (now (debugger_ready_or_run env s t)))) \/
   (exists b,
      settle (run_addresses env (urls (cliFlags s)) s
                (now (debugger_ready_or_run env s t))) = Fulfilled b) /\
   In e (log (perform OpLauncherKill (launcher_kill env)
                (store (run_addresses env (urls (cliFlags s)) s
                          (now (debugger_ready_or_run env s t))))
                (now (run_addresses env (urls (cliFlags s)) s
                        (now (debugger_ready_or_run env s t))))))).
Proof.
  rewrite launcher_chain_links.
  destruct (settle (debugger_ready_or_run env s t)) as [a|x| |c];
    try (intros H; left; exact H).
  destruct (settle (run_addresses env (urls (cliFlags s)) s
                      (now (debugger_ready_or_run env s t))))
    as [b|x| |c]; cbn [log]; intros H;
    apply in_app_or in H; destruct H as [H|H]; try (left; exact H);
    right; (split; [exists a; reflexivity|]); try (left; exact H).
  apply in_app_or in H. destruct H as [H|H]; [left; exact H|].
  right. split; [exists b; reflexivity|exact H].
Qed.

(** How the chain starts, by the answer to the readiness probe. *)
Lemma launcher_chain_launch (env : Env) (s : Store) (t : Time) :
  match isDebuggerReady env t with
  | Fulfil d a =>
      count is_launch (log (launcher_chain env s t)) = 0
  | Reject d x =>
      count is_launch (log (launcher_chain env s t)) = 1 /\
      In (t + d, EvLogLog "Lighthouse CLI" "Launching Chrome...")
         (log (launcher_chain env s t)) /\
      In (t + d, EvCall OpLauncherRun) (log (launcher_chain env s t)) /\
      match launcher_run env (t + d) with
      | Fulfil d' a => True
      | Reject d' y =>
          settle (launcher_chain env s t) = Rejected y /\
          now (launcher_chain env s t) = t + d + d' /\
          jobs (log (launcher_chain env s t)) = [] /\
          count is_kill (log (launcher_chain env s t)) = 0
      | Hang =>
          settle (launcher_chain env s t) = Pending /\
          jobs (log (launcher_chain env s t)) = [] /\
          count is_kill (log (launcher_chain env s t)) = 0
      end
  | Hang =>
      launcher_chain env s t =
      mkRes Pending t s [(t, EvCall OpIsDebuggerReady)]
  end.
Proof.
  rewrite launcher_chain_links.
  pose proof (run_addresses_made env (urls (cliFlags s)) s
                (now (debugger_ready_or_run env s t))) as Bm.
  destruct (kill_link env
              (store (run_addresses env (urls (cliFlags s)) s
                        (now (debugger_ready_or_run env s t))))
              (now (run_addresses env (urls (cliFlags s)) s
                      (now (debugger_ready_or_run env s t)))))
    as (_ & K2 & _).
  assert (Lr : count is_launch
                 (log (run_addresses env (urls (cliFlags s)) s
                         (now (debugger_ready_or_run env s t)))) = 0).
  { apply count_disjoint with (g := made_by_lighthouseRun);
      [other_kind|exact Bm]. }
  assert (Lk : count is_launch
                 (log (perform OpLauncherKill (launcher_kill env)
                    (store (run_addresses env (urls (cliFlags s)) s
                              (now (debugger_ready_or_run env s t))))
                    (now (run_addresses env (urls (cliFlags s)) s
                            (now (debugger_ready_or_run env s t)))))) = 0).
  { apply count_none. eapply Forall_impl; [|exact K2]. cbn. tauto. }
  revert Lr Lk. rewrite debugger_ready_or_run_cases.
  destruct (isDebuggerReady env t) as [d a|d x|];
    [|destruct (launcher_run env (t + d)) as [d' a|d' y|]|];
    cbn [settle now store log]; intros Lr Lk;
    try (repeat split; cbn; auto 10; fail).
  - destruct (settle (run_addresses env (urls (cliFlags s)) s (t + d)));
      cbn [log]; rewrite !count_app, ?Lr, ?Lk; reflexivity.
  - destruct (settle (run_addresses env (urls (cliFlags s)) s (t + d + d')));
      cbn [log]; rewrite !count_app, ?Lr, ?Lk;
      (split; [reflexivity|]);
      (split; [apply in_or_app; left; cbn; auto 10|]);
      (split; [apply in_or_app; left; cbn; auto 10|exact Logic.I]).
Qed.

Lemma launchChromeAndRun_fulfilled_port (env : Env) (s : Store) (t : Time) :
  settle (initPort env s t) = Fulfilled tt ->
  launchChromeAndRun env s t =
  mkRes
    (settle (launcher_chain env
               (apply_mutation (MRegister ActKill)
                  (store (initPort env s t)))
               (now (initPort env s t))))
    (now (launcher_chain env
            (apply_mutation (MRegister ActKill)
               (store (initPort env s t)))
            (now (initPort env s t))))
    (store (launcher_chain env
              (apply_mutation (MRegister ActKill)
                 (store (initPort env s t)))
              (now (initPort env s t))))
    (log (initPort env s t) ++
     [(now (initPort env s t),
       EvNewLauncher (port (cliFlags (store (initPort env s t))))
                     (negb (selectChrome (cliFlags s))));
      (now (initPort env s t), EvMutate (MRegister ActKill))] ++
     log (launcher_chain env
            (apply_mutation (MRegister ActKill)
               (store (initPort env s t)))
            (now (initPort env s t)))).
Proof. intros E. rewrite launchChromeAndRun_links, E. reflexivity. Qed.

Lemma launchChromeAndRun_pending_port (env : Env) (s : Store) (t : Time) :
  settle (initPort env s t) <> Fulfilled tt ->
  launchChromeAndRun env s t = initPort env s t /\
  settle (initPort env s t) = Pending.
Proof.
  intros E. rewrite launchChromeAndRun_links.
  destruct (initPort_made env s t) as (_ & _ & H).
  destruct (H tt) as [H'|H']; [contradiction|].
  rewrite H'. split; reflexivity.
Qed.

Lemma urls_after_port (env : Env) (s : Store) (t : Time) :
  urls (cliFlags (apply_mutation (MRegister ActKill)
                    (store (initPort env s t)))) = urls (cliFlags s).
Proof.
  destruct (initPort_frame env s t) as (_ & Hfr & _).
  rewrite <- Hfr. reflexivity.
Qed.

Lemma initPort_counts (env : Env) (s : Store) (t : Time) :
  count is_launch (log (initPort env s t)) = 0 /\
  count is_kill (log (initPort env s t)) = 0 /\
  count is_register (log (initPort env s t)) = 0 /\
  count is_new_launcher (log (initPort env s t)) = 0 /\
  count is_exit (log (initPort env s t)) = 0 /\
  jobs (log (initPort env s t)) = [].
Proof. port_cases env s t; repeat split. Qed.

Lemma secondary_log_in (env : Env) (s : Store) (address : Address)
      (results : Results) (t u : Time) (e : Event) :
  In (u, e) (secondary_log env s address results t) ->
  match e with
  | EvCall (OpWrite _ _ _) | EvSettled (OpWrite _ _ _) _ => True
  | _ => False
  end.
Proof.
  unfold secondary_log, secondary_events.
  destruct (String.eqb _ _); [|intros []].
  destruct (Printer_write env results "html" _ t); cbn;
    intros H;
    repeat (destruct H as [H|H]; [injection H as _ <-; exact Logic.I|]);
    contradiction.
Qed.

(** A rejected Lighthouse run is the last thing the sequence did. *)
Lemma run_addresses_job_failed (env : Env) (addresses : list Address)
      (s : Store) (t tf : Time) (a : Address) :
  In (tf, EvSettled (OpLighthouse a) false)
     (log (run_addresses env addresses s t)) ->
  exists x, settle (run_addresses env addresses s t) = Rejected x /\
            now (run_addresses env addresses s t) = tf.
Proof.
  revert s t. induction addresses as [|address rest IH]; intros s t.
  - rewrite run_addresses_nil. intros [].
  - destruct (is_truthy address) eqn:Ht.
    + rewrite (run_addresses_cons env address rest s t Ht).
      destruct (lighthouse env address
                  (cliFlags (apply_mutation MShift s)) t)
        as [d1 results|d x|];
        [destruct (Printer_write env results (output (cliFlags s))
                     (output_path (cliFlags s)) (t + d1))
           as [d2 results'|d x|]|..];
        cbn [settle now store log]; intros H.
      * apply in_app_or in H. destruct H as [H|H].
        { cbn in H.
          repeat (destruct H as [H|H]; [discriminate|]). contradiction. }
        apply in_app_or in H. destruct H as [H|H].
        { apply secondary_log_in in H. contradiction. }
        exact (IH _ _ H).
      * cbn in H. repeat (destruct H as [H|H]; [discriminate|]).
        contradiction.
      * cbn in H. repeat (destruct H as [H|H]; [discriminate|]).
        contradiction.
      * cbn in H. destruct H as [H|[H|[H|H]]]; try discriminate;
          [|contradiction].
        injection H as <- _. exists x. split; reflexivity.
      * cbn in H. repeat (destruct H as [H|H]; [discriminate|]).
        contradiction.
    + rewrite (run_addresses_falsy env address rest s t Ht).
      cbn. intros [H|[]]. discriminate.
Qed.

Lemma invoked_none (l : Log) :
  Forall (fun e => made_by_launchChromeAndRun (snd e) = true) l ->
  invoked l = [] /\ count is_exit l = 0 /\ count is_console_error l = 0 /\
  count is_invoke l = 0.
Proof.
  induction 1 as [|[t e] l He Hl (I1 & I2 & I3 & I4)];
    [repeat split|].
  rewrite !count_cons, I2, I3, I4. cbn in He.
  destruct e; try discriminate; cbn; repeat split; exact I1.
Qed.

(** X5.  [launchChromeAndRun] probes the debugger first and launches
    Chrome only when the probe is rejected, whatever the reason: with a
    probe that is fulfilled [launcher.run()] is never called; with one
    that is rejected it is called once, at that instant, after the
    message that Chrome is being launched.  When the launch is rejected,
    [launchChromeAndRun] is rejected with the reason of the launch, no
    Lighthouse run is started and [launcher.kill()] is not called; when
    the probe or the launch never settles, nothing else happens. *)
Theorem chrome_launched_when_not_ready (env : Env) (s : Store) (t : Time) :
  settle (initPort env s t) = Fulfilled tt ->
  (forall d a,
     isDebuggerReady env (now (initPort env s t)) = Fulfil d a ->
     count is_launch (log (launchChromeAndRun env s t)) = 0) /\
  (forall d x,
     isDebuggerReady env (now (initPort env s t)) = Reject d x ->
     count is_launch (log (launchChromeAndRun env s t)) = 1 /\
     In (now (initPort env s t) + d,
         EvLogLog "Lighthouse CLI" "Launching Chrome...")
        (log (launchChromeAndRun env s t)) /\
     In (now (initPort env s t) + d, EvCall OpLauncherRun)
        (log (launchChromeAndRun env s t)) /\
     (forall d' y,
        launcher_run env (now (initPort env s t) + d) = Reject d' y ->
        settle (launchChromeAndRun env s t) = Rejected y /\
        now (launchChromeAndRun env s t) = now (initPort env s t) + d + d' /\
        jobs (log (launchChromeAndRun env s t)) = [] /\
        count is_kill (log (launchChromeAndRun env s t)) = 0) /\
     (launcher_run env (now (initPort env s t) + d) = Hang ->
        settle (launchChromeAndRun env s t) = Pending /\
        jobs (log (launchChromeAndRun env s t)) = [] /\
        count is_kill (log (launchChromeAndRun env s t)) = 0)) /\
  (isDebuggerReady env (now (initPort env s t)) = Hang ->
     settle (launchChromeAndRun env s t) = Pending /\
     jobs (log (launchChromeAndRun env s t)) = [] /\
     count is_launch (log (launchChromeAndRun env s t)) = 0 /\
     count is_kill (log (launchChromeAndRun env s t)) = 0).
Proof.
  intros E. rewrite (launchChromeAndRun_fulfilled_port env s t E).
  cbn [settle now store log].
  destruct (initPort_counts env s t) as (C1 & C2 & _ & _ & _ & C6).
  rewrite !count_app, !jobs_app, C1, C2, C6.
  cbn [count filter snd is_launch is_kill length jobs app Nat.add].
  pose proof (launcher_chain_launch env
                (apply_mutation (MRegister ActKill)
                   (store (initPort env s t)))
                (now (initPort env s t))) as H.
  set (c := launcher_chain env
              (apply_mutation (MRegister ActKill)
                 (store (initPort env s t)))
              (now (initPort env s t))) in *.
  fold (count is_launch (log c)). fold (count is_kill (log c)).
  split; [|split].
  - intros d a Hr. rewrite Hr in H. exact H.
  - intros d x Hr. rewrite Hr in H. destruct H as (H1 & H2 & H3 & H4).
    split; [exact H1|].
    split; [apply in_or_app; right; cbn [app]; right; right; exact H2|].
    split; [apply in_or_app; right; cbn [app]; right; right; exact H3|].
    split.
    + intros d' y Hl. rewrite Hl in H4. exact H4.
    + intros Hl. rewrite Hl in H4. exact H4.
  - intros Hr. rewrite Hr in H. rewrite H. repeat split.
Qed.

Lemma chrome_launched_when_not_ready_witness :
  count is_launch (log (launchChromeAndRun env_quiet store_two 0)) = 0 /\
  count is_launch (log (launchChromeAndRun env_not_ready store_two 0)) = 1 /\
  settle (launchChromeAndRun env_launch_fails store_two 0)
    = Rejected err_generic.
Proof.
  split; [|split].
  - exact (proj1 (chrome_launched_when_not_ready env_quiet store_two 0
                    eq_refl) 1 tt eq_refl).
  - exact (proj1 (proj1 (proj2 (chrome_launched_when_not_ready
                                  env_not_ready store_two 0 eq_refl))
                        1 err_refused eq_refl)).
  - destruct (proj1 (proj2 (chrome_launched_when_not_ready
                              env_launch_fails store_two 0 eq_refl))
                    1 err_refused eq_refl) as (_ & _ & _ & H & _).
    exact (proj1 (H 2 err_generic eq_refl)).
Defined.

(** X6.  Inside [launchChromeAndRun] every Lighthouse run is started
    when Chrome is there and its kill function is registered: no earlier
    than the instant the readiness probe was fulfilled or, failing that,
    the launch was fulfilled, which in turn is no earlier than the
    registration of the kill function. *)
Theorem lighthouse_runs_after_chrome (env : Env) (s : Store) (t tj : Time)
        (a : Address) :
  In (tj, EvCall (OpLighthouse a)) (log (launchChromeAndRun env s t)) ->
  exists tr tc,
    tr <= tc /\ tc <= tj /\
    In (tr, EvMutate (MRegister ActKill))
       (log (launchChromeAndRun env s t)) /\
    (In (tc, EvSettled OpIsDebuggerReady true)
        (log (launchChromeAndRun env s t)) \/
     In (tc, EvSettled OpLauncherRun true)
        (log (launchChromeAndRun env s t))).
Proof.
  destruct (initPort_counts env s t) as (_ & _ & _ & _ & _ & C6).
  destruct (initPort_made env s t) as (M1 & _ & M3).
  destruct (M3 tt) as [E|E].
  - rewrite (launchChromeAndRun_fulfilled_port env s t E). cbn [log].
    set (s1 := apply_mutation (MRegister ActKill)
                 (store (initPort env s t))).
    set (t1 := now (initPort env s t)).
    intros H. apply in_app_or in H. destruct H as [H|H].
    { exfalso. rewrite Forall_forall in M1.
      destruct (M1 _ H) as (_ & _ & _ & Hm). discriminate. }
    cbn [app] in H. destruct H as [H|[H|H]]; try discriminate.
    destruct (debugger_ready_or_run_made env s1 t1) as (A1 & A2 & _).
    apply chain_log_cases in H. destruct H as [H|([b Hb] & [H|(_ & H)])].
    + exfalso. rewrite Forall_forall in A1.
      destruct (A1 _ H) as (_ & _ & _ & Hm & _). discriminate.
    + destruct (run_addresses_inv env (urls (cliFlags s1)) s1
                  (now (debugger_ready_or_run env s1 t1))) as (B1 & _).
      rewrite Forall_forall in B1. destruct (B1 _ H) as (Hle & _).
      cbn [fst] in Hle.
      exists t1, (now (debugger_ready_or_run env s1 t1)).
      split; [exact A2|]. split; [exact Hle|]. split.
      * apply in_or_app. right. right. left. reflexivity.
      * assert (Hin : forall ev,
                  In ev (log (debugger_ready_or_run env s1 t1)) ->
                  In ev (log (initPort env s t) ++
                         [(t1, EvNewLauncher
                                 (port (cliFlags (store (initPort env s t))))
                                 (negb (selectChrome (cliFlags s))));
                          (t1, EvMutate (MRegister ActKill))] ++
                         log (launcher_chain env s1 t1))).
        { intros ev Hev. apply in_or_app. right. cbn [app]. right. right.
          rewrite launcher_chain_links. rewrite Hb. cbv beta iota.
          destruct (settle (run_addresses env (urls (cliFlags s1)) s1
                              (now (debugger_ready_or_run env s1 t1))));
            cbv beta iota; cbn [log]; apply in_or_app; left; exact Hev. }
        destruct (ready_when_fulfilled env s1 t1 b Hb) as [Hr|Hr];
          [left|right]; apply Hin; exact Hr.
    + exfalso.
      destruct (kill_link env
                  (store (run_addresses env (urls (cliFlags s1)) s1
                            (now (debugger_ready_or_run env s1 t1))))
                  (now (run_addresses env (urls (cliFlags s1)) s1
                          (now (debugger_ready_or_run env s1 t1)))))
        as (_ & K2 & _).
      rewrite Forall_forall in K2.
      destruct (K2 _ H) as (_ & _ & Hm & _). discriminate.
  - destruct (launchChromeAndRun_pending_port env s t) as (-> & _);
      [congruence|].
    intros H. exfalso. rewrite Forall_forall in M1.
    destruct (M1 _ H) as (_ & _ & _ & Hm). discriminate.
Qed.

Lemma lighthouse_runs_after_chrome_witness :
  exists tr tc,
    tr <= tc /\ tc <= 1 /\
    In (tr, EvMutate (MRegister ActKill))
       (log (launchChromeAndRun env_quiet store_two 0)) /\
    (In (tc, EvSettled OpIsDebuggerReady true)
        (log (launchChromeAndRun env_quiet store_two 0)) \/
     In (tc, EvSettled OpLauncherRun true)
        (log (launchChromeAndRun env_quiet store_two 0))).
Proof.
  apply (lighthouse_runs_after_chrome env_quiet store_two 0 1
           "https://example.com").
  vm_compute. in_list.
Defined.

Lemma register_frame (s : Store) (fn : Action) :
  cliFlags (apply_mutation (MRegister fn) s) = cliFlags s /\
  fns (apply_mutation (MRegister fn) s) = fns s ++ [fn].
Proof. split; reflexivity. Qed.

(** What [launchChromeAndRun] does once the port is resolved. *)
Lemma launchChromeAndRun_inv (env : Env) (s : Store) (t : Time) :
  settle (initPort env s t) = Fulfilled tt ->
  Forall (fun e => t <= fst e /\ made_by_launchChromeAndRun (snd e) = true)
         (log (launchChromeAndRun env s t)) /\
  count is_kill (log (launchChromeAndRun env s t)) <= 1 /\
  (forall a, settle (launchChromeAndRun env s t) = Fulfilled a ->
     count is_kill (log (launchChromeAndRun env s t)) = 1 /\
     In (now (launchChromeAndRun env s t), EvSettled OpLauncherKill true)
        (log (launchChromeAndRun env s t)) /\
     jobs (log (launchChromeAndRun env s t))
       = truthy_prefix (urls (cliFlags s))) /\
  (forall x, settle (launchChromeAndRun env s t) = Rejected x ->
     count is_kill (log (launchChromeAndRun env s t)) = 0 \/
     In (now (launchChromeAndRun env s t), EvSettled OpLauncherKill false)
        (log (launchChromeAndRun env s t))) /\
  (forall c, settle (launchChromeAndRun env s t) <> Exited c) /\
  fns (store (launchChromeAndRun env s t)) = fns s ++ [ActKill] /\
  port (cliFlags (store (launchChromeAndRun env s t)))
    = port (cliFlags (store (initPort env s t))) /\
  count is_register (log (launchChromeAndRun env s t)) = 1 /\
  count is_new_launcher (log (launchChromeAndRun env s t)) = 1 /\
  now (initPort env s t) <= now (launchChromeAndRun env s t).
Proof.
  intros E. rewrite (launchChromeAndRun_fulfilled_port env s t E).
  cbn [settle now store log].
  destruct (initPort_counts env s t) as (_ & C2 & C3 & C4 & _ & C6).
  destruct (initPort_made env s t) as (M1 & M2 & _).
  destruct (initPort_frame env s t) as (F1 & _ & _).
  pose proof (urls_after_port env s t) as Hu.
  destruct (launcher_chain_inv env
              (apply_mutation (MRegister ActKill)
                 (store (initPort env s t)))
              (now (initPort env s t)))
    as (L1 & L2 & L3 & L4 & L5 & L6 & L7 & L8).
  rewrite Hu in L3.
  set (c := launcher_chain env
              (apply_mutation (MRegister ActKill)
                 (store (initPort env s t)))
              (now (initPort env s t))) in *.
  rewrite !count_app, !jobs_app, C2, C3, C4, C6.
  cbn [count filter snd is_kill is_register is_new_launcher length jobs
       app Nat.add].
  fold (count is_kill (log c)). fold (count is_register (log c)).
  fold (count is_new_launcher (log c)).
  assert (Rc : count is_register (log c) = 0).
  { apply count_none. eapply Forall_impl; [|exact L1]. cbn. tauto. }
  assert (Nc : count is_new_launcher (log c) = 0).
  { apply count_none. eapply Forall_impl; [|exact L1]. cbn. tauto. }
  rewrite Rc, Nc.
  split.
  { apply Forall_app. split.
    - eapply Forall_impl; [|exact M1]. cbn. tauto.
    - repeat (constructor; [cbn [fst snd]; split; [lia|reflexivity]|]).
      eapply Forall_impl; [|exact L1]. cbv beta. intros ev H.
      split; [lia|tauto]. }
  split; [exact L2|]. split.
  { intros a Ha. destruct (L3 a Ha) as (H1 & H2 & H3).
    split; [exact H1|]. split; [|exact H3].
    apply in_or_app. right. cbn [app]. right. right. exact H2. }
  split.
  { intros x Hx. destruct (L4 x Hx) as [H|H]; [left; exact H|right].
    apply in_or_app. right. cbn [app]. right. right. exact H. }
  split; [exact L5|]. split.
  { rewrite L6. cbn [apply_mutation fns]. rewrite F1. reflexivity. }
  split; [exact L7|]. split; [reflexivity|]. split; [reflexivity|exact L8].
Qed.

Lemma chain_job_failed (env : Env) (s : Store) (t tf : Time)
      (a : Address) :
  In (tf, EvSettled (OpLighthouse a) false) (log (launcher_chain env s t)) ->
  count is_kill (log (launcher_chain env s t)) = 0 /\
  exists x, settle (launcher_chain env s t) = Rejected x /\
            now (launcher_chain env s t) = tf.
Proof.
  intros H. pose proof (chain_log_cases env s t _ H) as Hc.
  destruct (debugger_ready_or_run_made env s t) as (A1 & _).
  destruct Hc as [Hc|([b Hb] & [Hc|(_ & Hc)])].
  - exfalso. rewrite Forall_forall in A1.
    destruct (A1 _ Hc) as (_ & _ & _ & Hm & _). discriminate.
  - destruct (run_addresses_job_failed env _ _ _ _ _ Hc) as (x & Hx & Hn).
    rewrite launcher_chain_links, Hb, Hx. cbv beta iota.
    cbn [settle now log]. rewrite count_app. split; [|eauto].
    assert (Ke : count is_kill (log (debugger_ready_or_run env s t)) = 0).
    { apply count_none. eapply Forall_impl; [|exact A1]. cbn. tauto. }
    rewrite Ke. cbn [Nat.add].
    apply count_disjoint with (g := made_by_lighthouseRun);
      [other_kind|apply run_addresses_made].
  - exfalso.
    destruct (kill_link env
                (store (run_addresses env (urls (cliFlags s)) s
                          (now (debugger_ready_or_run env s t))))
                (now (run_addresses env (urls (cliFlags s)) s
                        (now (debugger_ready_or_run env s t)))))
      as (_ & K2 & _).
    rewrite Forall_forall in K2.
    destruct (K2 _ Hc) as (_ & _ & Hm & _). discriminate.
Qed.

(** X7.  [launchChromeAndRun] calls [launcher.kill()] at most once, and
    only at the end of a sequence of Lighthouse runs that succeeded.
    When it is fulfilled, Lighthouse was started on every address before
    the first empty string and Chrome was killed; when it is rejected,
    either [launcher.kill()] was not called or it is the rejection of
    [launcher.kill()] itself; and when a Lighthouse run is rejected,
    [launchChromeAndRun] is rejected at that instant and
    [launcher.kill()] is not called. *)
Theorem chrome_killed_after_success_only (env : Env) (s : Store)
        (t : Time) :
  settle (initPort env s t) = Fulfilled tt ->
  count is_kill (log (launchChromeAndRun env s t)) <= 1 /\
  (forall a, settle (launchChromeAndRun env s t) = Fulfilled a ->
     count is_kill (log (launchChromeAndRun env s t)) = 1 /\
     In (now (launchChromeAndRun env s t), EvSettled OpLauncherKill true)
        (log (launchChromeAndRun env s t)) /\
     jobs (log (launchChromeAndRun env s t))
       = truthy_prefix (urls (cliFlags s))) /\
  (forall x, settle (launchChromeAndRun env s t) = Rejected x ->
     count is_kill (log (launchChromeAndRun env s t)) = 0 \/
     In (now (launchChromeAndRun env s t), EvSettled OpLauncherKill false)
        (log (launchChromeAndRun env s t))) /\
  (forall tf a,
     In (tf, EvSettled (OpLighthouse a) false)
        (log (launchChromeAndRun env s t)) ->
     count is_kill (log (launchChromeAndRun env s t)) = 0 /\
     exists x, settle (launchChromeAndRun env s t) = Rejected x /\
               now (launchChromeAndRun env s t) = tf).
Proof.
  intros E.
  destruct (launchChromeAndRun_inv env s t E) as (_ & H2 & H3 & H4 & _).
  split; [exact H2|]. split; [exact H3|]. split; [exact H4|].
  intros tf a. rewrite (launchChromeAndRun_fulfilled_port env s t E).
  cbn [settle now store log]. intros H.
  destruct (initPort_counts env s t) as (_ & C2 & _).
  destruct (initPort_made env s t) as (M1 & _).
  apply in_app_or in H. destruct H as [H|H].
  { exfalso. rewrite Forall_forall in M1.
    destruct (M1 _ H) as (_ & _ & _ & Hm). discriminate. }
  cbn [app] in H. destruct H as [H|[H|H]]; try discriminate.
  destruct (chain_job_failed env _ _ _ _ H) as (K & Hx).
  split; [|exact Hx].
  rewrite !count_app, C2, K. reflexivity.
Qed.

Lemma chrome_killed_after_success_only_witness :
  count is_kill (log (launchChromeAndRun env_quiet store_two 0)) = 1 /\
  count is_kill (log (launchChromeAndRun env_job_fails store_two 0)) = 0.
Proof.
  split.
  - exact (proj1 (proj1 (proj2 (chrome_killed_after_success_only
                                  env_quiet store_two 0 eq_refl))
                        tt eq_refl)).
  - refine (proj1 (proj2 (proj2 (proj2 (chrome_killed_after_success_only
                                          env_job_fails store_two 0
                                          eq_refl)))
                    5 "https://example.com" _)).
    vm_compute. in_list.
Defined.

(** X8.  The launcher is created once the port is resolved and never
    for port 0: the port it is given is the requested one when that is
    not 0 and the one the operating system assigned otherwise, and it is
    the port that the flags hold from then on. *)
Theorem launcher_uses_resolved_port (env : Env) (s : Store) (t t' : Time)
        (p : Z) (a : bool) :
  In (t', EvNewLauncher p a) (log (launchChromeAndRun env s t)) ->
  p <> 0%Z /\
  settle (initPort env s t) = Fulfilled tt /\
  t' = now (initPort env s t) /\
  p = port (cliFlags (store (launchChromeAndRun env s t))) /\
  a = negb (selectChrome (cliFlags s)) /\
  (port (cliFlags s) <> 0%Z -> p = port (cliFlags s)) /\
  (port (cliFlags s) = 0%Z ->
   exists d q, listen env t = Listening d q /\ p = Z.pos q) /\
  count is_new_launcher (log (launchChromeAndRun env s t)) = 1.
Proof.
  destruct (initPort_made env s t) as (M1 & _ & M3).
  destruct (M3 tt) as [E|E].
  - destruct (launchChromeAndRun_inv env s t E)
      as (_ & _ & _ & _ & _ & _ & I7 & _ & I9 & _).
    rewrite I7, I9. clear I7 I9.
    rewrite (launchChromeAndRun_fulfilled_port env s t E). cbn [log].
    intros H. apply in_app_or in H. destruct H as [H|H].
    { exfalso. rewrite Forall_forall in M1.
      destruct (M1 _ H) as (_ & _ & Hm & _). discriminate. }
    cbn [app] in H. destruct H as [H|[H|H]]; try discriminate.
    + injection H as <- <- <-.
      destruct (initPort_frame env s t) as (_ & _ & Hp).
      split; [exact (Hp E)|]. split; [exact E|].
      repeat (split; [reflexivity|]). split; [|split; [|reflexivity]].
      * intros Hne. rewrite (initPort_supplied env s t Hne). reflexivity.
      * intros H0. destruct (listen env t) as [d q|d err] eqn:El.
        -- exists d, q. split; [reflexivity|].
           rewrite (initPort_generated env s t d q H0 El).
           destruct s as [[]]; reflexivity.
        -- rewrite (initPort_refused env s t d err H0 El) in E. discriminate.
    + exfalso.
      destruct (launcher_chain_inv env
                  (apply_mutation (MRegister ActKill)
                     (store (initPort env s t)))
                  (now (initPort env s t))) as (L1 & _).
      rewrite Forall_forall in L1.
      destruct (L1 _ H) as (_ & _ & _ & Hm). discriminate.
  - destruct (launchChromeAndRun_pending_port env s t) as (-> & _);
      [congruence|].
    intros H. exfalso. rewrite Forall_forall in M1.
    destruct (M1 _ H) as (_ & _ & Hm & _). discriminate.
Qed.

Lemma launcher_uses_resolved_port_witness :
  9333%Z <> 0%Z /\
  9333%Z = port (cliFlags (store (launchChromeAndRun env_quiet
                                    store_port0 0))).
Proof.
  assert (H : In (2, EvNewLauncher 9333 true)
                 (log (launchChromeAndRun env_quiet store_port0 0)))
    by (vm_compute; in_list).
  destruct (launcher_uses_resolved_port env_quiet store_port0 0 2 9333 true
              H) as (H1 & _ & _ & H4 & _).
  exact (conj H1 H4).
Defined.

Lemma launchChromeAndRun_effects_aux (env : Env) (s : Store) (t : Time) :
  Forall (fun e => t <= fst e /\ made_by_launchChromeAndRun (snd e) = true)
         (log (launchChromeAndRun env s t)) /\
  forall c, settle (launchChromeAndRun env s t) <> Exited c.
Proof.
  destruct (initPort_made env s t) as (M1 & _ & M3).
  destruct (M3 tt) as [E|E].
  - destruct (launchChromeAndRun_inv env s t E)
      as (I1 & _ & _ & _ & I5 & _). split; assumption.
  - destruct (launchChromeAndRun_pending_port env s t) as (-> & _);
      [congruence|].
    split; [|rewrite E; discriminate].
    eapply Forall_impl; [|exact M1]. cbn. tauto.
Qed.

(** X9.  [launchChromeAndRun] never ends the process, never calls a
    cleanup function and writes nothing to [console.error]; a failure
    only shows as the rejection of its promise.  Once the port is
    resolved it adds the kill function of its launcher at the end of the
    cleanup registry, once, and takes nothing out of the registry; while
    the port is not resolved it does nothing else and the registry is as
    before. *)
Theorem launchChromeAndRun_effects (env : Env) (s : Store) (t : Time) :
  Forall (fun e => t <= fst e /\ made_by_launchChromeAndRun (snd e) = true)
         (log (launchChromeAndRun env s t)) /\
  count is_exit (log (launchChromeAndRun env s t)) = 0 /\
  invoked (log (launchChromeAndRun env s t)) = [] /\
  count is_console_error (log (launchChromeAndRun env s t)) = 0 /\
  (forall c, settle (launchChromeAndRun env s t) <> Exited c) /\
  (settle (initPort env s t) = Fulfilled tt ->
     fns (store (launchChromeAndRun env s t)) = fns s ++ [ActKill] /\
     count is_register (log (launchChromeAndRun env s t)) = 1 /\
     In (now (initPort env s t), EvMutate (MRegister ActKill))
        (log (launchChromeAndRun env s t))) /\
  (settle (initPort env s t) <> Fulfilled tt ->
     settle (launchChromeAndRun env s t) = Pending /\
     fns (store (launchChromeAndRun env s t)) = fns s /\
     count is_register (log (launchChromeAndRun env s t)) = 0).
Proof.
  destruct (launchChromeAndRun_effects_aux env s t) as (Hm & Hx).
  assert (Hm' : Forall (fun e => made_by_launchChromeAndRun (snd e) = true)
                       (log (launchChromeAndRun env s t))).
  { eapply Forall_impl; [|exact Hm]. cbn. tauto. }
  destruct (invoked_none _ Hm') as (N1 & N2 & N3 & _).
  repeat (split; [assumption|]). split.
  - intros E.
    destruct (launchChromeAndRun_inv env s t E)
      as (_ & _ & _ & _ & _ & I6 & _ & I8 & _).
    split; [exact I6|]. split; [exact I8|].
    rewrite (launchChromeAndRun_fulfilled_port env s t E). cbn [log].
    apply in_or_app. right. cbn [app]. right. left. reflexivity.
  - intros E.
    destruct (launchChromeAndRun_pending_port env s t E) as (-> & Hp).
    destruct (initPort_frame env s t) as (F1 & _).
    destruct (initPort_counts env s t) as (_ & _ & C3 & _).
    auto.
Qed.

Lemma launchChromeAndRun_effects_witness :
  fns (store (launchChromeAndRun env_quiet store_two 0)) = [ActKill] /\
  settle (launchChromeAndRun env_listen_fails store_port0 0) = Pending.
Proof.
  split.
  - exact (proj1 (proj1 (proj2 (proj2 (proj2 (proj2 (proj2
             (launchChromeAndRun_effects env_quiet store_two 0))))))
             eq_refl)).
  - refine (proj1 (proj2 (proj2 (proj2 (proj2 (proj2 (proj2
             (launchChromeAndRun_effects env_listen_fails store_port0 0))))))
             _)).
    discriminate.
Defined.

(** ** The whole run *)

(** X10.  Resolving the port a second time does nothing: once
    [initPort] is fulfilled the port of the flags is not 0, so that
    another [initPort] on the same flags, whenever it is called, is
    fulfilled at once, leaves the store as it is, creates no server and
    only logs the port in use.  This is the case of the call inside
    [launchChromeAndRun] when [run] has resolved the port before. *)
Theorem initPort_twice (env : Env) (s : Store) (t t' : Time) :
  settle (initPort env s t) = Fulfilled tt ->
  initPort env (store (initPort env s t)) t' =
  mkRes (Fulfilled tt) t' (store (initPort env s t))
        [(t', EvLogVerbose "Lighthouse CLI"
                ("Using supplied port " ++
                 string_of_Z (port (cliFlags (store (initPort env s t))))))].
Proof.
  intros E. apply initPort_supplied.
  apply (initPort_frame env s t). exact E.
Qed.

Lemma initPort_twice_witness :
  initPort env_quiet (store (initPort env_quiet store_port0 0)) 2 =
  mkRes (Fulfilled tt) 2 (store (initPort env_quiet store_port0 0))
        [(2, EvLogVerbose "Lighthouse CLI" "Using supplied port 9333")].
Proof. exact (initPort_twice env_quiet store_port0 0 2 eq_refl). Defined.

Lemma race_log {A} (env : Env) (p : Task A) (s : Store) (t : Time) :
  log (race_isSigint env p s t) = log (p s t).
Proof.
  unfold race_isSigint. destruct (sigint env) as [ts|]; [|reflexivity].
  destruct (Nat.leb t ts && negb (settled_by ts (p s t))); reflexivity.
Qed.

Lemma race_none {A} (env : Env) (p : Task A) (s : Store) (t : Time) :
  sigint env = None -> race_isSigint env p s t = p s t.
Proof. intros H. unfold race_isSigint. rewrite H. reflexivity. Qed.

(** What [handleError] leaves in the log. *)
Lemma handleError_log (err : JsValue) (s : Store) (t : Time) :
  store (handleError (A:=unit) err s t) = s /\
  count is_exit (log (handleError (A:=unit) err s t)) = 1 /\
  In (t, EvExit (exit_code_of err)) (log (handleError (A:=unit) err s t)) /\
  invoked (log (handleError (A:=unit) err s t)) = [] /\
  count is_invoke (log (handleError (A:=unit) err s t)) = 0 /\
  count touches_chrome (log (handleError (A:=unit) err s t)) = 0 /\
  count is_kill (log (handleError (A:=unit) err s t)) = 0 /\
  count is_shift (log (handleError (A:=unit) err s t)) = 0 /\
  jobs (log (handleError (A:=unit) err s t)) = [] /\
  1 <= count is_console_error (log (handleError (A:=unit) err s t)).
Proof.
  unfold handleError, exit_code_of.
  destruct (code_is err "ECONNREFUSED"); [cbn; repeat split; auto|].
  destruct (code_is err "CRI_TIMEOUT"); [cbn; repeat split; auto|].
  unfold showRuntimeError.
  destruct (stack_of err) as [st|]; [|cbn; repeat split; auto].
  destruct (String.eqb st ""); cbn; repeat split; auto.
Qed.

Lemma lighthouseRun_truthy (env : Env) (address : Address)
      (rest : list Address) (s : Store) (t : Time) :
  is_truthy address = true ->
  exists P : Task unit,
    lighthouseRun env (address :: rest) s t =
    mkRes (Fulfilled (Some P)) t (apply_mutation MShift s)
          [(t, EvMutate MShift)].
Proof.
  intros Ht. cbn [lighthouseRun]. rewrite bind_mutate, Ht. cbn [negb].
  eexists. reflexivity.
Qed.

Lemma skip_then (env : Env) (address : Address) (rest : list Address)
      (s : Store) (t : Time) :
  is_truthy address = true ->
  (next <- lighthouseRun env (address :: rest) ;;
   match next with
   | None => throw catch_of_undefined
   | Some p => catch p handleError
   end) s t =
  catch (run_addresses env (address :: rest)) handleError s t.
Proof.
  intros Ht.
  destruct (lighthouseRun_truthy env address rest s t Ht) as (P & HP).
  rewrite (bind_fulfilled _ _ _ _ (Some P)) by (rewrite HP; reflexivity).
  rewrite HP. cbn [settle now store log].
  assert (Hr : run_addresses env (address :: rest) s t =
               mkRes (settle (P (apply_mutation MShift s) t))
                     (now (P (apply_mutation MShift s) t))
                     (store (P (apply_mutation MShift s) t))
                     ([(t, EvMutate MShift)] ++
                      log (P (apply_mutation MShift s) t))).
  { unfold run_addresses.
    rewrite (bind_fulfilled _ _ _ _ (Some P)) by (rewrite HP; reflexivity).
    rewrite HP. reflexivity. }
  unfold catch. rewrite Hr.
  destruct (P (apply_mutation MShift s) t) as [[a|x| |c] t1 s1 l1];
    cbn [settle now store log]; try reflexivity.
  destruct (handleError x s1 t1) as [st t2 s2 l2].
  cbn [settle now store log]. rewrite app_assoc. reflexivity.
Qed.

Lemma count_zero (f : Event -> bool) (l : Log) :
  count f l = 0 -> Forall (fun e => f (snd e) = false) l.
Proof.
  intros H. apply Forall_forall. intros e He. exact (in_count f e l He H).
Qed.

Lemma no_listener (ts : Time) (l : Log) :
  count touches_chrome l = 0 -> listening_by ts l = false.
Proof.
  intros H. apply count_zero in H. unfold listening_by.
  induction H as [|[t e] l He Hl IH]; [reflexivity|].
  cbn [existsb snd fst]. rewrite IH. cbn in He.
  destruct e; try discriminate; reflexivity.
Qed.

(** [run] with [--skip-autolaunch], once the port is resolved. *)
Lemma run_skip (env : Env) (s0 : Store) :
  skipAutolaunch (cliFlags s0) = true ->
  settle (initPort env s0 0) = Fulfilled tt ->
  run env s0 0 =
  match urls (cliFlags s0) with
  | [] =>
      mkRes (Rejected catch_of_undefined) (now (initPort env s0 0))
            (store (initPort env s0 0)) (log (initPort env s0 0))
  | address :: rest =>
      if is_truthy address then
        mkRes
          (settle (catch (run_addresses env (address :: rest)) handleError
                         (store (initPort env s0 0))
                         (now (initPort env s0 0))))
          (now (catch (run_addresses env (address :: rest)) handleError
                      (store (initPort env s0 0))
                      (now (initPort env s0 0))))
          (store (catch (run_addresses env (address :: rest)) handleError
                        (store (initPort env s0 0))
                        (now (initPort env s0 0))))
          (log (initPort env s0 0) ++
           log (catch (run_addresses env (address :: rest)) handleError
                      (store (initPort env s0 0))
                      (now (initPort env s0 0))))
      else
        mkRes (Rejected catch_of_undefined) (now (initPort env s0 0))
              (apply_mutation MShift (store (initPort env s0 0)))
              (log (initPort env s0 0) ++
               [(now (initPort env s0 0), EvMutate MShift)])
  end.
Proof.
  intros Hskip E.
  destruct (initPort_frame env s0 0) as (_ & Hfr & _).
  assert (Hsk : skipAutolaunch (cliFlags (store (initPort env s0 0))) = true)
    by (rewrite <- Hskip, <- Hfr; reflexivity).
  assert (Hu : urls (cliFlags (store (initPort env s0 0)))
               = urls (cliFlags s0))
    by (rewrite <- Hfr; reflexivity).
  unfold run. rewrite (bind_fulfilled _ _ _ _ tt E). cbv beta.
  unfold run_then. rewrite bind_get, Hsk, Hu.
  destruct (urls (cliFlags s0)) as [|address rest].
  - cbn [lighthouseRun]. rewrite bind_ret. cbn [throw settle now store log].
    rewrite app_nil_r. reflexivity.
  - destruct (is_truthy address) eqn:Ht.
    + rewrite (skip_then env address rest _ _ Ht). reflexivity.
    + cbn [lighthouseRun]. rewrite bind_assoc, bind_mutate, Ht.
      cbn [negb]. rewrite bind_ret. reflexivity.
Qed.

Lemma run_unresolved (env : Env) (s0 : Store) :
  settle (initPort env s0 0) <> Fulfilled tt ->
  run env s0 0 = initPort env s0 0 /\ settle (initPort env s0 0) = Pending.
Proof.
  intros E. destruct (initPort_made env s0 0) as (_ & _ & H).
  destruct (H tt) as [H'|H']; [contradiction|].
  split; [|exact H']. unfold run. rewrite (bind_pending _ _ _ _ H').
  rewrite <- H'. symmetry. apply res_eta.
Qed.

Lemma touches_chrome_made (l : Log) :
  Forall (fun e => made_by_lighthouseRun (snd e) = true) l ->
  count touches_chrome l = 0.
Proof.
  intros H. apply count_disjoint with (g := made_by_lighthouseRun);
    [other_kind|exact H].
Qed.

Lemma initPort_no_chrome (env : Env) (s : Store) (t : Time) :
  count touches_chrome (log (initPort env s t)) = 0.
Proof.
  destruct (initPort_made env s t) as (M1 & _).
  apply count_none. eapply Forall_impl; [|exact M1]. cbn. tauto.
Qed.

(** The log and the outcome of [run] with [--skip-autolaunch]. *)
Lemma run_skip_inv (env : Env) (s0 : Store) :
  skipAutolaunch (cliFlags s0) = true ->
  count touches_chrome (log (run env s0 0)) = 0 /\
  (forall c, settle (run env s0 0) = Exited c -> c = 1%Z \/ c = 67%Z).
Proof.
  intros Hskip.
  pose proof (initPort_no_chrome env s0 0) as Ci.
  destruct (initPort_made env s0 0) as (_ & _ & M3).
  destruct (M3 tt) as [E|E].
  - rewrite (run_skip env s0 Hskip E).
    destruct (urls (cliFlags s0)) as [|address rest];
      [split; [exact Ci|discriminate]|].
    destruct (is_truthy address);
      [|cbn [settle log]; rewrite count_app, Ci;
        split; [reflexivity|discriminate]].
    cbn [settle log]. rewrite count_app, Ci. cbn [Nat.add].
    destruct (run_addresses_inv env (address :: rest)
                (store (initPort env s0 0)) (now (initPort env s0 0)))
      as (_ & B2 & _).
    pose proof (touches_chrome_made _
                  (run_addresses_made env (address :: rest)
                     (store (initPort env s0 0))
                     (now (initPort env s0 0)))) as Cr.
    destruct (settle (run_addresses env (address :: rest)
                        (store (initPort env s0 0))
                        (now (initPort env s0 0)))) as [a|x| |c] eqn:Er.
    + rewrite catch_not_rejected by (rewrite Er; discriminate).
      rewrite Er. split; [exact Cr|discriminate].
    + rewrite (catch_rejected _ _ _ _ x Er). cbn [settle log].
      rewrite count_app, Cr.
      destruct (handleError_log x
                  (store (run_addresses env (address :: rest)
                            (store (initPort env s0 0))
                            (now (initPort env s0 0))))
                  (now (run_addresses env (address :: rest)
                          (store (initPort env s0 0))
                          (now (initPort env s0 0)))))
        as (_ & _ & _ & _ & _ & Ch & _).
      split; [exact Ch|].
      destruct (handleError_exits x
                  (store (run_addresses env (address :: rest)
                            (store (initPort env s0 0))
                            (now (initPort env s0 0))))
                  (now (run_addresses env (address :: rest)
                          (store (initPort env s0 0))
                          (now (initPort env s0 0)))))
        as (-> & _).
      intros c Hc. injection Hc as <-. unfold exit_code_of.
      destruct (code_is x "ECONNREFUSED"); [left; reflexivity|].
      destruct (code_is x "CRI_TIMEOUT"); [right|left]; reflexivity.
    + rewrite catch_not_rejected by (rewrite Er; discriminate).
      rewrite Er. split; [exact Cr|discriminate].
    + exfalso. exact (B2 c eq_refl).
  - destruct (run_unresolved env s0) as (-> & Hp); [congruence|].
    split; [exact Ci|]. rewrite Hp. discriminate.
Qed.

Lemma termination_exit (env : Env) (s0 : Store) (t : Time) (c : Z) :
  termination (execute env s0) = Exit t c ->
  settle (run env s0 0) = Exited c /\ now (run env s0 0) = t /\
  trace (execute env s0) = upto t (log (run env s0 0)).
Proof.
  unfold execute.
  destruct (unhandled_sigint env (run env s0 0)); [discriminate|].
  destruct (settle (run env s0 0)); cbn; try discriminate.
  - destruct (uncaught_error _) as [[u e]|]; discriminate.
  - intros H; injection H as <- <-. repeat split.
Qed.

Lemma termination_fulfilled (env : Env) (s0 : Store) (t : Time) :
  termination (execute env s0) = RunFulfilled t ->
  (exists a, settle (run env s0 0) = Fulfilled a) /\
  now (run env s0 0) = t /\
  trace (execute env s0) = log (run env s0 0).
Proof.
  unfold execute.
  destruct (unhandled_sigint env (run env s0 0)); [discriminate|].
  destruct (settle (run env s0 0)); cbn; try discriminate.
  - intros H; injection H as <-. repeat split. eauto.
  - destruct (uncaught_error _) as [[u e]|]; discriminate.
Qed.

(** X11.  With [--skip-autolaunch] the program has no Chrome of its
    own: it creates no launcher, never probes, launches or kills one,
    registers and calls no cleanup function, and installs no listener
    for SIGINT.  So the cleanup registry is as before, the only exit
    codes are 1 and 67, never 130, and an interrupt delivered while the
    run has not settled finds no listener, whenever it comes. *)
Theorem skip_autolaunch_has_no_chrome (env : Env) (s0 : Store) :
  skipAutolaunch (cliFlags s0) = true ->
  count touches_chrome (trace (execute env s0)) = 0 /\
  fns (final_store env s0) = fns s0 /\
  (forall t c, termination (execute env s0) = Exit t c ->
               c = 1%Z \/ c = 67%Z) /\
  (forall ts, sigint env = Some ts ->
              settled_by ts (run env s0 0) = false ->
              termination (execute env s0) = DefaultSigint ts).
Proof.
  intros Hskip. destruct (run_skip_inv env s0 Hskip) as (Hc & Hx).
  assert (Ht : count touches_chrome (trace (execute env s0)) = 0).
  { pose proof (trace_count env s0 touches_chrome). lia. }
  split; [exact Ht|]. split; [|split].
  - unfold final_store. apply replay_fns.
    apply count_zero in Ht. eapply Forall_impl; [|exact Ht].
    intros [u e]. cbn. destruct e; try discriminate; try reflexivity.
    destruct m; try discriminate; reflexivity.
  - intros t c H. apply termination_exit in H. apply Hx, H.
  - intros ts Hs Hn. unfold execute, unhandled_sigint.
    rewrite Hs, Hn, (no_listener ts _ Hc). reflexivity.
Qed.

Lemma skip_autolaunch_has_no_chrome_witness :
  count touches_chrome (trace (execute env_interrupt store_skip)) = 0 /\
  termination (execute env_interrupt store_skip) = DefaultSigint 5.
Proof.
  destruct (skip_autolaunch_has_no_chrome env_interrupt store_skip eq_refl)
    as (H1 & _ & _ & H4).
  exact (conj H1 (H4 5 eq_refl eq_refl)).
Defined.

(** X12.  With [--skip-autolaunch], when the list of addresses is empty
    or starts with an empty string, [lighthouseRun] returns [undefined]
    and the call of [.catch] on it throws: once the port is resolved the
    promise of [run] is rejected with that TypeError, which does not go
    through [handleError]; Lighthouse is not started, nothing is written
    to [console.error] and the process is not ended. *)
Theorem skip_autolaunch_without_address (env : Env) (s0 : Store) :
  skipAutolaunch (cliFlags s0) = true ->
  settle (initPort env s0 0) = Fulfilled tt ->
  (urls (cliFlags s0) = [] \/
   exists rest, urls (cliFlags s0) = "" :: rest) ->
  settle (run env s0 0) = Rejected catch_of_undefined /\
  now (run env s0 0) = now (initPort env s0 0) /\
  jobs (log (run env s0 0)) = [] /\
  count is_exit (log (run env s0 0)) = 0 /\
  count is_console_error (log (run env s0 0)) = 0 /\
  (sigint env = None ->
   termination (execute env s0)
     = RunRejected (now (initPort env s0 0)) catch_of_undefined).
Proof.
  intros Hskip E Hu.
  assert (Hr : settle (run env s0 0) = Rejected catch_of_undefined /\
               now (run env s0 0) = now (initPort env s0 0) /\
               jobs (log (run env s0 0)) = [] /\
               count is_exit (log (run env s0 0)) = 0 /\
               count is_console_error (log (run env s0 0)) = 0).
  { rewrite (run_skip env s0 Hskip E).
    destruct (initPort_counts env s0 0) as (_ & _ & _ & _ & C5 & C6).
    assert (C7 : count is_console_error (log (initPort env s0 0)) = 0).
    { destruct (initPort_made env s0 0) as (M1 & _).
      apply count_none. eapply Forall_impl; [|exact M1].
      intros [u e]. cbn. destruct e; cbn; intuition congruence. }
    destruct Hu as [->|[rest ->]].
    - cbn [settle now log]. auto.
    - cbn [is_truthy String.eqb negb settle now log].
      rewrite !count_app, jobs_app, C5, C6, C7. repeat split. }
  destruct Hr as (H1 & H2 & H3 & H4 & H5).
  repeat (split; [assumption|]).
  intros Hs. unfold execute, unhandled_sigint. rewrite Hs, H1, H2.
  reflexivity.
Qed.

Lemma skip_autolaunch_without_address_witness :
  settle (run env_quiet store_skip_empty_first 0)
    = Rejected catch_of_undefined /\
  termination (execute env_quiet store_skip_empty_first)
    = RunRejected 0 catch_of_undefined.
Proof.
  destruct (skip_autolaunch_without_address env_quiet
              store_skip_empty_first eq_refl eq_refl
              (or_intror (ex_intro _ ["https://example.com"] eq_refl)))
    as (H1 & _ & _ & _ & _ & H6).
  exact (conj H1 (H6 eq_refl)).
Defined.

(** ** A run in which every collaborator succeeds *)

Lemma truthy_prefix_all (addresses : list Address) :
  forallb is_truthy addresses = true -> truthy_prefix addresses = addresses.
Proof.
  induction addresses as [|a l IH]; [reflexivity|].
  cbn [forallb truthy_prefix]. intros H.
  apply andb_true_iff in H. destruct H as [Ha Hl].
  rewrite Ha, (IH Hl). reflexivity.
Qed.

Lemma run_addresses_succeeds (env : Env) (addresses : list Address)
      (s : Store) (t : Time) :
  (forall a f u, exists d r, lighthouse env a f u = Fulfil d r) ->
  (forall r u, exists d r',
      Printer_write env r (output (cliFlags s)) (output_path (cliFlags s)) u
      = Fulfil d r') ->
  forallb is_truthy addresses = true ->
  exists a, settle (run_addresses env addresses s t) = Fulfilled a.
Proof.
  intros Hl Hw. revert s t Hw.
  induction addresses as [|address rest IH]; intros s t Hw Ht.
  - exists tt. reflexivity.
  - cbn [forallb] in Ht. apply andb_true_iff in Ht. destruct Ht as [Ha Hr].
    rewrite (run_addresses_cons env address rest s t Ha).
    destruct (Hl address (cliFlags (apply_mutation MShift s)) t)
      as (d1 & r1 & ->).
    destruct (Hw r1 (t + d1)) as (d2 & r2 & ->).
    cbn [settle]. apply IH; [|exact Hr].
    destruct (shift_output s) as (-> & ->). exact Hw.
Qed.

Lemma chain_succeeds (env : Env) (s : Store) (t : Time) :
  (forall u, (exists d a, isDebuggerReady env u = Fulfil d a) \/
             (exists d x d' a, isDebuggerReady env u = Reject d x /\
                               launcher_run env (u + d) = Fulfil d' a)) ->
  (forall a f u, exists d r, lighthouse env a f u = Fulfil d r) ->
  (forall r u, exists d r',
      Printer_write env r (output (cliFlags s)) (output_path (cliFlags s)) u
      = Fulfil d r') ->
  (forall u, exists d a, launcher_kill env u = Fulfil d a) ->
  forallb is_truthy (urls (cliFlags s)) = true ->
  exists a, settle (launcher_chain env s t) = Fulfilled a.
Proof.
  intros Hc Hl Hw Hk Ht. rewrite launcher_chain_links.
  assert (He : exists a, settle (debugger_ready_or_run env s t)
                         = Fulfilled a).
  { rewrite debugger_ready_or_run_cases.
    destruct (Hc t) as [(d & a & ->)|(d & x & d' & a & -> & ->)];
      eexists; reflexivity. }
  destruct He as (a & ->).
  destruct (run_addresses_succeeds env (urls (cliFlags s)) s
              (now (debugger_ready_or_run env s t)) Hl Hw Ht) as (b & ->).
  cbn [settle].
  pose proof (perform_cases OpLauncherKill (launcher_kill env)
                (store (run_addresses env (urls (cliFlags s)) s
                          (now (debugger_ready_or_run env s t))))
                (now (run_addresses env (urls (cliFlags s)) s
                        (now (debugger_ready_or_run env s t))))) as Hp.
  destruct (Hk (now (run_addresses env (urls (cliFlags s)) s
                       (now (debugger_ready_or_run env s t)))))
    as (d & c & Hkk).
  rewrite Hkk in Hp. rewrite Hp. eexists. reflexivity.
Qed.

Lemma chain_shifts (env : Env) (s : Store) (t : Time) (a : unit) :
  settle (launcher_chain env s t) = Fulfilled a ->
  count is_shift (log (launcher_chain env s t))
  = Nat.min (length (urls (cliFlags s)))
            (S (length (truthy_prefix (urls (cliFlags s))))).
Proof.
  rewrite launcher_chain_links.
  destruct (debugger_ready_or_run_made env s t) as (A1 & _).
  assert (Se : count is_shift (log (debugger_ready_or_run env s t)) = 0).
  { apply count_none. eapply Forall_impl; [|exact A1].
    intros [u e]. cbn. destruct e; cbn;
      first [tauto|destruct m; cbn; intuition congruence]. }
  destruct (settle (debugger_ready_or_run env s t)) as [b|x| |c] eqn:E1;
    try (intros H; congruence).
  destruct (run_addresses_prefix env (urls (cliFlags s)) s
              (now (debugger_ready_or_run env s t))) as (_ & Bp).
  destruct (kill_link env
              (store (run_addresses env (urls (cliFlags s)) s
                        (now (debugger_ready_or_run env s t))))
              (now (run_addresses env (urls (cliFlags s)) s
                      (now (debugger_ready_or_run env s t)))))
    as (_ & K2 & _).
  destruct (settle (run_addresses env (urls (cliFlags s)) s
                      (now (debugger_ready_or_run env s t))))
    as [b'|x| |c] eqn:E2; cbn [settle log]; try discriminate.
  intros _. destruct (Bp b' eq_refl) as (_ & Hb).
  rewrite !count_app, Se, Hb. cbn [Nat.add].
  assert (Sk : count is_shift
                 (log (perform OpLauncherKill (launcher_kill env)
                    (store (run_addresses env (urls (cliFlags s)) s
                              (now (debugger_ready_or_run env s t))))
                    (now (run_addresses env (urls (cliFlags s)) s
                            (now (debugger_ready_or_run env s t)))))) = 0).
  { apply count_none. eapply Forall_impl; [|exact K2].
    intros [u e]. cbn. destruct e; cbn;
      first [tauto|destruct m; cbn; intuition congruence]. }
  rewrite Sk. lia.
Qed.

Lemma initPort_no_shift (env : Env) (s : Store) (t : Time) :
  count is_shift (log (initPort env s t)) = 0.
Proof. port_cases env s t; reflexivity. Qed.

Lemma launchChromeAndRun_shifts (env : Env) (s : Store) (t : Time)
      (a : unit) :
  settle (initPort env s t) = Fulfilled tt ->
  settle (launchChromeAndRun env s t) = Fulfilled a ->
  count is_shift (log (launchChromeAndRun env s t))
  = Nat.min (length (urls (cliFlags s)))
            (S (length (truthy_prefix (urls (cliFlags s))))).
Proof.
  intros E. rewrite (launchChromeAndRun_fulfilled_port env s t E).
  cbn [settle log]. intros Hf.
  rewrite !count_app, (chain_shifts env _ _ a Hf), urls_after_port.
  rewrite (initPort_no_shift env s t). reflexivity.
Qed.

Lemma execute_without_sigint (env : Env) (s0 : Store) :
  sigint env = None ->
  settle (initPort env s0 0) = Fulfilled tt ->
  execute env s0 =
  match settle (run env s0 0) with
  | Exited c =>
      mkOutcome (Exit (now (run env s0 0)) c)
                (upto (now (run env s0 0)) (log (run env s0 0)))
  | Fulfilled _ =>
      mkOutcome (RunFulfilled (now (run env s0 0))) (log (run env s0 0))
  | Rejected x =>
      mkOutcome (RunRejected (now (run env s0 0)) x) (log (run env s0 0))
  | Pending => mkOutcome NeverSettles (log (run env s0 0))
  end.
Proof.
  intros H Hr0. unfold execute, unhandled_sigint.
  rewrite (uncaught_error_none _ (run_no_uncaught env s0 Hr0)).
  rewrite H. reflexivity.
Qed.

(** X13.  The run that succeeds.  No interrupt, Chrome to be launched,
    a port that gets resolved, a Chrome that answers the probe or can be
    launched, a Lighthouse that is fulfilled on every address, writes to
    the configured output that are fulfilled, a [launcher.kill()] that is
    fulfilled, and no empty string among the addresses: then the promise
    of [run] is fulfilled and the process is not ended by the program;
    Lighthouse has been started on every address, in order, once;
    [launcher.kill()] has been called once and no cleanup function; and
    the list of addresses is left empty.  Whether the secondary html
    reports could be written does not matter. *)
Theorem run_succeeds (env : Env) (s0 : Store) :
  sigint env = None ->
  skipAutolaunch (cliFlags s0) = false ->
  settle (initPort env s0 0) = Fulfilled tt ->
  (forall u, (exists d a, isDebuggerReady env u = Fulfil d a) \/
             (exists d x d' a, isDebuggerReady env u = Reject d x /\
                               launcher_run env (u + d) = Fulfil d' a)) ->
  (forall a f u, exists d r, lighthouse env a f u = Fulfil d r) ->
  (forall r u, exists d r',
      Printer_write env r (output (cliFlags s0))
                    (output_path (cliFlags s0)) u = Fulfil d r') ->
  (forall u, exists d a, launcher_kill env u = Fulfil d a) ->
  forallb is_truthy (urls (cliFlags s0)) = true ->
  (exists T, termination (execute env s0) = RunFulfilled T) /\
  jobs (trace (execute env s0)) = urls (cliFlags s0) /\
  count is_kill (trace (execute env s0)) = 1 /\
  count is_exit (trace (execute env s0)) = 0 /\
  invoked (trace (execute env s0)) = [] /\
  urls (cliFlags (final_store env s0)) = [].
Proof.
  intros Hsig Hskip E Hc Hl Hw Hk Ht.
  destruct (initPort_frame env s0 0) as (_ & Hfr & _).
  set (s1 := store (initPort env s0 0)) in *.
  set (t1 := now (initPort env s0 0)) in *.
  assert (Hu : urls (cliFlags s1) = urls (cliFlags s0))
    by (rewrite <- Hfr; reflexivity).
  assert (Ho : output (cliFlags s1) = output (cliFlags s0))
    by (rewrite <- Hfr; reflexivity).
  assert (Hop : output_path (cliFlags s1) = output_path (cliFlags s0))
    by (rewrite <- Hfr; reflexivity).
  pose proof (initPort_supplied env s1 t1
                (proj2 (proj2 (initPort_frame env s0 0)) E)) as Hinit1.
  assert (E1 : settle (initPort env s1 t1) = Fulfilled tt)
    by (rewrite Hinit1; reflexivity).
  destruct (launchChromeAndRun_inv env s1 t1 E1)
    as (I1 & _ & I3 & _ & _ & _ & _ & _ & _ & _).
  assert (Hf : exists a, settle (launchChromeAndRun env s1 t1) = Fulfilled a).
  { rewrite (launchChromeAndRun_fulfilled_port env s1 t1 E1). cbn [settle].
    apply chain_succeeds; try assumption.
    - cbn [apply_mutation cliFlags]. rewrite Hinit1.
      cbn [store]. rewrite Ho, Hop. exact Hw.
    - rewrite urls_after_port, Hu. exact Ht. }
  destruct Hf as (a & Hf).
  assert (Hs : count is_shift (log (launchChromeAndRun env s1 t1))
               = length (urls (cliFlags s0))).
  { rewrite (launchChromeAndRun_shifts env s1 t1 a E1 Hf), Hu.
    rewrite (truthy_prefix_all _ Ht). lia. }
  destruct (I3 a Hf) as (K1 & _ & J1).
  rewrite Hu, (truthy_prefix_all _ Ht) in J1.
  assert (Hrun := run_autolaunch env s0 _ Hskip E eq_refl).
  fold s1 t1 in Hrun.
  rewrite (catch_ext _ _ (on_rejection env) s1 t1
             (race_none env (launchChromeAndRun env) s1 t1 Hsig)) in Hrun.
  rewrite catch_not_rejected in Hrun by (rewrite Hf; discriminate).
  rewrite Hf in Hrun.
  rewrite (execute_without_sigint env s0 Hsig E).
  unfold final_store. rewrite (execute_without_sigint env s0 Hsig E).
  rewrite Hrun. cbn [settle now log termination trace].
  destruct (initPort_counts env s0 0) as (_ & C2 & _ & _ & C5 & C6).
  assert (Hm : Forall (fun e => made_by_launchChromeAndRun (snd e) = true)
                      (log (launchChromeAndRun env s1 t1))).
  { eapply Forall_impl; [|exact I1]. cbn. tauto. }
  destruct (invoked_none _ Hm) as (N1 & N2 & _).
  assert (Hmi : Forall (fun e => made_by_launchChromeAndRun (snd e) = true)
                       (log (initPort env s0 0))).
  { destruct (initPort_made env s0 0) as (M1 & _).
    eapply Forall_impl; [|exact M1]. cbn. tauto. }
  destruct (invoked_none _ Hmi) as (N3 & _).
  split; [eexists; reflexivity|].
  split.
  { rewrite jobs_app, C6. cbn [app jobs]. exact J1. }
  split.
  { rewrite count_app, C2, count_cons. cbn [snd is_kill Nat.add]. exact K1. }
  split.
  { rewrite count_app, C5, count_cons. cbn [snd is_exit Nat.add]. exact N2. }
  split.
  { rewrite invoked_app, N3. cbn [app invoked]. exact N1. }
  destruct (replay_frame
              (log (initPort env s0 0) ++
               (t1, EvOnSigint) :: log (launchChromeAndRun env s1 t1)) s0)
    as (_ & _ & _ & _ & R5 & _).
  rewrite R5, count_app, count_cons, Hs. cbn [snd is_shift Nat.add].
  rewrite (initPort_no_shift env s0 0). apply skipn_all.
Qed.

Lemma run_succeeds_witness :
  (exists T, termination (execute env_html_fails store_two)
             = RunFulfilled T) /\
  jobs (trace (execute env_html_fails store_two))
    = urls (cliFlags store_two) /\
  count is_kill (trace (execute env_html_fails store_two)) = 1 /\
  count is_exit (trace (execute env_html_fails store_two)) = 0 /\
  invoked (trace (execute env_html_fails store_two)) = [] /\
  urls (cliFlags (final_store env_html_fails store_two)) = [].
Proof.
  apply run_succeeds; try reflexivity.
  - intros u. left. exists 1, tt. reflexivity.
  - intros a f u. eexists _, _. reflexivity.
  - intros r u. exists 2, r. reflexivity.
  - intros u. exists 1, tt. reflexivity.
Defined.

(** ** The ways out *)

Lemma invoked_upto (t : Time) (l : Log) :
  invoked l = [] -> invoked (upto t l) = [].
Proof.
  unfold upto. induction l as [|[u e] l IH]; [reflexivity|].
  cbn [filter fst]. destruct (Nat.leb u t);
    destruct e; cbn [invoked]; try exact IH; discriminate.
Qed.

Lemma race_other {A} (env : Env) (p : Task A) (s : Store) (t : Time)
      (x : JsValue) :
  settle (race_isSigint env p s t) = Rejected x ->
  is_SIGINT x = false ->
  race_isSigint env p s t = p s t.
Proof.
  unfold race_isSigint. destruct (sigint env) as [ts|]; [|reflexivity].
  destruct (Nat.leb t ts && negb (settled_by ts (p s t)));
    [|reflexivity].
  cbn [settle]. intros H; injection H as <-. discriminate.
Qed.

Lemma race_never_exits (env : Env) (s : Store) (t : Time) (c : Z) :
  settle (race_isSigint env (launchChromeAndRun env) s t) <> Exited c.
Proof.
  unfold race_isSigint.
  destruct (launchChromeAndRun_effects_aux env s t) as (_ & Hx).
  destruct (sigint env) as [ts|]; [|apply Hx].
  destruct (Nat.leb t ts && negb (settled_by ts _));
    [discriminate|apply Hx].
Qed.

Lemma launchChromeAndRun_quiet (env : Env) (s : Store) (t : Time) :
  invoked (log (launchChromeAndRun env s t)) = [] /\
  count is_exit (log (launchChromeAndRun env s t)) = 0.
Proof.
  destruct (launchChromeAndRun_effects_aux env s t) as (Hm & _).
  assert (Hm' : Forall (fun e => made_by_launchChromeAndRun (snd e) = true)
                       (log (launchChromeAndRun env s t))).
  { eapply Forall_impl; [|exact Hm]. cbn. tauto. }
  destruct (invoked_none _ Hm') as (N1 & N2 & _). split; assumption.
Qed.

Lemma initPort_quiet (env : Env) (s : Store) (t : Time) :
  invoked (log (initPort env s t)) = [].
Proof. port_cases env s t; reflexivity. Qed.

(** X14.  Whenever the process is ended with an exit code other than
    130, that is through [handleError], no cleanup function has been
    called; and if Chrome was to be launched, the kill function of the
    launcher had been registered by then. *)
Theorem error_exit_runs_no_cleanup (env : Env) (s0 : Store) (t : Time)
        (c : Z) :
  termination (execute env s0) = Exit t c ->
  c <> 130%Z ->
  invoked (trace (execute env s0)) = [] /\
  (skipAutolaunch (cliFlags s0) = false ->
   In (now (initPort env s0 0), EvMutate (MRegister ActKill))
      (trace (execute env s0))).
Proof.
  intros Hterm Hc. apply termination_exit in Hterm.
  destruct Hterm as (Hs & Hn & ->).
  destruct (initPort_made env s0 0) as (_ & _ & M3).
  destruct (M3 tt) as [E|E];
    [|destruct (run_unresolved env s0) as (Hr & _); [congruence|];
      rewrite Hr in Hs; congruence].
  destruct (skipAutolaunch (cliFlags s0)) eqn:Hskip.
  - split; [|discriminate]. apply invoked_upto.
    destruct (run_skip_inv env s0 Hskip) as (Ht & _).
    apply count_zero in Ht.
    induction Ht as [|[u e] l He Hl IH]; [reflexivity|].
    cbn in He. destruct e; try discriminate; exact IH.
  - set (s1 := store (initPort env s0 0)) in *.
    set (t1 := now (initPort env s0 0)) in *.
    assert (Hrun := run_autolaunch env s0 _ Hskip E eq_refl).
    fold s1 t1 in Hrun.
    pose proof (initPort_supplied env s1 t1
                  (proj2 (proj2 (initPort_frame env s0 0)) E)) as Hinit1.
    assert (E1 : settle (initPort env s1 t1) = Fulfilled tt)
      by (rewrite Hinit1; reflexivity).
    destruct (settle (race_isSigint env (launchChromeAndRun env) s1 t1))
      as [a|x| |c'] eqn:Er.
    + rewrite catch_not_rejected in Hrun by (rewrite Er; discriminate).
      rewrite Hrun in Hs. cbn [settle] in Hs. congruence.
    + rewrite (catch_rejected _ _ _ _ x Er) in Hrun.
      cbn [settle now store log] in Hrun. unfold on_rejection in Hrun.
      destruct (is_SIGINT x) eqn:Hx.
      * exfalso. rewrite Hrun in Hs. cbn [settle] in Hs.
        apply cleanup_exit_code in Hs. contradiction.
      * pose proof (race_other env _ _ _ x Er Hx) as Hrace.
        rewrite Hrace in Hrun.
        destruct (handleError_exits x
                    (store (launchChromeAndRun env s1 t1))
                    (now (launchChromeAndRun env s1 t1))) as (_ & Hnow).
        destruct (handleError_log x
                    (store (launchChromeAndRun env s1 t1))
                    (now (launchChromeAndRun env s1 t1)))
          as (_ & _ & _ & Hinv & _).
        destruct (launchChromeAndRun_quiet env s1 t1) as (Hq & _).
        rewrite Hrun in Hn |- *. cbn [now log] in Hn |- *.
        rewrite Hnow in Hn. split.
        -- apply invoked_upto.
           rewrite invoked_app, (initPort_quiet env s0 0).
           cbn [app invoked]. rewrite invoked_app, Hq, Hinv. reflexivity.
        -- intros _. apply in_upto.
           ++ apply in_or_app. right. right. apply in_or_app. left.
              rewrite (launchChromeAndRun_fulfilled_port env s1 t1 E1).
              cbn [log]. apply in_or_app. right. cbn [app]. right. left.
              rewrite Hinit1. reflexivity.
           ++ cbn [fst]. rewrite <- Hn.
              destruct (launchChromeAndRun_inv env s1 t1 E1)
                as (_ & _ & _ & _ & _ & _ & _ & _ & _ & I10).
              rewrite Hinit1 in I10. exact I10.
    + rewrite catch_not_rejected in Hrun by (rewrite Er; discriminate).
      rewrite Hrun in Hs. cbn [settle] in Hs. congruence.
    + exfalso. exact (race_never_exits env s1 t1 c' Er).
Qed.

Lemma error_exit_runs_no_cleanup_witness :
  invoked (trace (execute env_job_fails store_two)) = [] /\
  In (0, EvMutate (MRegister ActKill))
     (trace (execute env_job_fails store_two)).
Proof.
  destruct (error_exit_runs_no_cleanup env_job_fails store_two 5 1
              eq_refl) as (H1 & H2); [discriminate|].
  exact (conj H1 (H2 eq_refl)).
Defined.

(** X15.  The handler of the race tells an interrupt by the reason
    alone.  When, without any signal, [launchChromeAndRun] is rejected
    with the string SIGINT, the run goes the way of an interrupt: the
    registered kill function is called at that instant, and the process
    exits with 130 when the promise of [launcher.kill()] settles, and
    never if it does not settle. *)
Theorem rejection_named_SIGINT (env : Env) (s0 : Store) :
  sigint env = None ->
  skipAutolaunch (cliFlags s0) = false ->
  fns s0 = [] ->
  settle (initPort env s0 0) = Fulfilled tt ->
  settle (pipeline env s0) = Rejected (VStr "SIGINT") ->
  In (now (pipeline env s0), EvInvoke ActKill) (trace (execute env s0)) /\
  (forall d, settles_after (launcher_kill env (now (pipeline env s0))) d ->
     termination (execute env s0)
       = Exit (now (pipeline env s0) + d) 130) /\
  (launcher_kill env (now (pipeline env s0)) = Hang ->
     termination (execute env s0) = NeverSettles).
Proof.
  intros Hsig Hskip Hfns E Hp. unfold pipeline in *.
  set (s1 := store (initPort env s0 0)) in *.
  set (t1 := now (initPort env s0 0)) in *.
  assert (Hrun := run_autolaunch env s0 _ Hskip E eq_refl).
  fold s1 t1 in Hrun.
  rewrite (catch_ext _ _ (on_rejection env) s1 t1
             (race_none env (launchChromeAndRun env) s1 t1 Hsig)) in Hrun.
  rewrite (catch_rejected _ _ _ _ _ Hp) in Hrun.
  cbn [settle now store log] in Hrun. unfold on_rejection in Hrun.
  change (is_SIGINT (VStr "SIGINT")) with true in Hrun. cbv iota in Hrun.
  pose proof (initPort_supplied env s1 t1
                (proj2 (proj2 (initPort_frame env s0 0)) E)) as Hinit1.
  assert (E1 : settle (initPort env s1 t1) = Fulfilled tt)
    by (rewrite Hinit1; reflexivity).
  destruct (launchChromeAndRun_inv env s1 t1 E1)
    as (_ & _ & _ & _ & _ & I6 & _).
  assert (HS : fns (store (launchChromeAndRun env s1 t1)) = [ActKill]).
  { rewrite I6. unfold s1.
    rewrite (proj1 (initPort_frame env s0 0)), Hfns. reflexivity. }
  set (S := store (launchChromeAndRun env s1 t1)) in *.
  set (T := now (launchChromeAndRun env s1 t1)) in *.
  rewrite (execute_without_sigint env s0 Hsig E), Hrun.
  cbn [settle now log].
  destruct (launcher_kill env T) as [d a|d x|] eqn:Ek.
  - rewrite (cleanup_single_fulfil env S T d a HS Ek).
    cbn [settle now log trace termination settles_after].
    split; [|split].
    + apply in_upto; [|cbn; lia]. in_log.
    + intros d' <-. reflexivity.
    + discriminate.
  - rewrite (cleanup_single_reject env S T d x HS Ek).
    cbn [settle now log trace termination settles_after].
    split; [|split].
    + apply in_upto; [|cbn; lia]. in_log.
    + intros d' <-. reflexivity.
    + discriminate.
  - rewrite (cleanup_single_hang env S T HS Ek).
    cbn [settle now log trace termination settles_after].
    split; [|split].
    + in_log.
    + intros d' [].
    + reflexivity.
Qed.

Lemma rejection_named_SIGINT_witness :
  In (5, EvInvoke ActKill) (trace (execute env_job_says_sigint store_two)) /\
  termination (execute env_job_says_sigint store_two) = Exit 6 130.
Proof.
  destruct (rejection_named_SIGINT env_job_says_sigint store_two
              eq_refl eq_refl eq_refl eq_refl eq_refl) as (H1 & H2 & _).
  exact (conj H1 (H2 1 eq_refl)).
Defined.

Lemma count_upto_in (f : Event -> bool) (T : Time) (l : Log)
      (e : Time * Event) :
  In e l -> fst e <= T -> f (snd e) = true -> count f l <= 1 ->
  count f (upto T l) = 1.
Proof.
  intros Hin Hle Hf H1.
  pose proof (count_upto f T l).
  pose proof (count_in f e (upto T l) (in_upto T e l Hin Hle) Hf).
  lia.
Qed.

Lemma count_upto_none (f : Event -> bool) (T : Time) (l : Log) :
  count f l = 0 -> count f (upto T l) = 0.
Proof. intros H. pose proof (count_upto f T l). lia. Qed.


Lemma upto_cons (T : Time) (e : Time * Event) (l : Log) :
  upto T (e :: l) = if Nat.leb (fst e) T then e :: upto T l else upto T l.
Proof. reflexivity. Qed.

Lemma upto_all (T : Time) (l : Log) :
  Forall (fun e => fst e <= T) l -> upto T l = l.
Proof.
  induction 1 as [|[u e] l He Hl IH]; [reflexivity|].
  rewrite upto_cons, IH. cbn [fst] in *.
  apply Nat.leb_le in He. rewrite He. reflexivity.
Qed.

(** A log made of the port resolution, the listener, the pipeline and
    the cleanup, cut at a time by which the cleanup is over. *)
Lemma killed_twice (li lp lc : Log) (t1 tk T : Time) :
  t1 <= T -> tk <= T ->
  Forall (fun e => fst e <= T) lc ->
  count is_kill li = 0 -> invoked li = [] ->
  count is_kill lp <= 1 -> invoked lp = [] ->
  In (tk, EvCall OpLauncherKill) lp ->
  count is_kill lc = 1 -> invoked lc = [ActKill] ->
  count is_kill (upto T (li ++ (t1, EvOnSigint) :: lp ++ lc)) = 2 /\
  In (tk, EvCall OpLauncherKill)
     (upto T (li ++ (t1, EvOnSigint) :: lp ++ lc)) /\
  invoked (upto T (li ++ (t1, EvOnSigint) :: lp ++ lc)) = [ActKill].
Proof.
  intros H1 Hk Hc Ki Ii Kp Ip Hin Kc Ic.
  rewrite upto_app, upto_cons. cbn [fst].
  apply Nat.leb_le in H1. rewrite H1.
  rewrite upto_app, (upto_all T lc Hc).
  split; [|split].
  - rewrite count_app, count_cons, count_app.
    rewrite (count_upto_none _ _ _ Ki), Kc.
    rewrite (count_upto_in is_kill T lp _ Hin Hk eq_refl Kp).
    reflexivity.
  - apply in_or_app. right. right. apply in_or_app. left.
    apply in_upto; assumption.
  - rewrite invoked_app, (invoked_upto T li Ii). cbn [app invoked].
    rewrite invoked_app, (invoked_upto T lp Ip), Ic. reflexivity.
Qed.

(** X16.  An interrupt that arrives when [launchChromeAndRun] has
    called [launcher.kill()] at the end of its chain, and that call has
    not settled, makes the registered kill function call
    [launcher.kill()] again: Chrome is killed twice. *)
Theorem interrupt_while_killing (env : Env) (s0 : Store) (ts tk : Time) :
  sigint env = Some ts ->
  skipAutolaunch (cliFlags s0) = false ->
  fns s0 = [] ->
  settle (initPort env s0 0) = Fulfilled tt ->
  now (initPort env s0 0) <= ts ->
  settled_by ts (pipeline env s0) = false ->
  In (tk, EvCall OpLauncherKill) (log (pipeline env s0)) ->
  tk <= ts ->
  count is_kill (trace (execute env s0)) = 2 /\
  In (tk, EvCall OpLauncherKill) (trace (execute env s0)) /\
  In (ts, EvCall OpLauncherKill) (trace (execute env s0)) /\
  invoked (trace (execute env s0)) = [ActKill].
Proof.
  intros Hsig Hskip Hfns E Hle Hp Hin Hk.
  destruct (run_interrupted env s0 ts Hsig Hskip Hfns E Hle Hp)
    as (S & HS & Hrun).
  rewrite (execute_handled env s0 _ ts _ _ _ Hrun Hsig eq_refl Hle E).
  cbn [settle now log].
  assert (K1 : count is_kill (log (pipeline env s0)) <= 1).
  { unfold pipeline.
    pose proof (initPort_supplied env (store (initPort env s0 0))
                  (now (initPort env s0 0))
                  (proj2 (proj2 (initPort_frame env s0 0)) E)) as Hinit1.
    apply launchChromeAndRun_inv. rewrite Hinit1. reflexivity. }
  destruct (initPort_counts env s0 0) as (_ & C2 & _).
  pose proof (initPort_quiet env s0 0) as Qi.
  assert (Qp : invoked (log (pipeline env s0)) = [])
    by (unfold pipeline; apply launchChromeAndRun_quiet).
  assert (Hin1 : 1 <= count is_kill (log (pipeline env s0)))
    by (apply (count_in _ _ _ Hin); reflexivity).
  destruct (launcher_kill env ts) as [d a|d x|] eqn:Ek.
  - rewrite (cleanup_single_fulfil env S ts d a HS Ek).
    cbn [settle now log trace termination].
    destruct (killed_twice (log (initPort env s0 0)) (log (pipeline env s0))
                [(ts, EvInvoke ActKill); (ts, EvCall OpLauncherKill);
                 (ts + d, EvSettled OpLauncherKill true);
                 (ts + d, EvExit _ERROR_EXIT_CODE)]
                (now (initPort env s0 0)) tk (ts + d))
      as (R1 & R2 & R3); try assumption; try reflexivity; try lia.
    { repeat constructor; cbn; lia. }
    split; [exact R1|]. split; [exact R2|]. split; [|exact R3].
    apply in_upto; [|cbn; lia]. in_log.
  - rewrite (cleanup_single_reject env S ts d x HS Ek).
    cbn [settle now log trace termination].
    destruct (killed_twice (log (initPort env s0 0)) (log (pipeline env s0))
                [(ts, EvInvoke ActKill); (ts, EvCall OpLauncherKill);
                 (ts + d, EvSettled OpLauncherKill false);
                 (ts + d, EvConsoleError [AVal x]);
                 (ts + d, EvConsoleError [match stack_of x with
                                          | Some st => AStr st
                                          | None => AUndefined
                                          end]);
                 (ts + d, EvExit _ERROR_EXIT_CODE)]
                (now (initPort env s0 0)) tk (ts + d))
      as (R1 & R2 & R3); try assumption; try reflexivity; try lia.
    { repeat constructor; cbn; lia. }
    split; [exact R1|]. split; [exact R2|]. split; [|exact R3].
    apply in_upto; [|cbn; lia]. in_log.
  - rewrite (cleanup_single_hang env S ts HS Ek).
    cbn [settle now log trace termination].
    split; [|split; [|split]].
    + rewrite count_app, C2, count_cons, count_app.
      cbn [snd is_kill Nat.add count filter length]. lia.
    + apply in_or_app. right. right. apply in_or_app. left. exact Hin.
    + in_log.
    + rewrite invoked_app, Qi. cbn [app invoked].
      rewrite invoked_app, Qp. reflexivity.
Qed.

Lemma interrupt_while_killing_witness :
  count is_kill (trace (execute env_interrupt_at_kill store_two)) = 2 /\
  invoked (trace (execute env_interrupt_at_kill store_two)) = [ActKill].
Proof.
  assert (H : In (25, EvCall OpLauncherKill)
                 (log (pipeline env_interrupt_at_kill store_two)))
    by (vm_compute; in_list).
  destruct (interrupt_while_killing env_interrupt_at_kill store_two 25 25
              eq_refl eq_refl eq_refl eq_refl (le_0_n 25) eq_refl H
              (le_n 25)) as (H1 & _ & _ & H4).
  exact (conj H1 H4).
Defined.

Lemma upto_later (T : Time) (l : Log) :
  Forall (fun e => T < fst e) l ->
  upto T l = [] /\ listening_by T l = false.
Proof.
  induction 1 as [|[u e] l He Hl (IH1 & IH2)]; [split; reflexivity|].
  cbn [fst] in He. apply Nat.leb_gt in He.
  rewrite upto_cons. cbn [fst]. rewrite He. split; [exact IH1|].
  unfold listening_by in *. cbn [existsb snd fst]. rewrite IH2, He.
  destruct e; reflexivity.
Qed.

Lemma listening_by_app (T : Time) (l l' : Log) :
  listening_by T (l ++ l') = listening_by T l || listening_by T l'.
Proof. unfold listening_by. apply existsb_app. Qed.

Lemma run_then_later (env : Env) (s : Store) (t : Time) :
  t <= now (run_then env s t) /\
  Forall (fun e => t <= fst e) (log (run_then env s t)).
Proof.
  assert (H : sat (fun _ => True) (fun _ => True) (fun _ => True)
                  (fun _ => True) (run_then env))
    by (apply sat_run_then; auto).
  destruct (H s t Logic.I) as (H1 & H2 & _). split; [exact H1|].
  eapply Forall_impl; [|exact H2]. cbn. tauto.
Qed.

(** X17.  The listener for SIGINT is not there while the port is being
    resolved.  An interrupt delivered before [initPort] has settled, with
    or without [--skip-autolaunch], finds no listener: none of the
    program's code runs for it, no cleanup and no [process.exit], and
    all the program has done by then is what [initPort] did. *)
Theorem interrupt_before_port_resolved (env : Env) (s0 : Store)
        (ts : Time) :
  sigint env = Some ts ->
  settled_by ts (initPort env s0 0) = false ->
  termination (execute env s0) = DefaultSigint ts /\
  trace (execute env s0) = upto ts (log (initPort env s0 0)) /\
  invoked (trace (execute env s0)) = [] /\
  count is_exit (trace (execute env s0)) = 0 /\
  count touches_chrome (trace (execute env s0)) = 0.
Proof.
  intros Hsig Hset.
  assert (Hrun : settled_by ts (run env s0 0) = false /\
                 listening_by ts (log (run env s0 0)) = false /\
                 upto ts (log (run env s0 0))
                 = upto ts (log (initPort env s0 0))).
  { destruct (initPort_made env s0 0) as (_ & _ & M3).
    pose proof (no_listener ts _ (initPort_no_chrome env s0 0)) as Li.
    destruct (M3 tt) as [E|E].
    - assert (Hlt : ts < now (initPort env s0 0)).
      { unfold settled_by in Hset. rewrite E in Hset.
        apply Nat.leb_gt in Hset. exact Hset. }
      unfold run. rewrite (bind_fulfilled _ _ _ _ tt E).
      destruct (run_then_later env (store (initPort env s0 0))
                  (now (initPort env s0 0))) as (R1 & R2).
      destruct (upto_later ts (log (run_then env (store (initPort env s0 0))
                                      (now (initPort env s0 0)))))
        as (U1 & U2).
      { eapply Forall_impl; [|exact R2]. cbv beta. intros e He. lia. }
      cbn [log]. split; [|split].
      + unfold settled_by. cbn [settle now].
        assert (Hb : Nat.leb (now (run_then env (store (initPort env s0 0))
                                     (now (initPort env s0 0)))) ts = false)
          by (apply Nat.leb_gt; lia).
        rewrite Hb. cbn [log].
        rewrite thrown_by_app,
          (thrown_by_none ts _ (initPort_no_uncaught env s0 0 E)),
          (thrown_by_none ts _
             (run_then_no_uncaught env _ _
                (proj2 (proj2 (initPort_frame env s0 0)) E))).
        destruct (settle (run_then env _ _)); reflexivity.
      + rewrite listening_by_app, Li, U2. reflexivity.
      + rewrite upto_app, U1, app_nil_r. reflexivity.
    - destruct (run_unresolved env s0) as (-> & Hp); [congruence|].
      split; [exact Hset|]. split; [exact Li|reflexivity]. }
  destruct Hrun as (H1 & H2 & H3).
  unfold execute, unhandled_sigint. rewrite Hsig, H1, H2.
  cbn [negb andb termination trace]. rewrite H3.
  split; [reflexivity|]. split; [reflexivity|]. split; [|split].
  - apply invoked_upto, initPort_quiet.
  - apply count_upto_none. apply (initPort_counts env s0 0).
  - apply count_upto_none, initPort_no_chrome.
Qed.

Lemma interrupt_before_port_resolved_witness :
  termination (execute env_early_interrupt store_port0) = DefaultSigint 1 /\
  invoked (trace (execute env_early_interrupt store_port0)) = [].
Proof.
  destruct (interrupt_before_port_resolved env_early_interrupt store_port0
              1 eq_refl eq_refl) as (H1 & _ & H3 & _).
  exact (conj H1 H3).
Defined.

(** ** What is reported *)

Lemma bind_not_fulfilled {A B} (m : Task A) (f : A -> Task B) (s : Store)
      (t : Time) :
  (forall a s' t' b, settle (f a s' t') <> Fulfilled b) ->
  forall b, settle (bind m f s t) <> Fulfilled b.
Proof.
  intros Hf b. unfold bind. destruct (m s t) as [[a|x| |c] t1 s1 l1];
    cbn [settle]; try discriminate.
  specialize (Hf a s1 t1 b). destruct (f a s1 t1). exact Hf.
Qed.

Lemma cleanup_never_fulfilled (env : Env) (s : Store) (t : Time) (a : unit) :
  settle (cleanup_and_exit env s t) <> Fulfilled a.
Proof.
  unfold cleanup_and_exit. apply bind_not_fulfilled.
  intros p s' t' b. apply bind_not_fulfilled.
  intros _ s'' t'' b'. discriminate.
Qed.

Lemma handleError_now (err : JsValue) (s : Store) (t : Time) :
  Forall (fun e => fst e <= t) (log (handleError (A:=unit) err s t)).
Proof.
  unfold handleError.
  destruct (code_is err "ECONNREFUSED"); [repeat constructor|].
  destruct (code_is err "CRI_TIMEOUT"); [repeat constructor|].
  unfold showRuntimeError.
  destruct (stack_of err) as [st|]; [|repeat constructor].
  destruct (String.eqb st ""); repeat constructor.
Qed.

Lemma silent_made (l : Log) :
  Forall (fun e => made_by_lighthouseRun (snd e) = true) l ->
  count is_console_error l = 0 /\ count is_exit l = 0.
Proof.
  intros H. split; apply count_disjoint with (g := made_by_lighthouseRun);
    try exact H; other_kind.
Qed.

Lemma initPort_silent (env : Env) (s : Store) (t : Time) :
  count is_console_error (log (initPort env s t)) = 0.
Proof. port_cases env s t; reflexivity. Qed.

Lemma launchChromeAndRun_silent (env : Env) (s : Store) (t : Time) :
  count is_console_error (log (launchChromeAndRun env s t)) = 0.
Proof.
  destruct (launchChromeAndRun_effects_aux env s t) as (Hm & _).
  assert (Hm' : Forall (fun e => made_by_launchChromeAndRun (snd e) = true)
                       (log (launchChromeAndRun env s t))).
  { eapply Forall_impl; [|exact Hm]. cbn. tauto. }
  apply (invoked_none _ Hm').
Qed.

(** X18.  Failures are reported and successes are silent.  Whenever the
    process is ended with an exit code other than 130, that is by
    [showConnectionError], [showProtocolTimeoutError] or
    [showRuntimeError], something has been written to [console.error]
    before; and whenever the promise of [run] is fulfilled, nothing has
    been written to [console.error] and [process.exit] has not been
    called. *)
Theorem failures_are_reported (env : Env) (s0 : Store) :
  (forall t c, termination (execute env s0) = Exit t c -> c <> 130%Z ->
     1 <= count is_console_error (trace (execute env s0))) /\
  (forall t, termination (execute env s0) = RunFulfilled t ->
     count is_console_error (trace (execute env s0)) = 0 /\
     count is_exit (trace (execute env s0)) = 0).
Proof.
  destruct (initPort_made env s0 0) as (_ & _ & M3).
  pose proof (initPort_silent env s0 0) as Si.
  destruct (initPort_counts env s0 0) as (_ & _ & _ & _ & Xi & _).
  split.
  - intros t c Hterm Hc. apply termination_exit in Hterm.
    destruct Hterm as (Hs & Hn & ->).
    destruct (M3 tt) as [E|E];
      [|destruct (run_unresolved env s0) as (Hr & _); [congruence|];
        rewrite Hr in Hs; congruence].
    assert (Hshape : exists l x S,
               log (run env s0 0) = l ++ log (handleError (A:=unit) x S t)).
    { destruct (skipAutolaunch (cliFlags s0)) eqn:Hskip.
      - rewrite (run_skip env s0 Hskip E) in Hs, Hn |- *.
        destruct (urls (cliFlags s0)) as [|address rest];
          [discriminate|].
        destruct (is_truthy address); [|discriminate].
        cbn [settle now log] in Hs, Hn |- *.
        destruct (run_addresses_inv env (address :: rest)
                    (store (initPort env s0 0)) (now (initPort env s0 0)))
          as (_ & B2 & _).
        destruct (settle (run_addresses env (address :: rest)
                            (store (initPort env s0 0))
                            (now (initPort env s0 0)))) as [a|x| |c'] eqn:Er.
        + rewrite catch_not_rejected in Hs by (rewrite Er; discriminate).
          congruence.
        + rewrite (catch_rejected _ _ _ _ x Er) in Hn |- *.
          cbn [now log] in Hn |- *.
          rewrite (proj2 (handleError_exits x _ _)) in Hn. rewrite <- Hn.
          eexists _, x, _. rewrite app_assoc. reflexivity.
        + rewrite catch_not_rejected in Hs by (rewrite Er; discriminate).
          congruence.
        + exfalso. exact (B2 c' eq_refl).
      - assert (Hrun := run_autolaunch env s0 _ Hskip E eq_refl).
        destruct (settle (race_isSigint env (launchChromeAndRun env)
                            (store (initPort env s0 0))
                            (now (initPort env s0 0))))
          as [a|x| |c'] eqn:Er.
        + rewrite catch_not_rejected in Hrun by (rewrite Er; discriminate).
          rewrite Hrun in Hs. cbn [settle] in Hs. congruence.
        + rewrite (catch_rejected _ _ _ _ x Er) in Hrun.
          cbn [settle now store log] in Hrun. unfold on_rejection in Hrun.
          destruct (is_SIGINT x) eqn:Hx.
          * exfalso. rewrite Hrun in Hs. cbn [settle] in Hs.
            apply cleanup_exit_code in Hs. contradiction.
          * rewrite Hrun in Hn |- *. cbn [now log] in Hn |- *.
            rewrite (proj2 (handleError_exits x _ _)) in Hn. rewrite <- Hn.
            eexists _, x, _.
            rewrite app_comm_cons, !app_assoc. reflexivity.
        + rewrite catch_not_rejected in Hrun by (rewrite Er; discriminate).
          rewrite Hrun in Hs. cbn [settle] in Hs. congruence.
        + exfalso. exact (race_never_exits env _ _ c' Er). }
    destruct Hshape as (l & x & S & ->).
    rewrite upto_app, count_app, (upto_all t _ (handleError_now x S t)).
    destruct (handleError_log x S t)
      as (_ & _ & _ & _ & _ & _ & _ & _ & _ & H). lia.
  - intros t Hterm. apply termination_fulfilled in Hterm.
    destruct Hterm as ([a Hs] & _ & ->).
    destruct (M3 tt) as [E|E];
      [|destruct (run_unresolved env s0) as (Hr & _); [congruence|];
        rewrite Hr in Hs; congruence].
    destruct (skipAutolaunch (cliFlags s0)) eqn:Hskip.
    + rewrite (run_skip env s0 Hskip E) in Hs |- *.
      destruct (urls (cliFlags s0)) as [|address rest]; [discriminate|].
      destruct (is_truthy address); [|discriminate].
      cbn [settle log] in Hs |- *.
      destruct (silent_made _
                  (run_addresses_made env (address :: rest)
                     (store (initPort env s0 0))
                     (now (initPort env s0 0)))) as (Sr & Xr).
      destruct (settle (run_addresses env (address :: rest)
                          (store (initPort env s0 0))
                          (now (initPort env s0 0)))) as [b|x| |c'] eqn:Er;
        try (rewrite catch_not_rejected by (rewrite Er; discriminate);
             rewrite !count_app, Si, Xi, Sr, Xr; split; reflexivity).
      exfalso. rewrite (catch_rejected _ _ _ _ x Er) in Hs.
      cbn [settle] in Hs.
      rewrite (proj1 (handleError_exits x _ _)) in Hs. discriminate.
    + assert (Hrun := run_autolaunch env s0 _ Hskip E eq_refl).
      destruct (launchChromeAndRun_quiet env (store (initPort env s0 0))
                  (now (initPort env s0 0))) as (_ & Xl).
      pose proof (launchChromeAndRun_silent env (store (initPort env s0 0))
                    (now (initPort env s0 0))) as Sl.
      destruct (settle (race_isSigint env (launchChromeAndRun env)
                          (store (initPort env s0 0))
                          (now (initPort env s0 0))))
        as [b|x| |c'] eqn:Er;
        try (rewrite catch_not_rejected in Hrun
               by (rewrite Er; discriminate);
             rewrite Hrun; cbn [log];
             rewrite !count_app, Si, Xi, !count_cons, race_log, Sl, Xl;
             split; reflexivity).
      exfalso. rewrite (catch_rejected _ _ _ _ x Er) in Hrun.
      rewrite Hrun in Hs. cbn [settle] in Hs. unfold on_rejection in Hs.
      destruct (is_SIGINT x).
      * exact (cleanup_never_fulfilled env _ _ a Hs).
      * rewrite (proj1 (handleError_exits x _ _)) in Hs. discriminate.
Qed.

Lemma failures_are_reported_witness :
  1 <= count is_console_error (trace (execute env_job_fails store_two)) /\
  count is_console_error (trace (execute env_quiet store_two)) = 0.
Proof.
  split.
  - refine (proj1 (failures_are_reported env_job_fails store_two) 5 1%Z
              eq_refl _).
    discriminate.
  - exact (proj1 (proj2 (failures_are_reported env_quiet store_two) 26
                    eq_refl)).
Defined.

(** ** When the promise of [run] is rejected *)

Lemma cleanup_single_settles (env : Env) (s : Store) (t : Time)
      (x : JsValue) :
  fns s = [ActKill] ->
  settle (cleanup_and_exit env s t) <> Rejected x.
Proof.
  intros Hf. destruct (launcher_kill env t) as [d a|d y|] eqn:Ek.
  - rewrite (cleanup_single_fulfil env s t d a Hf Ek). discriminate.
  - rewrite (cleanup_single_reject env s t d y Hf Ek). discriminate.
  - rewrite (cleanup_single_hang env s t Hf Ek). discriminate.
Qed.

Lemma race_store_fns (env : Env) (s : Store) (t : Time) (x : JsValue) :
  port (cliFlags s) <> 0%Z ->
  settle (race_isSigint env (launchChromeAndRun env) s t) = Rejected x ->
  fns (store (race_isSigint env (launchChromeAndRun env) s t))
  = fns s ++ [ActKill].
Proof.
  intros Hp. unfold race_isSigint.
  assert (E : settle (initPort env s t) = Fulfilled tt)
    by (rewrite (initPort_supplied env s t Hp); reflexivity).
  destruct (launchChromeAndRun_inv env s t E)
    as (_ & _ & _ & _ & _ & I6 & _).
  destruct (sigint env) as [ts|]; [|intros _; exact I6].
  destruct (Nat.leb t ts && negb (settled_by ts (launchChromeAndRun env s t)))
    eqn:Hb; [|intros _; exact I6].
  intros _. cbn [store]. apply andb_true_iff in Hb. destruct Hb as (Hle & _).
  apply Nat.leb_le in Hle. apply fns_at_interrupt; assumption.
Qed.

(** X19.  The promise that [run] returns is rejected in one way only.
    Called with an empty cleanup registry, and with collaborators whose
    promises are rejected with strings or error objects, [run] catches
    every failure and ends the process, so that its promise is never
    rejected, except with [--skip-autolaunch] when the list of addresses
    is empty or starts with an empty string: the reason is then the
    TypeError of calling [.catch] on [undefined]. *)
Theorem run_is_rejected_only_without_address (env : Env) (s0 : Store)
        (x : JsValue) :
  fns s0 = [] ->
  settle (run env s0 0) = Rejected x ->
  skipAutolaunch (cliFlags s0) = true /\
  x = catch_of_undefined /\
  (urls (cliFlags s0) = [] \/ exists rest, urls (cliFlags s0) = "" :: rest).
Proof.
  intros Hfns Hs.
  destruct (initPort_made env s0 0) as (_ & _ & M3).
  destruct (M3 tt) as [E|E];
    [|destruct (run_unresolved env s0) as (Hr & _); [congruence|];
      rewrite Hr in Hs; congruence].
  destruct (skipAutolaunch (cliFlags s0)) eqn:Hskip.
  - split; [reflexivity|].
    rewrite (run_skip env s0 Hskip E) in Hs.
    destruct (urls (cliFlags s0)) as [|address rest].
    + cbn [settle] in Hs. injection Hs as <-. auto.
    + destruct (is_truthy address) eqn:Ht.
      * exfalso. cbn [settle] in Hs.
        destruct (settle (run_addresses env (address :: rest)
                            (store (initPort env s0 0))
                            (now (initPort env s0 0)))) as [a|y| |c] eqn:Er;
          try (rewrite catch_not_rejected in Hs
                 by (rewrite Er; discriminate); congruence).
        rewrite (catch_rejected _ _ _ _ y Er) in Hs. cbn [settle] in Hs.
        rewrite (proj1 (handleError_exits y _ _)) in Hs. discriminate.
      * cbn [settle] in Hs. injection Hs as <-. split; [reflexivity|].
        right. exists rest. f_equal.
        unfold is_truthy in Ht. apply negb_false_iff in Ht.
        apply String.eqb_eq in Ht. exact Ht.
  - exfalso.
    assert (Hrun := run_autolaunch env s0 _ Hskip E eq_refl).
    rewrite Hrun in Hs. cbn [settle] in Hs.
    destruct (initPort_frame env s0 0) as (F1 & _ & F3).
    destruct (settle (race_isSigint env (launchChromeAndRun env)
                        (store (initPort env s0 0))
                        (now (initPort env s0 0)))) as [a|y| |c] eqn:Er;
      try (rewrite catch_not_rejected in Hs by (rewrite Er; discriminate);
           congruence).
    pose proof (race_store_fns env _ _ y (F3 E) Er) as Hf.
    rewrite F1, Hfns in Hf.
    rewrite (catch_rejected _ _ _ _ y Er) in Hs. cbn [settle] in Hs.
    unfold on_rejection in Hs. destruct (is_SIGINT y).
    + exact (cleanup_single_settles env _ _ x Hf Hs).
    + rewrite (proj1 (handleError_exits y _ _)) in Hs. discriminate.
Qed.

Lemma run_is_rejected_only_without_address_witness :
  skipAutolaunch (cliFlags store_skip_empty_first) = true /\
  (urls (cliFlags store_skip_empty_first) = [] \/
   exists rest, urls (cliFlags store_skip_empty_first) = "" :: rest).
Proof.
  destruct (run_is_rejected_only_without_address env_quiet
              store_skip_empty_first catch_of_undefined eq_refl eq_refl)
    as (H1 & _ & H3).
  exact (conj H1 H3).
Defined.

(** ** What the program writes to its configuration *)

Lemma jobs_count (l : Log) : length (jobs l) = count is_job l.
Proof.
  induction l as [|[u e] l IH]; [reflexivity|].
  rewrite count_cons. cbn [snd].
  destruct e as [| | | | | | | |o| | | | |]; cbn [jobs is_job]; try exact IH.
  destruct o; cbn [jobs is_job length]; rewrite ?IH; reflexivity.
Qed.

(** Events that neither take an address nor start a Lighthouse run. *)
Lemma other_than_lighthouseRun (e : Event) :
  made_by_lighthouseRun e = false ->
  is_shift e = false /\ is_job e = false.
Proof.
  destruct e as [| | | | | | |m|o| | | | |]; cbn; try (split; reflexivity).
  - destruct m; cbn; try discriminate; split; reflexivity.
  - destruct o; cbn; try discriminate; split; reflexivity.
Qed.

Lemma quiet_other (l : Log) :
  Forall (fun e => made_by_lighthouseRun (snd e) = false) l ->
  Forall (fun e => is_shift (snd e) = false /\ is_job (snd e) = false) l.
Proof.
  intros H. eapply Forall_impl; [|exact H].
  intros e. apply other_than_lighthouseRun.
Qed.

Lemma quiet_counts (T : Time) (l : Log) :
  Forall (fun e => is_shift (snd e) = false /\ is_job (snd e) = false) l ->
  count is_job l = 0 /\ count is_shift l = 0 /\
  count is_job (upto T l) = 0 /\ count is_shift (upto T l) = 0.
Proof.
  intros H.
  assert (Hj : count is_job l = 0).
  { apply count_none. eapply Forall_impl; [|exact H]. cbn. tauto. }
  assert (Hs : count is_shift l = 0).
  { apply count_none. eapply Forall_impl; [|exact H]. cbn. tauto. }
  repeat split; try assumption; apply count_upto_none; assumption.
Qed.

Lemma taken_step (T t : Time) (a : Address) (l : Log) :
  count is_job (upto T l) <= count is_shift (upto T l) ->
  count is_job (upto T ((t, EvMutate MShift) ::
                        (t, EvCall (OpLighthouse a)) :: l))
  <= count is_shift (upto T ((t, EvMutate MShift) ::
                             (t, EvCall (OpLighthouse a)) :: l)).
Proof.
  intros H. rewrite !upto_cons. cbn [fst].
  destruct (Nat.leb t T); [|exact H].
  rewrite !count_cons. cbn [snd is_shift is_job]. lia.
Qed.

Lemma taken_quiet (T : Time) (l l' : Log) :
  Forall (fun e => is_shift (snd e) = false /\ is_job (snd e) = false) l ->
  count is_job (upto T l') <= count is_shift (upto T l') ->
  count is_job (upto T (l ++ l')) <= count is_shift (upto T (l ++ l')).
Proof.
  intros Hl H. rewrite upto_app, !count_app.
  destruct (quiet_counts T l Hl) as (_ & _ & -> & ->). exact H.
Qed.

Lemma secondary_log_quiet (env : Env) (s : Store) (address : Address)
      (results : Results) (t : Time) :
  Forall (fun e => is_shift (snd e) = false /\ is_job (snd e) = false)
         (secondary_log env s address results t).
Proof.
  unfold secondary_log, secondary_events.
  destruct (String.eqb _ _); [|constructor].
  destruct (Printer_write env results "html" _ t);
    repeat constructor.
Qed.

(** Whenever the process ends, every Lighthouse run that has been
    started has had its address taken off the list. *)
Lemma run_addresses_taken (env : Env) (T : Time)
      (addresses : list Address) (s : Store) (t : Time) :
  count is_job (upto T (log (run_addresses env addresses s t)))
  <= count is_shift (upto T (log (run_addresses env addresses s t))).
Proof.
  revert s t. induction addresses as [|address rest IH]; intros s t.
  - rewrite run_addresses_nil. cbn. lia.
  - destruct (is_truthy address) eqn:Ht.
    + rewrite (run_addresses_cons env address rest s t Ht).
      destruct (lighthouse env address (cliFlags (apply_mutation MShift s)) t)
        as [d1 results|d x|].
      * destruct (Printer_write env results (output (cliFlags s))
                    (output_path (cliFlags s)) (t + d1))
          as [d2 results'|d x|]; cbn [log app]; apply taken_step.
        -- apply (taken_quiet T [_; _; _]); [repeat constructor|].
           apply taken_quiet; [apply secondary_log_quiet|apply IH].
        -- apply (taken_quiet T [_; _; _] []); [repeat constructor|].
           cbn. lia.
        -- apply (taken_quiet T [_; _] []); [repeat constructor|].
           cbn. lia.
      * cbn [log]. apply taken_step.
        apply (taken_quiet T [_] []); [repeat constructor|]. cbn. lia.
      * cbn [log]. apply taken_step. cbn. lia.
    + rewrite (run_addresses_falsy env address rest s t Ht). cbn [log].
      rewrite upto_cons. cbn [fst]. destruct (Nat.leb t T); cbn; lia.
Qed.

Lemma handleError_quiet (err : JsValue) (s : Store) (t : Time) :
  Forall (fun e => is_shift (snd e) = false /\ is_job (snd e) = false)
         (log (handleError (A:=unit) err s t)).
Proof.
  unfold handleError, showConnectionError, showProtocolTimeoutError,
    showRuntimeError.
  destruct (code_is err "ECONNREFUSED"); [repeat constructor|].
  destruct (code_is err "CRI_TIMEOUT"); [repeat constructor|].
  destruct (stack_of err) as [st|]; [|repeat constructor].
  destruct (String.eqb st ""); repeat constructor.
Qed.

Lemma cleanup_and_exit_quiet (env : Env) (s : Store) (t : Time) :
  Forall (fun e => is_shift (snd e) = false /\ is_job (snd e) = false)
         (log (cleanup_and_exit env s t)).
Proof.
  assert (H : sat (fun _ => True)
                  (fun e => is_shift e = false /\ is_job e = false)
                  (fun _ => True) (fun _ => True) (cleanup_and_exit env)).
  { unfold cleanup_and_exit, doCleanup, console_error.
    apply sat_bind with (R1 := fun _ => True).
    - apply sat_bind with (R1 := fun _ => True); [apply sat_get|].
      intros s' _. apply sat_bind with (R1 := fun _ => True).
      + apply sat_registry; repeat split.
      + intros ps _. apply sat_ret. exact Logic.I.
    - intros p _. apply sat_bind with (R1 := fun _ => True).
      + apply sat_catch; [apply sat_await|]. intros x.
        apply sat_bind with (R1 := fun _ => True);
          apply sat_emit || intros _ _; try (split; reflexivity).
        apply sat_emit. split; reflexivity.
      + intros _ _. apply sat_process_exit; [split; reflexivity|exact Logic.I]. }
  destruct (H s t Logic.I) as (_ & Hl & _).
  eapply Forall_impl; [|exact Hl]. cbn. tauto.
Qed.

Lemma on_rejection_quiet (env : Env) (x : JsValue) (s : Store) (t : Time) :
  Forall (fun e => is_shift (snd e) = false /\ is_job (snd e) = false)
         (log (on_rejection env x s t)) /\
  forall a, settle (on_rejection env x s t) <> Fulfilled a.
Proof.
  unfold on_rejection. destruct (is_SIGINT x).
  - split; [apply cleanup_and_exit_quiet|].
    intros a. apply cleanup_never_fulfilled.
  - split; [apply handleError_quiet|].
    intros a. rewrite (proj1 (handleError_exits x s t)). discriminate.
Qed.

Lemma race_fulfilled {A} (env : Env) (p : Task A) (s : Store) (t : Time)
      (a : A) :
  settle (race_isSigint env p s t) = Fulfilled a ->
  race_isSigint env p s t = p s t.
Proof.
  unfold race_isSigint. destruct (sigint env) as [ts|]; [|reflexivity].
  destruct (Nat.leb t ts && negb (settled_by ts (p s t)));
    [discriminate|reflexivity].
Qed.

(** The log of the chain of [launchChromeAndRun]: the sequence of
    Lighthouse runs, between events that are not its own. *)
Lemma launcher_chain_split (env : Env) (s : Store) (t : Time) :
  exists pre post addresses u,
    log (launcher_chain env s t) =
      pre ++ log (run_addresses env addresses s u) ++ post /\
    Forall (fun e => is_shift (snd e) = false /\ is_job (snd e) = false)
           pre /\
    Forall (fun e => is_shift (snd e) = false /\ is_job (snd e) = false)
           post /\
    (addresses = [] \/ addresses = urls (cliFlags s)) /\
    (forall a, settle (launcher_chain env s t) = Fulfilled a ->
       addresses = urls (cliFlags s) /\
       (exists b, settle (run_addresses env addresses s u) = Fulfilled b) /\
       store (launcher_chain env s t)
         = store (run_addresses env addresses s u)).
Proof.
  rewrite launcher_chain_links.
  destruct (debugger_ready_or_run_made env s t) as (D1 & _).
  assert (D : Forall (fun e => is_shift (snd e) = false /\
                               is_job (snd e) = false)
                     (log (debugger_ready_or_run env s t))).
  { apply quiet_other. eapply Forall_impl; [|exact D1]. cbn. tauto. }
  destruct (settle (debugger_ready_or_run env s t)) as [a|x| |c] eqn:Ed.
  - destruct (settle (run_addresses env (urls (cliFlags s)) s
                        (now (debugger_ready_or_run env s t))))
      as [b|x| |c] eqn:Er.
    + destruct (kill_link env
                  (store (run_addresses env (urls (cliFlags s)) s
                            (now (debugger_ready_or_run env s t))))
                  (now (run_addresses env (urls (cliFlags s)) s
                          (now (debugger_ready_or_run env s t)))))
        as (_ & K2 & _).
      eexists _, _, (urls (cliFlags s)), _. cbn [log settle store].
      split; [reflexivity|]. split; [exact D|]. split.
      { apply quiet_other. eapply Forall_impl; [|exact K2]. cbn. tauto. }
      split; [right; reflexivity|]. intros a' _.
      split; [reflexivity|]. split; [|reflexivity]. rewrite Er. eauto.
    + eexists _, [], (urls (cliFlags s)), _. cbn [log settle store].
      rewrite app_nil_r. split; [reflexivity|]. split; [exact D|].
      split; [constructor|]. split; [right; reflexivity|].
      intros a'. rewrite Er. discriminate.
    + eexists _, [], (urls (cliFlags s)), _. cbn [log settle store].
      rewrite app_nil_r. split; [reflexivity|]. split; [exact D|].
      split; [constructor|]. split; [right; reflexivity|].
      intros a'. rewrite Er. discriminate.
    + eexists _, [], (urls (cliFlags s)), _. cbn [log settle store].
      rewrite app_nil_r. split; [reflexivity|]. split; [exact D|].
      split; [constructor|]. split; [right; reflexivity|].
      intros a'. rewrite Er. discriminate.
  - exists (log (debugger_ready_or_run env s t)), [], [], t.
    rewrite run_addresses_nil. cbn [log]. rewrite !app_nil_r.
    split; [reflexivity|]. split; [exact D|]. split; [constructor|].
    split; [left; reflexivity|]. intros a. rewrite Ed. discriminate.
  - exists (log (debugger_ready_or_run env s t)), [], [], t.
    rewrite run_addresses_nil. cbn [log]. rewrite !app_nil_r.
    split; [reflexivity|]. split; [exact D|]. split; [constructor|].
    split; [left; reflexivity|]. intros a. rewrite Ed. discriminate.
  - exists (log (debugger_ready_or_run env s t)), [], [], t.
    rewrite run_addresses_nil. cbn [log]. rewrite !app_nil_r.
    split; [reflexivity|]. split; [exact D|]. split; [constructor|].
    split; [left; reflexivity|]. intros a. rewrite Ed. discriminate.
Qed.

Lemma launchChromeAndRun_split (env : Env) (s : Store) (t : Time) :
  exists pre post addresses s' u,
    log (launchChromeAndRun env s t) =
      pre ++ log (run_addresses env addresses s' u) ++ post /\
    Forall (fun e => is_shift (snd e) = false /\ is_job (snd e) = false)
           pre /\
    Forall (fun e => is_shift (snd e) = false /\ is_job (snd e) = false)
           post /\
    (addresses = [] \/ addresses = urls (cliFlags s)) /\
    urls (cliFlags s') = urls (cliFlags s) /\
    (forall a, settle (launchChromeAndRun env s t) = Fulfilled a ->
       addresses = urls (cliFlags s) /\
       (exists b, settle (run_addresses env addresses s' u) = Fulfilled b) /\
       store (launchChromeAndRun env s t)
         = store (run_addresses env addresses s' u)).
Proof.
  rewrite launchChromeAndRun_links.
  destruct (initPort_made env s t) as (M1 & _).
  assert (M : Forall (fun e => is_shift (snd e) = false /\
                               is_job (snd e) = false)
                     (log (initPort env s t))).
  { apply quiet_other. eapply Forall_impl; [|exact M1]. cbn. tauto. }
  pose proof (urls_after_port env s t) as Hu.
  destruct (settle (initPort env s t)) as [a|x| |c] eqn:E.
  - destruct (launcher_chain_split env
                (apply_mutation (MRegister ActKill) (store (initPort env s t)))
                (now (initPort env s t)))
      as (pre & post & addresses & u & Hlog & Hpre & Hpost & Ha & Hf).
    exists (log (initPort env s t) ++
            [(now (initPort env s t),
              EvNewLauncher (port (cliFlags (store (initPort env s t))))
                            (negb (selectChrome (cliFlags s))));
             (now (initPort env s t), EvMutate (MRegister ActKill))] ++ pre),
      post, addresses,
      (apply_mutation (MRegister ActKill) (store (initPort env s t))), u.
    cbn [log settle store]. rewrite Hlog, Hu in *.
    split; [rewrite <- !app_assoc; reflexivity|].
    split.
    { apply Forall_app. split; [exact M|].
      apply Forall_app. split; [repeat constructor|exact Hpre]. }
    split; [exact Hpost|]. split; [exact Ha|]. split; [reflexivity|].
    exact Hf.
  - exists (log (initPort env s t)), [], [], s, t.
    rewrite run_addresses_nil. cbn [log]. rewrite !app_nil_r.
    split; [reflexivity|]. split; [exact M|]. split; [constructor|].
    split; [left; reflexivity|]. split; [reflexivity|].
    intros a. rewrite E. discriminate.
  - exists (log (initPort env s t)), [], [], s, t.
    rewrite run_addresses_nil. cbn [log]. rewrite !app_nil_r.
    split; [reflexivity|]. split; [exact M|]. split; [constructor|].
    split; [left; reflexivity|]. split; [reflexivity|].
    intros a. rewrite E. discriminate.
  - exists (log (initPort env s t)), [], [], s, t.
    rewrite run_addresses_nil. cbn [log]. rewrite !app_nil_r.
    split; [reflexivity|]. split; [exact M|]. split; [constructor|].
    split; [left; reflexivity|]. split; [reflexivity|].
    intros a. rewrite E. discriminate.
Qed.

Lemma initPort_urls (env : Env) (s : Store) (t : Time) :
  urls (cliFlags (store (initPort env s t))) = urls (cliFlags s).
Proof.
  destruct (initPort_frame env s t) as (_ & Hfr & _).
  rewrite <- Hfr. reflexivity.
Qed.

(** The log of [run]: the sequence of Lighthouse runs over the
    addresses of the configuration, if the program gets that far,
    between events that are not its own. *)
Lemma run_split (env : Env) (s0 : Store) :
  exists pre post addresses s u,
    log (run env s0 0) =
      pre ++ log (run_addresses env addresses s u) ++ post /\
    Forall (fun e => is_shift (snd e) = false /\ is_job (snd e) = false)
           pre /\
    Forall (fun e => is_shift (snd e) = false /\ is_job (snd e) = false)
           post /\
    (addresses = [] \/ addresses = urls (cliFlags s0)) /\
    urls (cliFlags s) = urls (cliFlags s0) /\
    (forall a, settle (run env s0 0) = Fulfilled a ->
       addresses = urls (cliFlags s0) /\
       (exists b, settle (run_addresses env addresses s u) = Fulfilled b) /\
       store (run env s0 0) = store (run_addresses env addresses s u)).
Proof.
  destruct (initPort_made env s0 0) as (M1 & _ & M3).
  assert (M : Forall (fun e => is_shift (snd e) = false /\
                               is_job (snd e) = false)
                     (log (initPort env s0 0))).
  { apply quiet_other. eapply Forall_impl; [|exact M1]. cbn. tauto. }
  pose proof (initPort_urls env s0 0) as Hu0.
  destruct (M3 tt) as [E|E].
  - destruct (skipAutolaunch (cliFlags s0)) eqn:Hskip.
    + rewrite (run_skip env s0 Hskip E).
      destruct (urls (cliFlags s0)) as [|address rest] eqn:Hu.
      * exists (log (initPort env s0 0)), [], [], s0, 0.
        rewrite run_addresses_nil. cbn [log settle]. rewrite !app_nil_r.
        split; [reflexivity|]. split; [exact M|]. split; [constructor|].
        split; [left; reflexivity|]. split; [exact Hu|].
        intros a. discriminate.
      * destruct (is_truthy address) eqn:Ht.
        -- destruct (settle (run_addresses env (address :: rest)
                               (store (initPort env s0 0))
                               (now (initPort env s0 0))))
             as [b|x| |c] eqn:Er.
           ++ rewrite catch_not_rejected by (rewrite Er; discriminate).
              eexists _, [], (address :: rest), _, _.
              cbn [log settle store]. rewrite app_nil_r.
              split; [reflexivity|]. split; [exact M|].
              split; [constructor|]. split; [right; reflexivity|].
              split; [exact Hu0|]. intros a _.
              split; [reflexivity|]. split; [|reflexivity].
              rewrite Er. eauto.
           ++ rewrite (catch_rejected _ _ _ _ x Er).
              eexists _, _, (address :: rest), _, _.
              cbn [log settle store].
              split; [reflexivity|]. split; [exact M|].
              split; [apply handleError_quiet|].
              split; [right; reflexivity|]. split; [exact Hu0|].
              intros a. rewrite (proj1 (handleError_exits x _ _)).
              discriminate.
           ++ rewrite catch_not_rejected by (rewrite Er; discriminate).
              eexists _, [], (address :: rest), _, _.
              cbn [log settle store]. rewrite app_nil_r.
              split; [reflexivity|]. split; [exact M|].
              split; [constructor|]. split; [right; reflexivity|].
              split; [exact Hu0|]. intros a. rewrite Er. discriminate.
           ++ rewrite catch_not_rejected by (rewrite Er; discriminate).
              eexists _, [], (address :: rest), _, _.
              cbn [log settle store]. rewrite app_nil_r.
              split; [reflexivity|]. split; [exact M|].
              split; [constructor|]. split; [right; reflexivity|].
              split; [exact Hu0|]. intros a. rewrite Er. discriminate.
        -- exists (log (initPort env s0 0)), [], (address :: rest),
             (store (initPort env s0 0)), (now (initPort env s0 0)).
           rewrite (run_addresses_falsy env address rest _ _ Ht).
           cbn [log settle]. rewrite app_nil_r.
           split; [reflexivity|]. split; [exact M|]. split; [constructor|].
           split; [right; reflexivity|]. split; [exact Hu0|].
           intros a. discriminate.
    + assert (Hrun := run_autolaunch env s0 _ Hskip E eq_refl).
      rewrite Hrun. cbn [log settle store].
      destruct (launchChromeAndRun_split env (store (initPort env s0 0))
                  (now (initPort env s0 0)))
        as (pre & post & addresses & s' & u & Hlog & Hpre & Hpost & Ha
            & Hu' & Hf).
      rewrite Hu0 in Ha, Hu', Hf.
      pose proof (race_log env (launchChromeAndRun env)
                    (store (initPort env s0 0)) (now (initPort env s0 0)))
        as Hrl.
      assert (Hq : Forall (fun e => is_shift (snd e) = false /\
                                    is_job (snd e) = false)
                          (log (initPort env s0 0) ++
                           (now (initPort env s0 0), EvOnSigint) :: pre)).
      { apply Forall_app. split; [exact M|].
        constructor; [split; reflexivity|exact Hpre]. }
      destruct (settle (race_isSigint env (launchChromeAndRun env)
                          (store (initPort env s0 0))
                          (now (initPort env s0 0))))
        as [a|x| |c] eqn:Er.
      * pose proof (race_fulfilled env _ _ _ a Er) as Hrace.
        rewrite catch_not_rejected by (rewrite Er; discriminate).
        rewrite Hrace in *. rewrite Hlog.
        exists (log (initPort env s0 0) ++
                (now (initPort env s0 0), EvOnSigint) :: pre),
          post, addresses, s', u.
        split; [rewrite <- app_assoc; reflexivity|].
        split; [exact Hq|]. split; [exact Hpost|].
        split; [exact Ha|]. split; [exact Hu'|]. exact Hf.
      * rewrite (catch_rejected _ _ _ _ x Er). cbn [log settle store].
        rewrite Hrl, Hlog.
        destruct (on_rejection_quiet env x
                    (store (race_isSigint env (launchChromeAndRun env)
                              (store (initPort env s0 0))
                              (now (initPort env s0 0))))
                    (now (race_isSigint env (launchChromeAndRun env)
                            (store (initPort env s0 0))
                            (now (initPort env s0 0)))))
          as (Q1 & Q2).
        eexists (log (initPort env s0 0) ++
                 (now (initPort env s0 0), EvOnSigint) :: pre),
          (post ++ _), addresses, s', u.
        split; [rewrite <- !app_assoc; reflexivity|].
        split; [exact Hq|].
        split; [apply Forall_app; split; [exact Hpost|exact Q1]|].
        split; [exact Ha|]. split; [exact Hu'|].
        intros a Ha'. exfalso. exact (Q2 a Ha').
      * rewrite catch_not_rejected by (rewrite Er; discriminate).
        rewrite Hrl, Hlog.
        exists (log (initPort env s0 0) ++
                (now (initPort env s0 0), EvOnSigint) :: pre),
          post, addresses, s', u.
        split; [rewrite <- app_assoc; reflexivity|].
        split; [exact Hq|]. split; [exact Hpost|].
        split; [exact Ha|]. split; [exact Hu'|].
        intros a. rewrite Er. discriminate.
      * rewrite catch_not_rejected by (rewrite Er; discriminate).
        rewrite Hrl, Hlog.
        exists (log (initPort env s0 0) ++
                (now (initPort env s0 0), EvOnSigint) :: pre),
          post, addresses, s', u.
        split; [rewrite <- app_assoc; reflexivity|].
        split; [exact Hq|]. split; [exact Hpost|].
        split; [exact Ha|]. split; [exact Hu'|].
        intros a. rewrite Er. discriminate.
  - destruct (run_unresolved env s0) as (-> & _); [congruence|].
    exists (log (initPort env s0 0)), [], [], s0, 0.
    rewrite run_addresses_nil. cbn [log]. rewrite !app_nil_r.
    split; [reflexivity|]. split; [exact M|]. split; [constructor|].
    split; [left; reflexivity|]. split; [reflexivity|].
    intros a. rewrite E. discriminate.
Qed.

Lemma tl_skipn {A} (k : nat) (l : list A) : tl (skipn k l) = skipn (S k) l.
Proof.
  revert l. induction k as [|k IH]; intros [|x l]; cbn [skipn tl];
    try reflexivity.
  apply IH.
Qed.

Lemma skipn_min {A} (k : nat) (l : list A) :
  skipn (Nat.min (length l) (S k)) l = skipn (S k) l.
Proof.
  destruct (Nat.le_gt_cases (S k) (length l)) as [H|H].
  - rewrite Nat.min_r by exact H. reflexivity.
  - rewrite Nat.min_l by lia. rewrite skipn_all.
    symmetry. apply skipn_all2. lia.
Qed.

Lemma quiet_jobs (l : Log) :
  Forall (fun e => is_shift (snd e) = false /\ is_job (snd e) = false) l ->
  jobs l = [].
Proof.
  intros H. apply length_zero_iff_nil. rewrite jobs_count.
  apply (quiet_counts 0 l H).
Qed.

(** The store that [run] threads: the flags other than the port and
    the addresses are never written, and the list of addresses only
    loses entries at its front. *)
Lemma run_frame (env : Env) (s0 : Store) :
  selectChrome (cliFlags (store (run env s0 0)))
    = selectChrome (cliFlags s0) /\
  skipAutolaunch (cliFlags (store (run env s0 0)))
    = skipAutolaunch (cliFlags s0) /\
  output (cliFlags (store (run env s0 0))) = output (cliFlags s0) /\
  output_path (cliFlags (store (run env s0 0)))
    = output_path (cliFlags s0) /\
  exists k,
    urls (cliFlags (store (run env s0 0))) = skipn k (urls (cliFlags s0)).
Proof.
  assert (H : sat (fun s =>
                     selectChrome (cliFlags s) = selectChrome (cliFlags s0) /\
                     skipAutolaunch (cliFlags s)
                       = skipAutolaunch (cliFlags s0) /\
                     output (cliFlags s) = output (cliFlags s0) /\
                     output_path (cliFlags s) = output_path (cliFlags s0) /\
                     exists k,
                       urls (cliFlags s) = skipn k (urls (cliFlags s0)))
                  (fun _ => True) (fun _ => True) (fun _ => True)
                  (run env)).
  { apply sat_run; auto.
    intros m s _ (H1 & H2 & H3 & H4 & k & H5).
    destruct m as [p| |fn]; cbn [apply_mutation cliFlags set_port set_urls
                                 selectChrome skipAutolaunch output
                                 output_path urls];
      repeat (split; [assumption|]).
    - exists k. exact H5.
    - exists (S k). rewrite H5. apply tl_skipn.
    - exists k. exact H5. }
  destruct (H s0 0) as (_ & _ & Hs & _); [|exact Hs].
  repeat (split; [reflexivity|]). exists 0. reflexivity.
Qed.

(** Once the port is not 0 it is not written any more. *)
Lemma run_then_port (env : Env) (s : Store) (t : Time) :
  port (cliFlags s) <> 0%Z ->
  port (cliFlags (store (run_then env s t))) = port (cliFlags s).
Proof.
  intros Hp.
  assert (H : sat (fun s' => port (cliFlags s') = port (cliFlags s))
                  (fun e => is_set_port e = false)
                  (fun _ => True) (fun _ => True) (run_then env)).
  { apply sat_run_then; auto.
    - intros m s' Hm Hs'.
      destruct m; cbn in *; [discriminate|assumption..].
    - left. intros s' Hs'. rewrite Hs'. exact Hp. }
  apply (H s t eq_refl).
Qed.

(** The writes of the port, in the log of [run] and in the store it
    threads. *)
Lemma run_port (env : Env) (s0 : Store) :
  (port (cliFlags s0) <> 0%Z ->
     count is_set_port (log (run env s0 0)) = 0 /\
     port (cliFlags (store (run env s0 0))) = port (cliFlags s0)) /\
  (port (cliFlags s0) = 0%Z ->
   forall d q, listen env 0 = Listening d q ->
     count is_set_port (log (run env s0 0)) = 1 /\
     In (d, EvMutate (MSetPort (Z.pos q))) (log (run env s0 0)) /\
     port (cliFlags (store (run env s0 0))) = Z.pos q).
Proof.
  split.
  - intros Hp. pose proof (initPort_supplied env s0 0 Hp) as Hi.
    unfold run. rewrite (bind_fulfilled _ _ _ _ tt)
      by (rewrite Hi; reflexivity).
    rewrite Hi. cbn [settle now store log]. split.
    + rewrite count_app.
      rewrite (count_none _ _ (run_then_no_set_port env s0 0 Hp)).
      reflexivity.
    + apply run_then_port. exact Hp.
  - intros Hp d q Hl. pose proof (initPort_generated env s0 0 d q Hp Hl) as Hi.
    assert (Hq : port (cliFlags (apply_mutation (MSetPort (Z.pos q)) s0))
                 <> 0%Z) by (cbn; discriminate).
    unfold run. rewrite (bind_fulfilled _ _ _ _ tt)
      by (rewrite Hi; reflexivity).
    rewrite Hi. cbn [settle now store log]. split; [|split].
    + rewrite count_app.
      rewrite (count_none _ _ (run_then_no_set_port env _ _ Hq)).
      reflexivity.
    + apply in_or_app. left. cbn. auto.
    + rewrite (run_then_port env _ _ Hq). reflexivity.
Qed.

(** A run that is fulfilled has started Lighthouse on every address
    before the first empty string, and has taken all of them, and that
    empty string if there is one, off the list. *)
Lemma run_fulfilled_urls (env : Env) (s0 : Store) (a : unit) :
  settle (run env s0 0) = Fulfilled a ->
  jobs (log (run env s0 0)) = truthy_prefix (urls (cliFlags s0)) /\
  count is_shift (log (run env s0 0))
    = Nat.min (length (urls (cliFlags s0)))
              (S (length (truthy_prefix (urls (cliFlags s0))))) /\
  urls (cliFlags (store (run env s0 0)))
    = skipn (S (length (truthy_prefix (urls (cliFlags s0)))))
            (urls (cliFlags s0)).
Proof.
  intros Hs.
  destruct (run_split env s0)
    as (pre & post & addresses & s & u & Hlog & Hpre & Hpost & _ & Hu & Hf).
  destruct (Hf a Hs) as (-> & (b & Hb) & Hst).
  destruct (run_addresses_prefix env (urls (cliFlags s0)) s u) as (_ & Hp).
  destruct (Hp b Hb) as (Hj & Hc).
  destruct (run_addresses_inv env (urls (cliFlags s0)) s u)
    as (_ & _ & Hstore & _).
  destruct (quiet_counts 0 pre Hpre) as (_ & P2 & _).
  destruct (quiet_counts 0 post Hpost) as (_ & P4 & _).
  rewrite Hlog, !jobs_app, !count_app, (quiet_jobs pre Hpre),
    (quiet_jobs post Hpost), P2, P4, Hj, Hc, app_nil_r.
  split; [reflexivity|]. split; [lia|].
  rewrite Hst, Hstore. cbn [cliFlags urls set_urls].
  rewrite Hc, Hu. apply skipn_min.
Qed.

(** C9, as the code has it.  The store that [run] threads keeps
    [selectChrome], [skipAutolaunch], the output mode and the output
    path.  The port is written at most once, and only when the requested
    port is 0: when the 'listening' event arrives it is written, once,
    with the port the operating system assigned, and it stays.  The
    list of addresses is changed: it only loses entries at its front,
    one for every Lighthouse run that is started, so that at any moment
    the process may end the addresses taken off the list are at least as
    many as the runs started; the runs are started on the addresses at
    the front of the original list, in order; and when [run] is
    fulfilled every address before the first empty string has been run
    and taken off, so that a list without an empty string ends empty. *)
Theorem configuration_writes (env : Env) (s0 : Store) :
  (selectChrome (cliFlags (store (run env s0 0)))
     = selectChrome (cliFlags s0) /\
   skipAutolaunch (cliFlags (store (run env s0 0)))
     = skipAutolaunch (cliFlags s0) /\
   output (cliFlags (store (run env s0 0))) = output (cliFlags s0) /\
   output_path (cliFlags (store (run env s0 0)))
     = output_path (cliFlags s0)) /\
  (count is_set_port (log (run env s0 0)) <= 1 /\
   count is_set_port (trace (execute env s0)) <= 1 /\
   (port (cliFlags s0) <> 0%Z ->
      count is_set_port (log (run env s0 0)) = 0 /\
      count is_set_port (trace (execute env s0)) = 0 /\
      port (cliFlags (store (run env s0 0))) = port (cliFlags s0) /\
      port (cliFlags (final_store env s0)) = port (cliFlags s0)) /\
   (forall t p,
      In (t, EvMutate (MSetPort p)) (log (run env s0 0)) ->
      port (cliFlags s0) = 0%Z /\
      exists q, listen env 0 = Listening t q /\ p = Z.pos q) /\
   (forall t p,
      In (t, EvMutate (MSetPort p)) (trace (execute env s0)) ->
      port (cliFlags s0) = 0%Z /\
      exists q, listen env 0 = Listening t q /\ p = Z.pos q) /\
   (port (cliFlags s0) = 0%Z ->
    forall d q, listen env 0 = Listening d q ->
      count is_set_port (log (run env s0 0)) = 1 /\
      In (d, EvMutate (MSetPort (Z.pos q))) (log (run env s0 0)) /\
      port (cliFlags (store (run env s0 0))) = Z.pos q)) /\
  ((exists k,
      urls (cliFlags (store (run env s0 0)))
        = skipn k (urls (cliFlags s0))) /\
   (exists rest,
      urls (cliFlags s0) = jobs (log (run env s0 0)) ++ rest) /\
   length (jobs (log (run env s0 0)))
     <= count is_shift (log (run env s0 0)) /\
   length (jobs (trace (execute env s0)))
     <= count is_shift (trace (execute env s0)) /\
   urls (cliFlags (final_store env s0)) =
     skipn (count is_shift (trace (execute env s0)))
           (urls (cliFlags s0)) /\
   (forall a, settle (run env s0 0) = Fulfilled a ->
      jobs (log (run env s0 0)) = truthy_prefix (urls (cliFlags s0)) /\
      urls (cliFlags (store (run env s0 0)))
        = skipn (S (length (truthy_prefix (urls (cliFlags s0)))))
                (urls (cliFlags s0)) /\
      (forallb is_truthy (urls (cliFlags s0)) = true ->
       urls (cliFlags (store (run env s0 0))) = [])) /\
   (forall T, termination (execute env s0) = RunFulfilled T ->
      urls (cliFlags (final_store env s0))
        = urls (cliFlags (store (run env s0 0))))).
Proof.
  destruct (run_frame env s0) as (F1 & F2 & F3 & F4 & F5).
  destruct (run_port env s0) as (P1 & P2).
  destruct (replay_frame (trace (execute env s0)) s0)
    as (_ & _ & _ & _ & R5 & R6).
  pose proof (trace_count env s0 is_set_port) as Hc.
  split; [repeat split; assumption|]. split.
  - assert (Hin : forall t p,
              In (t, EvMutate (MSetPort p)) (log (run env s0 0)) ->
              port (cliFlags s0) = 0%Z /\
              exists q, listen env 0 = Listening t q /\ p = Z.pos q).
    { intros t p Hin.
      destruct (run_set_port env s0)
        as [Hn|(Hp & d & q & rest & Hl & Hlog & Hr)].
      - rewrite Forall_forall in Hn. specialize (Hn _ Hin). discriminate.
      - rewrite Hlog in Hin. split; [assumption|]. exists q.
        apply in_app_or in Hin. destruct Hin as [Hin|[Hin|Hin]].
        + cbn in Hin. repeat destruct Hin as [Hin|Hin]; try discriminate;
            contradiction.
        + injection Hin as <- <-. auto.
        + rewrite Forall_forall in Hr. specialize (Hr _ Hin).
          discriminate. }
    assert (Hle : count is_set_port (log (run env s0 0)) <= 1).
    { destruct (run_set_port env s0)
        as [Hn|(Hp & d & q & rest & Hl & Hlog & Hr)].
      - rewrite (count_none _ _ Hn). lia.
      - destruct (P2 Hp d q Hl) as (-> & _). lia. }
    split; [exact Hle|]. split; [lia|]. split; [|split; [|split]].
    + intros Hp. destruct (P1 Hp) as (C1 & C2).
      split; [exact C1|]. split; [lia|]. split; [exact C2|].
      unfold final_store. apply R6. lia.
    + exact Hin.
    + intros t p H. apply Hin. apply trace_in. exact H.
    + exact P2.
  - destruct (run_split env s0)
      as (pre & post & addresses & s & u & Hlog & Hpre & Hpost & Ha & Hu
          & Hf).
    destruct (run_addresses_inv env addresses s u)
      as (_ & _ & _ & I4 & _).
    rewrite jobs_count in I4.
    split; [exact F5|]. split; [|split; [|split; [|split; [|split]]]].
    + rewrite Hlog, !jobs_app, (quiet_jobs pre Hpre),
        (quiet_jobs post Hpost), app_nil_r. cbn [app].
      destruct (run_addresses_jobs env addresses s u) as ((rest & Hr) & _).
      destruct Ha as [->| ->].
      * rewrite run_addresses_nil. exists (urls (cliFlags s0)). reflexivity.
      * exists rest. exact Hr.
    + rewrite jobs_count, Hlog, !count_app.
      destruct (quiet_counts 0 pre Hpre) as (-> & -> & _).
      destruct (quiet_counts 0 post Hpost) as (-> & -> & _). lia.
    + rewrite jobs_count.
      destruct (trace_cases env s0) as [->|[T ->]]; rewrite Hlog.
      * rewrite !count_app.
        destruct (quiet_counts 0 pre Hpre) as (-> & -> & _).
        destruct (quiet_counts 0 post Hpost) as (-> & -> & _). lia.
      * rewrite !upto_app, !count_app.
        destruct (quiet_counts T pre Hpre) as (_ & _ & -> & ->).
        destruct (quiet_counts T post Hpost) as (_ & _ & -> & ->).
        pose proof (run_addresses_taken env T addresses s u). lia.
    + exact R5.
    + intros a Hs.
      destruct (run_fulfilled_urls env s0 a Hs) as (U1 & _ & U3).
      split; [exact U1|]. split; [exact U3|].
      intros Ht. rewrite U3, (truthy_prefix_all _ Ht).
      apply skipn_all2. lia.
    + intros T HT.
      destruct (termination_fulfilled env s0 T HT) as ((a & Hs) & _ & Htr).
      destruct (run_fulfilled_urls env s0 a Hs) as (_ & U2 & U3).
      unfold final_store in *. rewrite Htr in *.
      rewrite R5, U2, U3. apply skipn_min.
Qed.

Lemma configuration_writes_witness :
  port (cliFlags (store (run env_quiet store_two 0))) = 9222%Z /\
  port (cliFlags (store (run env_quiet store_port0 0))) = 9333%Z /\
  (exists q, listen env_quiet 0 = Listening 2 q /\ 9333%Z = Z.pos q) /\
  urls (cliFlags (store (run env_quiet store_two 0))) = [] /\
  urls (cliFlags (final_store env_quiet store_two))
    = urls (cliFlags (store (run env_quiet store_two 0))).
Proof.
  pose proof (configuration_writes env_quiet store_two)
    as (_ & (_ & _ & P3 & _) & (_ & _ & _ & _ & _ & A6 & A7)).
  pose proof (configuration_writes env_quiet store_port0)
    as (_ & (_ & _ & _ & _ & P5 & P6) & _).
  split; [|split; [|split; [|split]]].
  - refine (proj1 (proj2 (proj2 (P3 _)))). discriminate.
  - exact (proj2 (proj2 (P6 eq_refl 2 9333%positive eq_refl))).
  - refine (proj2 (P5 2 9333%Z _)). vm_compute. in_list.
  - exact (proj2 (proj2 (A6 tt eq_refl)) eq_refl).
  - refine (A7 26 _). vm_compute. reflexivity.
Defined.

(** C9 does not hold as stated.  After a run over two addresses the
    list of addresses of the configuration is empty, in the store the
    program threads and in the store its trace describes: both
    addresses were taken off the list. *)
Lemma addresses_are_consumed :
  urls (cliFlags store_two) = two_addresses /\
  termination (execute env_quiet store_two) = RunFulfilled 26 /\
  jobs (trace (execute env_quiet store_two)) = two_addresses /\
  count is_shift (trace (execute env_quiet store_two)) = 2 /\
  urls (cliFlags (store (run env_quiet store_two 0))) = [] /\
  urls (cliFlags (final_store env_quiet store_two)) = [].
Proof. vm_compute. repeat split. Qed.

End CliProperties.

(* ================================================================== *)
(** * Further properties of the colour-contrast audit *)
(* ================================================================== *)

Module ColorContrastProperties.
Import ColorContrast.
Import ColorContrastFacts.

Lemma find_first_match (vs : list Violation) :
  find is_color_contrast (firstn 1 (filter is_color_contrast vs))
  = find is_color_contrast vs.
Proof.
  induction vs as [|v vs IH]; [reflexivity|].
  cbn [filter find]. destruct (is_color_contrast v) eqn:Hv.
  - cbn [firstn find]. rewrite Hv. reflexivity.
  - exact IH.
Qed.

(** X20.  The audit looks at nothing but the first violation whose id
    is color-contrast: its result on any artifacts is its result on the
    artifacts that hold that violation alone, or no violation when
    there is none.  Violations with another id, whatever their number and
    position, and everything after the first match, later color-contrast
    violations and their nodes included, leave the result as it is; and an
    absent list of violations gives the result of an empty one. *)
Theorem audit_reads_first_match_only (Format : Type)
        (ACCESSIBILITY : Format) (AuditResult : Type)
        (generateAuditResult : AuditInit Format -> AuditResult)
        (artifacts : Artifacts) :
  audit Format ACCESSIBILITY AuditResult generateAuditResult artifacts =
  audit Format ACCESSIBILITY AuditResult generateAuditResult
        (mkArtifacts
           (mkAccessibility
              (Some (firstn 1 (filter is_color_contrast
                                      (violations_or_empty artifacts)))))).
Proof.
  unfold audit, audit_init. cbn [violations_or_empty Accessibility violations].
  rewrite find_first_match. reflexivity.
Qed.

(** X21.  What the audit reports comes from its input: the rule it
    hands over as [extendedInfo.value] is one of the violations of the
    artifacts, its id is color-contrast and no violation before it in the
    list has that id; the audit then fails and its debug string is not
    empty.  It hands over no rule exactly when it passes. *)
Theorem audit_reports_input_violation (Format : Type)
        (ACCESSIBILITY : Format) (artifacts : Artifacts) :
  (forall rule,
     value (extendedInfo (audit_init Format ACCESSIBILITY artifacts))
       = Some rule ->
     id rule = "color-contrast" /\
     (exists pre post,
        violations_or_empty artifacts = pre ++ rule :: post /\
        forall v, In v pre -> id v <> "color-contrast") /\
     rawValue (audit_init Format ACCESSIBILITY artifacts) = false /\
     debugString (audit_init Format ACCESSIBILITY artifacts) <> "" /\
     formatter (extendedInfo (audit_init Format ACCESSIBILITY artifacts))
       = ACCESSIBILITY) /\
  (value (extendedInfo (audit_init Format ACCESSIBILITY artifacts)) = None
   <-> rawValue (audit_init Format ACCESSIBILITY artifacts) = true).
Proof.
  unfold audit_init.
  cbn [rawValue debugString extendedInfo value formatter].
  split.
  - intros rule Hf.
    assert (Hsplit : forall vs,
               find is_color_contrast vs = Some rule ->
               exists pre post,
                 vs = pre ++ rule :: post /\
                 forall v, In v pre -> id v <> "color-contrast").
    { induction vs as [|v vs IH]; [discriminate|]. cbn [find].
      destruct (is_color_contrast v) eqn:Hv.
      - intros H; injection H as ->. exists [], vs.
        split; [reflexivity|intros w []].
      - intros H. destruct (IH H) as (pre & post & -> & Hpre).
        exists (v :: pre), post. split; [reflexivity|].
        intros w [<-|Hw]; [apply is_color_contrast_false, Hv|auto]. }
    destruct (find_some _ _ Hf) as (_ & Hid).
    apply is_color_contrast_true in Hid.
    split; [exact Hid|]. split; [apply Hsplit, Hf|].
    rewrite Hf. split; [reflexivity|]. split; [|reflexivity].
    intros H. apply createDebugString_empty in H. discriminate.
  - destruct (find is_color_contrast (violations_or_empty artifacts));
      split; congruence.
Qed.

Lemma audit_reports_input_violation_witness :
  id (contrast_violation ["a"; "p"]) = "color-contrast" /\
  rawValue (audit_init unit tt failing_artifacts) = false.
Proof.
  destruct (proj1 (audit_reports_input_violation unit tt failing_artifacts)
                  (contrast_violation ["a"; "p"]) eq_refl)
    as (H1 & _ & H3 & _).
  exact (conj H1 H3).
Defined.

End ColorContrastProperties.
